(** * NiftyMIC: first estimate of the HR volume and volume reconstruction

    A shallow embedding of [src/FirstEstimateOfHRVolume.py] and
    [src/VolumeReconstruction.py].

    Conventions of the embedding.
    - Python ints are modelled by [Z]. The spacing of an image, on which
      the isotropic grid builder computes and rounds, is made of IEEE 754
      binary64 numbers with the correctly rounded operations of [SpecFloat],
      and the integer the builder stores is an int64. The intensities, the
      origin, the direction and the transforms, which the orchestrators
      add, divide or pass on without rounding one to an integer, are
      idealised as canonical rationals [Qc] (exact arithmetic, Leibniz
      equality).
    - Python objects that are shared and mutated (Stack, Slice) live in a
      store and are referred to by location; the two orchestrator objects
      are the receivers [self] and are threaded through every method.
    - Exceptions are values: a method is a function from the state to a
      result and the state reached, so that whatever a method wrote before
      it raised stays written, as in Python.
    - SimpleITK and the numerical collaborators (resampling, registration,
      in-plane registration, SDA and Tikhonov solvers) are opaque: their
      numerical kernels are the fields of an environment record.
    - Console output ([print]) and timing ([time.clock]) are not modelled. *)

From Stdlib Require Import ZArith QArith Qcanon Qround Lia Lqa SpecFloat.
From stdpp Require Import base option list strings numbers.

Open Scope Z_scope.

(** ** Python results and the state-and-exception monad *)

Inductive PyError :=
  | ValueError (msg : string)
  | IndexError
  | KeyError (key : string)
  | AttributeError (name : string)
  | TypeError
  | OverflowError
  | RuntimeError.

Inductive Res (A : Type) :=
  | Ok (a : A)
  | Raise (e : PyError).
Arguments Ok {A} a.
Arguments Raise {A} e.

Definition M (S A : Type) : Type := S → Res A * S.

Definition ret {S A} (a : A) : M S A := λ s, (Ok a, s).

Definition bind {S A B} (m : M S A) (f : A → M S B) : M S B :=
  λ s, match m s with
       | (Ok a, s') => f a s'
       | (Raise e, s') => (Raise e, s')
       end.

Definition raise {S A} (e : PyError) : M S A := λ s, (Raise e, s).
Definition get {S} : M S S := λ s, (Ok s, s).
Definition gets {S A} (f : S → A) : M S A := λ s, (Ok (f s), s).
Definition put {S} (s : S) : M S unit := λ _, (Ok tt, s).
Definition modify {S} (f : S → S) : M S unit := λ s, (Ok tt, f s).

Declare Scope py_scope.
Delimit Scope py_scope with py.
Notation "x <- m ;; k" := (bind m (λ x, k))
  (at level 100, m at next level, right associativity) : py_scope.
Notation "m ;; k" := (bind m (λ _, k))
  (at level 100, right associativity) : py_scope.
Open Scope py_scope.

(** [for x in xs: body x] *)
Fixpoint for_each {S A} (xs : list A) (body : A → M S unit) : M S unit :=
  match xs with
  | [] => ret tt
  | x :: xs' => body x ;; for_each xs' body
  end.

(** [range(0, n)] *)
Definition range (n : nat) : list nat := seq 0 n.

(** [l[i]] for a Python int [i]: negative indices count from the end, an
    index out of range raises [IndexError]. *)
Definition py_index {A} (l : list A) (i : Z) : option A :=
  if decide (0 ≤ i) then l !! Z.to_nat i
  else if decide (- Z.of_nat (length l) ≤ i)
       then l !! Z.to_nat (Z.of_nat (length l) + i)
       else None.

Definition getitem {S A} (l : list A) (i : Z) : M S A :=
  match py_index l i with
  | Some a => ret a
  | None => raise IndexError
  end.

(** [l[i]] for [i] produced by [range]. *)
Definition getitem_nat {S A} (l : list A) (i : nat) : M S A :=
  match l !! i with
  | Some a => ret a
  | None => raise IndexError
  end.

(** [l[i] = x] for [i] produced by [range]. *)
Definition setitem_nat {S A} (l : list A) (i : nat) (x : A) : M S (list A) :=
  if decide (i < length l)%nat then ret (<[i:=x]> l) else raise IndexError.

(** ** Numbers *)

Definition Qc_of_Z (z : Z) : Qc := Q2Qc (inject_Z z).

(** [np.round]: rounds to the nearest integer, halves to the even one. *)
Definition np_round (q : Qc) : Z :=
  let f := Qfloor q in
  let r := (q - Qc_of_Z f)%Qc in
  if decide (r < Q2Qc (1 # 2))%Qc then f
  else if decide (Q2Qc (1 # 2) < r)%Qc then f + 1
  else if Z.even f then f else f + 1.

(** A NumPy [float64]: an IEEE 754 binary64 number (53 bits of precision,
    exponents up to 1024), with its signed zeros, infinities and NaN. *)
Definition binary64 : Type := spec_float.
Definition b64_prec : Z := 53.
Definition b64_emax : Z := 1024.

(** [x / y] and [x * y] on [float64], rounded to nearest, ties to even.
    NumPy warns and goes on where Python would raise: a division by zero
    gives an infinity or a NaN. *)
Definition b64_div (x y : binary64) : binary64 := SFdiv b64_prec b64_emax x y.
Definition b64_mul (x y : binary64) : binary64 := SFmul b64_prec b64_emax x y.

(** The [float64] an integer is converted to when it meets one in an
    operation: the nearest one, ties to even. *)
Definition b64_of_Z (z : Z) : binary64 := binary_normalize b64_prec b64_emax z 0 false.

(** The number a finite [float64] stands for; an infinity and a NaN stand
    for none. *)
Definition b64_value (x : binary64) : option Qc :=
  match x with
  | S754_zero _ => Some 0%Qc
  | S754_finite s m e =>
      Some (Q2Qc (inject_Z (if s then Z.neg m else Z.pos m) * (2 # 1) ^ e))
  | S754_infinity _ | S754_nan => None
  end.

(** What [round] means in the specification of the builder, to compare
    [np_round] with: [n] is the integer nearest to [v], and the even one of
    the two nearest when [v] lies halfway. *)
Definition is_round_half_to_even (v : Qc) (n : Z) : Prop :=
  (Qc_of_Z n - Q2Qc (1 # 2) < v ∧ v < Qc_of_Z n + Q2Qc (1 # 2))%Qc ∨
  ((v = Qc_of_Z n - Q2Qc (1 # 2) ∨ v = Qc_of_Z n + Q2Qc (1 # 2))%Qc
   ∧ Z.even n = true).

(** The sizes SimpleITK takes are unsigned 32-bit integers. *)
Definition is_uint32 (n : Z) : Prop := 0 ≤ n < 2 ^ 32.
(** A NumPy integer array of the platform holds signed 64-bit integers. *)
Definition is_int64 (n : Z) : Prop := - 2 ^ 63 ≤ n < 2 ^ 63.

(** ** SimpleITK images and transforms *)

Record Grid := {
  grid_size : list Z;
  grid_spacing : list binary64;
  grid_origin : list Qc;
  grid_direction : list Qc
}.

(** An image: its grid, its pixel type and its voxels in the order of
    [sitk.GetArrayFromImage(...)], flattened. *)
Record Image := {
  grid : Grid;
  GetPixelIDValue : Z;
  voxels : list Qc
}.

Definition GetSize (im : Image) : list Z := grid_size (grid im).
Definition GetSpacing (im : Image) : list binary64 := grid_spacing (grid im).
Definition GetOrigin (im : Image) : list Qc := grid_origin (grid im).
Definition GetDirection (im : Image) : list Qc := grid_direction (grid im).

Definition sitkFloat64 : Z := 9.

(** Number of voxels of a grid: the product of its sizes. *)
Definition number_of_voxels (size : list Z) : nat :=
  Z.to_nat (foldr Z.mul 1 size).

Inductive Interpolator := sitkNearestNeighbor | sitkLinear.

Record vec3 := V3 { vx : Qc; vy : Qc; vz : Qc }.
Record mat3 := M3 { row0 : vec3; row1 : vec3; row2 : vec3 }.

(** An affine transform [x ↦ matrix x + translation]; a rigid
    ([sitk.Euler3DTransform]) one is the special case of a rotation matrix. *)
Record Transform := {
  matrix : mat3;
  translation : vec3
}.

Definition dot (u v : vec3) : Qc :=
  (vx u * vx v + vy u * vy v + vz u * vz v)%Qc.
Definition vadd (u v : vec3) : vec3 :=
  V3 (vx u + vx v)%Qc (vy u + vy v)%Qc (vz u + vz v)%Qc.
Definition mat_vec (m : mat3) (v : vec3) : vec3 :=
  V3 (dot (row0 m) v) (dot (row1 m) v) (dot (row2 m) v).
Definition col0 (m : mat3) : vec3 := V3 (vx (row0 m)) (vx (row1 m)) (vx (row2 m)).
Definition col1 (m : mat3) : vec3 := V3 (vy (row0 m)) (vy (row1 m)) (vy (row2 m)).
Definition col2 (m : mat3) : vec3 := V3 (vz (row0 m)) (vz (row1 m)) (vz (row2 m)).
Definition mat_mul (a b : mat3) : mat3 :=
  let row r := V3 (dot r (col0 b)) (dot r (col1 b)) (dot r (col2 b)) in
  M3 (row (row0 a)) (row (row1 a)) (row (row2 a)).

(** [sitk.Euler3DTransform()]: the identity. *)
Definition Euler3DTransform : Transform :=
  {| matrix := M3 (V3 1 0 0) (V3 0 1 0) (V3 0 0 1)%Qc;
     translation := V3 0 0 0%Qc |}.

(** Modelled from the spec: [sitkh.get_composited_sitk_affine_transform]
    (module SimpleITKHelper) is the composition [compose(T, slice.transform)]
    of the outer transform with the inner one, [x ↦ outer (inner x)]. *)
Definition get_composited_sitk_affine_transform
    (transform_outer transform_inner : Transform) : Transform :=
  {| matrix := mat_mul (matrix transform_outer) (matrix transform_inner);
     translation := vadd (mat_vec (matrix transform_outer)
                                  (translation transform_inner))
                         (translation transform_outer) |}.

(** ** Stacks, slices and the store *)

Abbreviation loc := nat (only parsing).

(** Modelled from the spec: a Slice (module Slice) owns an affine
    transform, its position in physical space, read and written through
    [get_affine_transform] and [set_affine_transform]. *)
Record Slice := {
  affine_transform : Transform
}.

Definition get_affine_transform (s : Slice) : Transform := affine_transform s.
Definition set_affine_transform (t : Transform) (s : Slice) : Slice :=
  {| affine_transform := t |}.

(** Modelled from the spec: a Stack (module Stack) is an ordered sequence
    of Slices, referred to by [_slices], with a 3-D intensity image [sitk]
    and a mask image [sitk_mask]. *)
Record Stack := {
  sitk : Image;
  sitk_mask : Image;
  _slices : list loc;
  filename : string
}.

Definition get_number_of_slices (s : Stack) : nat := length (_slices s).

Definition set_sitk (im : Image) (s : Stack) : Stack :=
  {| sitk := im; sitk_mask := sitk_mask s;
     _slices := _slices s; filename := filename s |}.
Definition set_sitk_mask (im : Image) (s : Stack) : Stack :=
  {| sitk := sitk s; sitk_mask := im;
     _slices := _slices s; filename := filename s |}.

(** The store: every Stack object (the acquired stacks, the in-plane
    resampled ones and the HR volumes) and every Slice object. Objects are
    never freed; a new object gets the next location. *)
Record World := {
  stack_heap : list Stack;
  slice_heap : list Slice
}.

Definition with_stack_heap (h : list Stack) (w : World) : World :=
  {| stack_heap := h; slice_heap := slice_heap w |}.
Definition with_slice_heap (h : list Slice) (w : World) : World :=
  {| stack_heap := stack_heap w; slice_heap := h |}.

(** Modelled from the spec: the stack manager (module StackManager) is
    the collection that loaded the stacks; its number of stacks is the
    length of that collection. *)
Record StackManager := {
  sm_stacks : list loc
}.
Definition get_stacks (sm : StackManager) : list loc := sm_stacks sm.
Definition get_number_of_stacks (sm : StackManager) : nat := length (sm_stacks sm).

(** ** Objects: a receiver together with the store *)

Section Receiver.
Context {O : Type}.

Definition self_get {A} (f : O → A) : M (O * World) A :=
  λ s, (Ok (f (fst s)), s).
Definition self_set (upd : O → O) : M (O * World) unit :=
  λ s, (Ok tt, (upd (fst s), snd s)).
Definition world_get {A} (f : World → A) : M (O * World) A :=
  λ s, (Ok (f (snd s)), s).
Definition lift_world {A} (m : M World A) : M (O * World) A :=
  λ s, let (r, w') := m (snd s) in (r, (fst s, w')).
End Receiver.

(** Reading an object of the store. A location always comes from a live
    reference, so a lookup cannot fail in Python; the store being a list,
    the embedding has to answer for a location that holds nothing and
    raises [RuntimeError]. *)
Definition deref_stack (l : loc) : M World Stack :=
  λ w, match stack_heap w !! l with
       | Some s => (Ok s, w)
       | None => (Raise RuntimeError, w)
       end.
Definition deref_slice (l : loc) : M World Slice :=
  λ w, match slice_heap w !! l with
       | Some s => (Ok s, w)
       | None => (Raise RuntimeError, w)
       end.
Definition store_stack (l : loc) (s : Stack) : M World unit :=
  modify (λ w, with_stack_heap (<[l:=s]> (stack_heap w)) w).
Definition store_slice (l : loc) (s : Slice) : M World unit :=
  modify (λ w, with_slice_heap (<[l:=s]> (slice_heap w)) w).
Definition alloc_stack (s : Stack) : M World loc :=
  λ w, (Ok (length (stack_heap w)),
        with_stack_heap (stack_heap w ++ [s]) w).

(** [d[key]()] for a dictionary of bound methods. *)
Fixpoint dict_call {S} (d : list (string * M S unit)) (key : string) : M S unit :=
  match d with
  | [] => raise (KeyError key)
  | (k, m) :: d' => if decide (k = key) then m else dict_call d' key
  end.

(** ** Collaborators *)

(** Modelled from the spec: the SDA solver collaborator (module
    ScatteredDataApproximation) is configured with a sigma and a variant
    and its run mutates the Volume it was given at construction. *)
Record ScatteredDataApproximation := {
  sda_stack_manager : StackManager;
  sda_HR_volume : loc;
  sda_sigma : option Qc;
  sda_approach : option string
}.

(** Modelled from the spec: the regularized-inverse solver collaborator
    (module InverseProblemSolver) is configured with alpha_cut, alpha,
    iter_max, the regularization order and the DTD variant, and its run
    mutates the Volume it was given at construction. *)
Record InverseProblemSolver := {
  ips_stacks : list loc;
  ips_HR_volume : loc;
  ips_alpha_cut : option Qc;
  ips_alpha : option Qc;
  ips_iter_max : option Z;
  ips_regularization_type : option string;
  ips_DTD_computation_type : option string
}.

(** Modelled from the spec: the in-plane alignment collaborator (module
    InPlaneRigidRegistration) yields, once run, a list of resampled
    planarly aligned stacks, which are Stack objects of their own. *)
Record InPlaneRigidRegistration := {
  iprr_stack_manager : StackManager;
  iprr_resampled_planarly_aligned_stacks : list loc
}.

(** [sitk.ImageRegistrationMethod] as the orchestrator configures it. *)
Inductive Metric := MattesMutualInformation (numberOfHistogramBins : Z).
Inductive Optimizer :=
  RegularStepGradientDescent (learningRate minStep : Qc) (numberOfIterations : Z).
Record ImageRegistrationMethod := {
  reg_initial_transform : Transform;
  reg_interpolator : Interpolator;
  reg_metric : Metric;
  reg_optimizer : Optimizer;
  reg_scales_from_physical_shift : bool;
  reg_shrink_factors : list Z;
  reg_smoothing_sigmas : list Z;
  reg_sigmas_in_physical_units : bool
}.

(** The numerical kernels, which the orchestrators consume as black boxes. *)
Record Env := {
  (** value at a voxel (flattened index) of [source] resampled onto the
      grid [target] through a transform *)
  interpolate : Image → Grid → Transform → Interpolator → Qc → Z → nat → Qc;
  (** the exception, if any, with which [sitk.Resample] refuses to resample
      [source] onto the grid [target] *)
  Resample_refusal :
    Image → Grid → Transform → Interpolator → Qc → Z → option PyError;
  (** the exception of the binding for a size that is no unsigned integer *)
  Resample_argument_error : PyError;
  CenteredTransformInitializer : Image → Image → Transform → Transform;
  registration_Execute : ImageRegistrationMethod → Image → Image → Transform;
  in_plane_kernel : World → StackManager → list Stack;
  sda_kernel : World → ScatteredDataApproximation → Image;
  srr_kernel : World → InverseProblemSolver → Image
}.

Section Collaborators.
Context (E : Env).

(** The image [sitk.Resample] returns when it resamples [image] onto the
    grid of the given size, origin, spacing and direction. *)
Definition Resample_onto (image : Image) (size : list Z) (transform : Transform)
    (interpolator : Interpolator) (origin : list Qc) (spacing : list binary64)
    (direction : list Qc) (default_pixel_value : Qc) (pixelID : Z) : Image :=
  let g := {| grid_size := size; grid_spacing := spacing;
              grid_origin := origin; grid_direction := direction |} in
  {| grid := g; GetPixelIDValue := pixelID;
     voxels := map (interpolate E image g transform interpolator
                                default_pixel_value pixelID)
                   (seq 0 (number_of_voxels size)) |}.

(** [sitk.Resample(image, size, transform, interpolator, origin, spacing,
    direction, default, pixelID)] for a size and a spacing the caller has
    computed. The binding converts the size to unsigned 32-bit integers and
    raises for an entry that is none; SimpleITK may then refuse the grid. *)
Definition Resample_call {S} (image : Image) (size : list Z) (transform : Transform)
    (interpolator : Interpolator) (origin : list Qc) (spacing : list binary64)
    (direction : list Qc) (default_pixel_value : Qc) (pixelID : Z) : M S Image :=
  if decide (Forall is_uint32 size) then
    let g := {| grid_size := size; grid_spacing := spacing;
                grid_origin := origin; grid_direction := direction |} in
    match Resample_refusal E image g transform interpolator
            default_pixel_value pixelID with
    | Some e => raise e
    | None => ret (Resample_onto image size transform interpolator origin
                     spacing direction default_pixel_value pixelID)
    end
  else raise (Resample_argument_error E).

(** [sitk.Resample(image, referenceImage, transform, interpolator,
    default, pixelID)] *)
Definition Resample (image reference : Image) (transform : Transform)
    (interpolator : Interpolator) (default_pixel_value : Qc) (pixelID : Z) : Image :=
  Resample_onto image (GetSize reference) transform interpolator
    (GetOrigin reference) (GetSpacing reference) (GetDirection reference)
    default_pixel_value pixelID.

(** Modelled from the spec: construction, configuration and run of the
    SDA solver. The run replaces the image of the Volume held. *)
Definition sda_new (sm : StackManager) (HR_volume : loc) : ScatteredDataApproximation :=
  {| sda_stack_manager := sm; sda_HR_volume := HR_volume;
     sda_sigma := None; sda_approach := None |}.
Definition sda_set_sigma (sigma : Qc) (o : ScatteredDataApproximation) :=
  {| sda_stack_manager := sda_stack_manager o; sda_HR_volume := sda_HR_volume o;
     sda_sigma := Some sigma; sda_approach := sda_approach o |}.
Definition sda_set_approach (a : string) (o : ScatteredDataApproximation) :=
  {| sda_stack_manager := sda_stack_manager o; sda_HR_volume := sda_HR_volume o;
     sda_sigma := sda_sigma o; sda_approach := Some a |}.
Definition sda_run_reconstruction (o : ScatteredDataApproximation) : M World unit :=
  vol <- deref_stack (sda_HR_volume o) ;;
  w <- get ;;
  store_stack (sda_HR_volume o) (set_sitk (sda_kernel E w o) vol).

(** Modelled from the spec: construction, configuration and run of the
    regularized-inverse solver. The run replaces the image of the Volume
    held. *)
Definition ips_new (stacks : list loc) (HR_volume : loc) : InverseProblemSolver :=
  {| ips_stacks := stacks; ips_HR_volume := HR_volume;
     ips_alpha_cut := None; ips_alpha := None; ips_iter_max := None;
     ips_regularization_type := None; ips_DTD_computation_type := None |}.
Definition ips_set_alpha_cut (v : Qc) (o : InverseProblemSolver) :=
  {| ips_stacks := ips_stacks o; ips_HR_volume := ips_HR_volume o;
     ips_alpha_cut := Some v; ips_alpha := ips_alpha o;
     ips_iter_max := ips_iter_max o;
     ips_regularization_type := ips_regularization_type o;
     ips_DTD_computation_type := ips_DTD_computation_type o |}.
Definition ips_set_alpha (v : Qc) (o : InverseProblemSolver) :=
  {| ips_stacks := ips_stacks o; ips_HR_volume := ips_HR_volume o;
     ips_alpha_cut := ips_alpha_cut o; ips_alpha := Some v;
     ips_iter_max := ips_iter_max o;
     ips_regularization_type := ips_regularization_type o;
     ips_DTD_computation_type := ips_DTD_computation_type o |}.
Definition ips_set_iter_max (v : Z) (o : InverseProblemSolver) :=
  {| ips_stacks := ips_stacks o; ips_HR_volume := ips_HR_volume o;
     ips_alpha_cut := ips_alpha_cut o; ips_alpha := ips_alpha o;
     ips_iter_max := Some v;
     ips_regularization_type := ips_regularization_type o;
     ips_DTD_computation_type := ips_DTD_computation_type o |}.
Definition ips_set_regularization_type (v : string) (o : InverseProblemSolver) :=
  {| ips_stacks := ips_stacks o; ips_HR_volume := ips_HR_volume o;
     ips_alpha_cut := ips_alpha_cut o; ips_alpha := ips_alpha o;
     ips_iter_max := ips_iter_max o;
     ips_regularization_type := Some v;
     ips_DTD_computation_type := ips_DTD_computation_type o |}.
Definition ips_set_DTD_computation_type (v : string) (o : InverseProblemSolver) :=
  {| ips_stacks := ips_stacks o; ips_HR_volume := ips_HR_volume o;
     ips_alpha_cut := ips_alpha_cut o; ips_alpha := ips_alpha o;
     ips_iter_max := ips_iter_max o;
     ips_regularization_type := ips_regularization_type o;
     ips_DTD_computation_type := Some v |}.
Definition ips_run_reconstruction (o : InverseProblemSolver) : M World unit :=
  vol <- deref_stack (ips_HR_volume o) ;;
  w <- get ;;
  store_stack (ips_HR_volume o) (set_sitk (srr_kernel E w o) vol).

(** Modelled from the spec: construction and run of the in-plane
    alignment collaborator. The run makes new Stack objects and touches
    no object that exists. *)
Definition iprr_new (sm : StackManager) : InPlaneRigidRegistration :=
  {| iprr_stack_manager := sm; iprr_resampled_planarly_aligned_stacks := [] |}.
(** Allocates the resampled stacks one after the other. *)
Fixpoint alloc_stacks (ss : list Stack) : M World (list loc) :=
  match ss with
  | [] => ret []
  | s :: ss' => l <- alloc_stack s ;; ls <- alloc_stacks ss' ;; ret (l :: ls)
  end.
Definition run_in_plane_rigid_registration (o : InPlaneRigidRegistration)
    : M World InPlaneRigidRegistration :=
  w <- get ;;
  ls <- alloc_stacks (in_plane_kernel E w (iprr_stack_manager o)) ;;
  ret {| iprr_stack_manager := iprr_stack_manager o;
         iprr_resampled_planarly_aligned_stacks := ls |}.
Definition get_resampled_planarly_aligned_stacks (o : InPlaneRigidRegistration)
    : list loc :=
  iprr_resampled_planarly_aligned_stacks o.
End Collaborators.

(** ** VolumeReconstruction.py *)

Module VR.

Record VolumeReconstruction := mk {
  _stack_manager : StackManager;
  _stacks : list loc;
  _N_stacks : nat;
  _HR_volume : loc;
  _recon_approach : string;
  _SRR : InverseProblemSolver;
  _SRR_alpha_cut : Qc;
  _SRR_alpha : Qc;
  _SRR_iter_max : Z;
  _SRR_approach : string;
  _SRR_DTD_comp_type : string;
  _SDA : ScatteredDataApproximation;
  _SDA_sigma : Qc;
  _SDA_type : string;
  (** [None]: the attribute has not been created yet; only
      [set_SDA_approach] creates it. *)
  _SDA_approach : option string
}.

(** Attribute assignments [self.<field> = v]. *)
Definition set__recon_approach (v : string) (o : VolumeReconstruction) :=
  let 'mk a b c d _ f g h i j k l m n p := o in mk a b c d v f g h i j k l m n p.
Definition set__SRR (v : InverseProblemSolver) (o : VolumeReconstruction) :=
  let 'mk a b c d e _ g h i j k l m n p := o in mk a b c d e v g h i j k l m n p.
Definition set__SRR_alpha_cut (v : Qc) (o : VolumeReconstruction) :=
  let 'mk a b c d e f _ h i j k l m n p := o in mk a b c d e f v h i j k l m n p.
Definition set__SRR_alpha (v : Qc) (o : VolumeReconstruction) :=
  let 'mk a b c d e f g _ i j k l m n p := o in mk a b c d e f g v i j k l m n p.
Definition set__SRR_iter_max (v : Z) (o : VolumeReconstruction) :=
  let 'mk a b c d e f g h _ j k l m n p := o in mk a b c d e f g h v j k l m n p.
Definition set__SRR_approach (v : string) (o : VolumeReconstruction) :=
  let 'mk a b c d e f g h i _ k l m n p := o in mk a b c d e f g h i v k l m n p.
Definition set__SRR_DTD_comp_type (v : string) (o : VolumeReconstruction) :=
  let 'mk a b c d e f g h i j _ l m n p := o in mk a b c d e f g h i j v l m n p.
Definition set__SDA (v : ScatteredDataApproximation) (o : VolumeReconstruction) :=
  let 'mk a b c d e f g h i j k _ m n p := o in mk a b c d e f g h i j k v m n p.
Definition set__SDA_sigma (v : Qc) (o : VolumeReconstruction) :=
  let 'mk a b c d e f g h i j k l _ n p := o in mk a b c d e f g h i j k l v n p.
Definition set__SDA_approach (v : option string) (o : VolumeReconstruction) :=
  let 'mk a b c d e f g h i j k l m n _ := o in mk a b c d e f g h i j k l m n v.

Definition St : Type := VolumeReconstruction * World.

(** Constructor. No step of it can raise. *)
Definition __init__ (stack_manager : StackManager) (HR_volume : loc)
    : VolumeReconstruction :=
  let stacks := get_stacks stack_manager in
  let SRR_alpha_cut : Qc := Qc_of_Z 3 in
  let SRR_alpha : Qc := Q2Qc (1 # 10) in
  let SRR_iter_max : Z := 20 in
  let SRR_approach := "TK0" in
  let SRR_DTD_comp_type := "Laplace" in
  let SRR :=
    ips_set_DTD_computation_type SRR_DTD_comp_type
      (ips_set_regularization_type SRR_approach
        (ips_set_iter_max SRR_iter_max
          (ips_set_alpha SRR_alpha
            (ips_set_alpha_cut SRR_alpha_cut
              (ips_new stacks HR_volume))))) in
  let SDA_sigma : Qc := Qc_of_Z 1 in
  let SDA_type := "Shepard-YVV" in
  let SDA :=
    sda_set_approach SDA_type
      (sda_set_sigma SDA_sigma (sda_new stack_manager HR_volume)) in
  {| _stack_manager := stack_manager;
     _stacks := stacks;
     _N_stacks := get_number_of_stacks stack_manager;
     _HR_volume := HR_volume;
     _recon_approach := "SRR";
     _SRR := SRR;
     _SRR_alpha_cut := SRR_alpha_cut;
     _SRR_alpha := SRR_alpha;
     _SRR_iter_max := SRR_iter_max;
     _SRR_approach := SRR_approach;
     _SRR_DTD_comp_type := SRR_DTD_comp_type;
     _SDA := SDA;
     _SDA_sigma := SDA_sigma;
     _SDA_type := SDA_type;
     _SDA_approach := None |}.

Definition get_HR_volume : M St loc := self_get _HR_volume.

Definition set_reconstruction_approach (recon_approach : string) : M St unit :=
  if decide (recon_approach ∉ ["SRR"; "SDA"])
  then raise (ValueError
         "Error: regularization type can only be either 'SRR' or 'SDA'")
  else self_set (set__recon_approach recon_approach).

Definition get_reconstruction_approach : M St string := self_get _recon_approach.

Definition set_SRR_alpha_cut (alpha_cut : Qc) : M St unit :=
  self_set (set__SRR_alpha_cut alpha_cut) ;;
  v <- self_get _SRR_alpha_cut ;;
  self_set (λ o, set__SRR (ips_set_alpha_cut v (_SRR o)) o).

Definition get_SRR_alpha_cut : M St Qc := self_get _SRR_alpha_cut.

Definition set_SRR_alpha (alpha : Qc) : M St unit :=
  self_set (set__SRR_alpha alpha) ;;
  v <- self_get _SRR_alpha ;;
  self_set (λ o, set__SRR (ips_set_alpha v (_SRR o)) o).

Definition get_SRR_alpha : M St Qc := self_get _SRR_alpha.

Definition set_SRR_iter_max (iter_max : Z) : M St unit :=
  self_set (set__SRR_iter_max iter_max) ;;
  v <- self_get _SRR_iter_max ;;
  self_set (λ o, set__SRR (ips_set_iter_max v (_SRR o)) o).

Definition get_SRR_iter_max : M St Z := self_get _SRR_iter_max.

Definition set_SRR_approach (SRR_approach : string) : M St unit :=
  if decide (SRR_approach ∉ ["TK0"; "TK1"])
  then raise (ValueError
         "Error: SRR approach can only be either 'TK0' or 'TK1'")
  else
    self_set (set__SRR_approach SRR_approach) ;;
    v <- self_get _SRR_approach ;;
    self_set (λ o, set__SRR (ips_set_regularization_type v (_SRR o)) o).

Definition get_SRR_approach : M St string := self_get _SRR_approach.

Definition set_SRR_DTD_computation_type (DTD_comp_type : string) : M St unit :=
  if decide (DTD_comp_type ∉ ["Laplace"; "FiniteDifference"])
  then raise (ValueError
         "Error: D'D computation type can only be either 'Laplace' or 'FiniteDifference'")
  else
    self_set (set__SRR_DTD_comp_type DTD_comp_type) ;;
    v <- self_get _SRR_DTD_comp_type ;;
    self_set (λ o, set__SRR (ips_set_DTD_computation_type v (_SRR o)) o).

Definition get_SRR_DTD_computation_type : M St string :=
  self_get _SRR_DTD_comp_type.

Definition set_SDA_sigma (sigma : Qc) : M St unit :=
  self_set (set__SDA_sigma sigma) ;;
  v <- self_get _SDA_sigma ;;
  self_set (λ o, set__SDA (sda_set_sigma v (_SDA o)) o).

Definition get_SDA_sigma : M St Qc := self_get _SDA_sigma.

Definition set_SDA_approach (SDA_approach : string) : M St unit :=
  if decide (SDA_approach ∉ ["Shepard-YVV"; "Shepard-Deriche"])
  then raise (ValueError
         "Error: SDA approach can only be either 'Shepard-YVV' or 'Shepard-Deriche'")
  else
    self_set (set__SDA_approach (Some SDA_approach)) ;;
    self_set (λ o, set__SDA (sda_set_approach SDA_approach (_SDA o)) o).

Section WithEnv.
Context (E : Env).

Definition _run_SRR : M St unit :=
  SRR <- self_get _SRR ;;
  lift_world (ips_run_reconstruction E SRR).

Definition _run_SDA : M St unit :=
  SDA <- self_get _SDA ;;
  lift_world (sda_run_reconstruction E SDA).

(** The dictionary [self._run_reconstruction]. *)
Definition _run_reconstruction : list (string * M St unit) :=
  [("SDA", _run_SDA); ("SRR", _run_SRR)].

Definition run_reconstruction : M St unit :=
  recon_approach <- self_get _recon_approach ;;
  dict_call _run_reconstruction recon_approach.
End WithEnv.

End VR.

(** ** NumPy arrays (flattened) and SimpleITK conversions *)

(** [for x in xs: acc = body acc x], for the local variables of a loop. *)
Fixpoint for_fold {S A B} (xs : list A) (acc : B) (body : B → A → M S B) : M S B :=
  match xs with
  | [] => ret acc
  | x :: xs' => acc' <- body acc x ;; for_fold xs' acc' body
  end.

Definition np_zeros (n : nat) : list Qc := replicate n 0%Qc.

(** [a += b] *)
Definition np_add (a b : list Qc) : list Qc := zip_with Qcplus a b.

(** [ind[np.nonzero(b)] += 1] *)
Definition np_count_nonzero (ind b : list Qc) : list Qc :=
  zip_with (λ c x, if decide (x ≠ 0%Qc) then (c + 1)%Qc else c) ind b.

(** [a[a == 0] = 1] *)
Definition np_zero_to_one (a : list Qc) : list Qc :=
  map (λ c, if decide (c = 0%Qc) then 1%Qc else c) a.

(** [np.divide(a, b)] *)
Definition np_divide (a b : list Qc) : list Qc := zip_with Qcdiv a b.

(** [a[a > 0] = 1] *)
Definition np_positive_to_one (a : list Qc) : list Qc :=
  map (λ m, if decide (0 < m)%Qc then 1%Qc else m) a.

(** [a[m == 0] = 0] *)
Definition np_zero_where_zero (a m : list Qc) : list Qc :=
  zip_with (λ x y, if decide (y = 0%Qc) then 0%Qc else x) a m.

(** [size[2] = np.round(x)] for a [float64] [x] and an int64 array
    [size]. [np.round] gives the float of the nearest integer, ties to
    even, and leaves an infinity and a NaN as they are; the assignment
    converts the float through Python's [int], which raises for a NaN and
    for an infinity, and then to a C long, which raises for an integer out
    of its range. *)
Definition float_to_int64 {S} (x : binary64) : M S Z :=
  match b64_value x with
  | Some v =>
      let n := np_round v in
      if decide (is_int64 n) then ret n else raise OverflowError
  | None =>
      match x with
      | S754_nan => raise (ValueError "cannot convert float NaN to integer")
      | _ => raise OverflowError
      end
  end.

(** [size[2] = np.round(a / b * n)] for two [float64] [a] and [b] and an
    int64 [n], which the multiplication converts to a [float64]. *)
Definition rounded_ratio_to_int {S} (a b : binary64) (n : Z) : M S Z :=
  float_to_int64 (b64_mul (b64_div a b) (b64_of_Z n)).

(** [helper = sitk.GetImageFromArray(array); helper.CopyInformation(src)]
    for an array of the shape of an image of size [size]. Copying the
    information of an image of another size raises. *)
Definition image_from_array_like {S} (array : list Qc) (size : list Z)
    (src : Image) : M S Image :=
  if decide (GetSize src = size)
  then ret {| grid := {| grid_size := size;
                         grid_spacing := GetSpacing src;
                         grid_origin := GetOrigin src;
                         grid_direction := GetDirection src |};
              GetPixelIDValue := sitkFloat64;
              voxels := array |}
  else raise RuntimeError.

(** Modelled from the spec: [st.Stack.from_sitk_image(image, name)]
    followed by [add_mask(mask)] (module Stack) makes a Stack-shaped Volume
    of the image and the mask, which is not tied to acquisition slices. *)
Definition Stack_from_sitk_image (image : Image) (name : string) (mask : Image)
    : Stack :=
  {| sitk := image; sitk_mask := mask; _slices := []; filename := name |}.

(** ** FirstEstimateOfHRVolume.py *)

Module FE.

Record FirstEstimateOfHRVolume := mk {
  _stack_manager : StackManager;
  _stacks : list loc;
  _N_stacks : nat;
  _filename_reconstructed_volume : string;
  _target_stack_number : Z;
  _HR_volume : loc;
  _flag_use_in_plane_rigid_registration_for_initial_volume_estimate : bool;
  _flag_register_stacks_before_initial_volume_estimate : bool;
  _rigid_registrations : list Transform;
  _recon_approach : string;
  _SDA : ScatteredDataApproximation;
  _SDA_sigma : Qc;
  _SDA_type : string;
  (** [None]: the attribute has not been created yet. *)
  _SDA_approach : option string;
  _in_plane_rigid_registration : option InPlaneRigidRegistration
}.

(** Attribute assignments [self.<field> = v]. *)
Definition set__HR_volume (v : loc) (o : FirstEstimateOfHRVolume) :=
  let 'mk a b c d e _ g h i j k l m n p := o in mk a b c d e v g h i j k l m n p.
Definition set__flag_use_in_plane (v : bool) (o : FirstEstimateOfHRVolume) :=
  let 'mk a b c d e f _ h i j k l m n p := o in mk a b c d e f v h i j k l m n p.
Definition set__flag_register (v : bool) (o : FirstEstimateOfHRVolume) :=
  let 'mk a b c d e f g _ i j k l m n p := o in mk a b c d e f g v i j k l m n p.
Definition set__rigid_registrations (v : list Transform) (o : FirstEstimateOfHRVolume) :=
  let 'mk a b c d e f g h _ j k l m n p := o in mk a b c d e f g h v j k l m n p.
Definition set__recon_approach (v : string) (o : FirstEstimateOfHRVolume) :=
  let 'mk a b c d e f g h i _ k l m n p := o in mk a b c d e f g h i v k l m n p.
Definition set__SDA (v : ScatteredDataApproximation) (o : FirstEstimateOfHRVolume) :=
  let 'mk a b c d e f g h i j _ l m n p := o in mk a b c d e f g h i j v l m n p.
Definition set__SDA_sigma (v : Qc) (o : FirstEstimateOfHRVolume) :=
  let 'mk a b c d e f g h i j k _ m n p := o in mk a b c d e f g h i j k v m n p.
Definition set__SDA_approach (v : option string) (o : FirstEstimateOfHRVolume) :=
  let 'mk a b c d e f g h i j k l m _ p := o in mk a b c d e f g h i j k l m v p.
Definition set__in_plane_rigid_registration
    (v : option InPlaneRigidRegistration) (o : FirstEstimateOfHRVolume) :=
  let 'mk a b c d e f g h i j k l m n _ := o in mk a b c d e f g h i j k l m n v.

Definition St : Type := FirstEstimateOfHRVolume * World.

(** Reading [self._in_plane_rigid_registration], which exists only once
    [compute_first_estimate_of_HR_volume] has created it. *)
Definition the_in_plane_rigid_registration : M St InPlaneRigidRegistration :=
  o <- self_get _in_plane_rigid_registration ;;
  match o with
  | Some ip => ret ip
  | None => raise (AttributeError "_in_plane_rigid_registration")
  end.

Definition use_in_plane_registration_for_initial_volume_estimate (flag : bool)
    : M St unit :=
  self_set (set__flag_use_in_plane flag).

Definition register_stacks_before_initial_volume_estimate (flag : bool)
    : M St unit :=
  self_set (set__flag_register flag).

Definition get_HR_volume : M St loc := self_get _HR_volume.

Definition set_reconstruction_approach (recon_approach : string) : M St unit :=
  if decide (recon_approach ∉ ["SDA"; "Average"])
  then raise (ValueError
         "Error: regularization type can only be either 'SDA' or 'Average'")
  else self_set (set__recon_approach recon_approach).

Definition get_reconstruction_approach : M St string := self_get _recon_approach.

Definition set_SDA_sigma (sigma : Qc) : M St unit :=
  self_set (set__SDA_sigma sigma) ;;
  v <- self_get _SDA_sigma ;;
  self_set (λ o, set__SDA (sda_set_sigma v (_SDA o)) o).

Definition get_SDA_sigma : M St Qc := self_get _SDA_sigma.

Definition set_SDA_approach (SDA_approach : string) : M St unit :=
  if decide (SDA_approach ∉ ["Shepard-YVV"; "Shepard-Deriche"])
  then raise (ValueError
         "Error: SDA approach can only be either 'Shepard-YVV' or 'Shepard-Deriche'")
  else
    self_set (set__SDA_approach (Some SDA_approach)) ;;
    self_set (λ o, set__SDA (sda_set_approach SDA_approach (_SDA o)) o).

Section WithEnv.
Context (E : Env).

(** The body of [_get_isotropically_resampled_stack]; of [self] it
    reads [_filename_reconstructed_volume] only, so that the
    constructor can run it before the other attributes exist. *)
Definition isotropically_resampled_stack (filename_reconstructed_volume : string)
    (target_stack : loc) : M World loc :=
  target <- deref_stack target_stack ;;
  let spacing := GetSpacing (sitk target) in
  let size := GetSize (sitk target) in
  spacing_2 <- getitem_nat spacing 2 ;;
  spacing_0 <- getitem_nat spacing 0 ;;
  size_2 <- getitem_nat size 2 ;;
  new_size_2 <- rounded_ratio_to_int spacing_2 spacing_0 size_2 ;;
  size <- setitem_nat size 2 new_size_2 ;;
  spacing_0 <- getitem_nat spacing 0 ;;
  spacing <- setitem_nat spacing 2 spacing_0 ;;
  let default_pixel_value := 0%Qc in
  HR_volume_sitk <-
    Resample_call E (sitk target) size Euler3DTransform sitkNearestNeighbor
      (GetOrigin (sitk target)) spacing (GetDirection (sitk target))
      default_pixel_value (GetPixelIDValue (sitk target)) ;;
  HR_volume_sitk_mask <-
    Resample_call E (sitk_mask target) size Euler3DTransform sitkNearestNeighbor
      (GetOrigin (sitk target)) spacing (GetDirection (sitk target))
      default_pixel_value (GetPixelIDValue (sitk target)) ;;
  alloc_stack (Stack_from_sitk_image HR_volume_sitk
                 filename_reconstructed_volume HR_volume_sitk_mask).

Definition _get_isotropically_resampled_stack (target_stack : loc) : M St loc :=
  name <- self_get _filename_reconstructed_volume ;;
  lift_world (isotropically_resampled_stack name target_stack).

(** Constructor. *)
Definition __init__ (stack_manager : StackManager)
    (filename_reconstructed_volume : string) (target_stack_number : Z)
    : M World FirstEstimateOfHRVolume :=
  let stacks := get_stacks stack_manager in
  let N_stacks := get_number_of_stacks stack_manager in
  target <- getitem stacks target_stack_number ;;
  HR_volume <- isotropically_resampled_stack filename_reconstructed_volume target ;;
  let SDA_sigma : Qc := Q2Qc (6 # 10) in
  let SDA_type := "Shepard-YVV" in
  ret {| _stack_manager := stack_manager;
         _stacks := stacks;
         _N_stacks := N_stacks;
         _filename_reconstructed_volume := filename_reconstructed_volume;
         _target_stack_number := target_stack_number;
         _HR_volume := HR_volume;
         _flag_use_in_plane_rigid_registration_for_initial_volume_estimate := false;
         _flag_register_stacks_before_initial_volume_estimate := false;
         _rigid_registrations := replicate N_stacks Euler3DTransform;
         _recon_approach := "SDA";
         _SDA := sda_set_approach SDA_type
                   (sda_set_sigma SDA_sigma (sda_new stack_manager HR_volume));
         _SDA_sigma := SDA_sigma;
         _SDA_type := SDA_type;
         _SDA_approach := None;
         _in_plane_rigid_registration := None |}.

(** The stacks the numerics work on: the in-plane resampled ones when
    the in-plane flag is set, the original ones otherwise. *)
Definition working_stacks : M St (list loc) :=
  flag <- self_get _flag_use_in_plane_rigid_registration_for_initial_volume_estimate ;;
  if (flag : bool) then
    ip <- the_in_plane_rigid_registration ;;
    ret (get_resampled_planarly_aligned_stacks ip)
  else self_get _stacks.

Definition _get_rigid_registration_transform_3D_sitk (fixed_3D moving_3D : loc)
    : M St Transform :=
  fixed <- lift_world (deref_stack fixed_3D) ;;
  moving <- lift_world (deref_stack moving_3D) ;;
  let initial_transform :=
    CenteredTransformInitializer E (sitk fixed) (sitk moving) Euler3DTransform in
  let registration_method :=
    {| reg_initial_transform := initial_transform;
       reg_interpolator := sitkLinear;
       reg_metric := MattesMutualInformation 100;
       reg_optimizer :=
         RegularStepGradientDescent (Q2Qc (1 # 2)) (Q2Qc (5 # 100)) 2000;
       reg_scales_from_physical_shift := true;
       reg_shrink_factors := [4; 2; 1];
       reg_smoothing_sigmas := [2; 1; 0];
       reg_sigmas_in_physical_units := true |} in
  ret (registration_Execute E registration_method (sitk fixed) (sitk moving)).

(** The loop body of [_update_slice_transformations] on slice [j]. *)
Definition update_slice (T : Transform) (slice : loc) : M St unit :=
  s <- lift_world (deref_slice slice) ;;
  let slice_trafo := get_affine_transform s in
  let affine_transform := get_composited_sitk_affine_transform T slice_trafo in
  lift_world (store_slice slice (set_affine_transform affine_transform s)).

Definition _update_slice_transformations : M St unit :=
  N_stacks <- self_get _N_stacks ;;
  for_each (range N_stacks) (λ i,
    stacks <- self_get _stacks ;;
    stack_ref <- getitem_nat stacks i ;;
    rigid_registrations <- self_get _rigid_registrations ;;
    T <- getitem_nat rigid_registrations i ;;
    stack <- lift_world (deref_stack stack_ref) ;;
    for_each (range (get_number_of_slices stack)) (λ j,
      slice <- getitem_nat (_slices stack) j ;;
      update_slice T slice)).

Definition _rigidly_register_all_stacks_to_HR_volume : M St unit :=
  stacks <- working_stacks ;;
  N_stacks <- self_get _N_stacks ;;
  for_each (range N_stacks) (λ i,
    stack_i <- getitem_nat stacks i ;;
    HR_volume <- self_get _HR_volume ;;
    T <- _get_rigid_registration_transform_3D_sitk stack_i HR_volume ;;
    rigid_registrations <- self_get _rigid_registrations ;;
    rigid_registrations <- setitem_nat rigid_registrations i T ;;
    self_set (set__rigid_registrations rigid_registrations)) ;;
  _update_slice_transformations.

Definition _run_averaging : M St unit :=
  let default_pixel_value := 0%Qc in
  HR_volume <- self_get _HR_volume ;;
  HR <- lift_world (deref_stack HR_volume) ;;
  let size := GetSize (sitk HR) in
  let shape := number_of_voxels size in
  let array := np_zeros shape in
  let array_mask := np_zeros shape in
  let ind := np_zeros shape in
  stacks <- working_stacks ;;
  N_stacks <- self_get _N_stacks ;;
  acc <- for_fold (range N_stacks) (array, array_mask, ind)
    (λ '(array, array_mask, ind) i,
      stack_ref <- getitem_nat stacks i ;;
      stack <- lift_world (deref_stack stack_ref) ;;
      rigid_registrations <- self_get _rigid_registrations ;;
      T <- getitem_nat rigid_registrations i ;;
      let stack_sitk :=
        Resample E (sitk stack) (sitk HR) T sitkLinear
          default_pixel_value (GetPixelIDValue (sitk HR)) in
      let stack_sitk_mask :=
        Resample E (sitk_mask stack) (sitk HR) T sitkNearestNeighbor
          default_pixel_value (GetPixelIDValue (sitk_mask stack)) in
      let array_tmp := voxels stack_sitk in
      let array_mask_tmp := voxels stack_sitk_mask in
      ret (np_add array array_tmp,
           np_add array_mask array_mask_tmp,
           np_count_nonzero ind array_tmp)) ;;
  let '(array, array_mask, ind) := acc in
  let ind := np_zero_to_one ind in
  let array := np_divide array ind in
  let array_mask := np_positive_to_one array_mask in
  let array := np_zero_where_zero array array_mask in
  helper <- image_from_array_like array size (sitk HR) ;;
  lift_world (store_stack HR_volume (set_sitk helper HR)) ;;
  HR <- lift_world (deref_stack HR_volume) ;;
  helper <- image_from_array_like array_mask size (sitk_mask HR) ;;
  lift_world (store_stack HR_volume (set_sitk_mask helper HR)).

Definition _run_SDA : M St unit :=
  SDA <- self_get _SDA ;;
  lift_world (sda_run_reconstruction E SDA).

(** The dictionary [self._update_HR_volume_estimate]. *)
Definition _update_HR_volume_estimate : list (string * M St unit) :=
  [("SDA", _run_SDA); ("Average", _run_averaging)].

Definition compute_first_estimate_of_HR_volume : M St unit :=
  flag <- self_get _flag_use_in_plane_rigid_registration_for_initial_volume_estimate ;;
  (if (flag : bool) then
     stack_manager <- self_get _stack_manager ;;
     self_set (set__in_plane_rigid_registration (Some (iprr_new stack_manager))) ;;
     ip <- the_in_plane_rigid_registration ;;
     ip <- lift_world (run_in_plane_rigid_registration E ip) ;;
     self_set (set__in_plane_rigid_registration (Some ip)) ;;
     ip <- the_in_plane_rigid_registration ;;
     let stacks := get_resampled_planarly_aligned_stacks ip in
     target_stack_number <- self_get _target_stack_number ;;
     target <- getitem stacks target_stack_number ;;
     HR_volume <- _get_isotropically_resampled_stack target ;;
     self_set (set__HR_volume HR_volume)
   else ret tt) ;;
  flag <- self_get _flag_register_stacks_before_initial_volume_estimate ;;
  (if (flag : bool) then _rigidly_register_all_stacks_to_HR_volume
   else ret tt) ;;
  recon_approach <- self_get _recon_approach ;;
  dict_call _update_HR_volume_estimate recon_approach.
End WithEnv.

End FE.

(** ** The configuration interface of the reconstruction orchestrator *)

(** A call of one of the setters of [VolumeReconstruction]. *)
Inductive VRSetting :=
  | Set_reconstruction_approach (v : string)
  | Set_SRR_alpha_cut (v : Qc)
  | Set_SRR_alpha (v : Qc)
  | Set_SRR_iter_max (v : Z)
  | Set_SRR_approach (v : string)
  | Set_SRR_DTD_computation_type (v : string)
  | Set_SDA_sigma (v : Qc)
  | Set_SDA_approach (v : string).

Definition VR_apply (c : VRSetting) : M VR.St unit :=
  match c with
  | Set_reconstruction_approach v => VR.set_reconstruction_approach v
  | Set_SRR_alpha_cut v => VR.set_SRR_alpha_cut v
  | Set_SRR_alpha v => VR.set_SRR_alpha v
  | Set_SRR_iter_max v => VR.set_SRR_iter_max v
  | Set_SRR_approach v => VR.set_SRR_approach v
  | Set_SRR_DTD_computation_type v => VR.set_SRR_DTD_computation_type v
  | Set_SDA_sigma v => VR.set_SDA_sigma v
  | Set_SDA_approach v => VR.set_SDA_approach v
  end.

(** The settings the spec calls invalid: a strategy name other than SRR
    and SDA, a regularization order other than TK0 and TK1, a
    differential-operator variant other than Laplace and FiniteDifference,
    and a kernel variant other than Shepard-YVV and Shepard-Deriche. *)
Definition VR_invalid (c : VRSetting) : Prop :=
  match c with
  | Set_reconstruction_approach v => v ∉ ["SRR"; "SDA"]
  | Set_SRR_approach v => v ∉ ["TK0"; "TK1"]
  | Set_SRR_DTD_computation_type v => v ∉ ["Laplace"; "FiniteDifference"]
  | Set_SDA_approach v => v ∉ ["Shepard-YVV"; "Shepard-Deriche"]
  | Set_SRR_alpha_cut _ | Set_SRR_alpha _ | Set_SRR_iter_max _
  | Set_SDA_sigma _ => False
  end.

(** A call of one of the setters of [FirstEstimateOfHRVolume]. *)
Inductive FESetting :=
  | FE_set_reconstruction_approach (v : string)
  | FE_set_SDA_sigma (v : Qc)
  | FE_set_SDA_approach (v : string).

Definition FE_apply (c : FESetting) : M FE.St unit :=
  match c with
  | FE_set_reconstruction_approach v => FE.set_reconstruction_approach v
  | FE_set_SDA_sigma v => FE.set_SDA_sigma v
  | FE_set_SDA_approach v => FE.set_SDA_approach v
  end.

Definition FE_invalid (c : FESetting) : Prop :=
  match c with
  | FE_set_reconstruction_approach v => v ∉ ["SDA"; "Average"]
  | FE_set_SDA_approach v => v ∉ ["Shepard-YVV"; "Shepard-Deriche"]
  | FE_set_SDA_sigma _ => False
  end.

(** The error a setter raises is a [ValueError]; it is the error the spec
    files under ConfigurationError. *)
Definition is_ConfigurationError (e : PyError) : Prop :=
  match e with ValueError _ => True | _ => False end.

(** The parameters of the strategies, as the orchestrator and its two
    solvers hold them: everything but the selector of the active strategy. *)
Definition VR_parameters (o : VR.VolumeReconstruction) :=
  (VR._SDA_sigma o, VR._SDA_type o, VR._SDA_approach o, VR._SDA o,
   (VR._SRR_alpha_cut o, VR._SRR_alpha o, VR._SRR_iter_max o,
    VR._SRR_approach o, VR._SRR_DTD_comp_type o, VR._SRR o)).

(** ** What the loops of the first-estimate orchestrator range over *)

(** The references [stacks] of [_run_averaging] and of
    [_rigidly_register_all_stacks_to_HR_volume]. *)
Definition working_stack_refs (o : FE.FirstEstimateOfHRVolume) : option (list loc) :=
  if FE._flag_use_in_plane_rigid_registration_for_initial_volume_estimate o
  then get_resampled_planarly_aligned_stacks <$> FE._in_plane_rigid_registration o
  else Some (FE._stacks o).

(** For each [i] in [range(N_stacks)], the stack [stacks[i]] that is
    resampled and its rigid registration. *)
Definition averaging_inputs (o : FE.FirstEstimateOfHRVolume) (w : World)
    : option (list (Stack * Transform)) :=
  ls ← working_stack_refs o;
  mapM (λ i, l ← ls !! i; st ← stack_heap w !! l;
             T ← FE._rigid_registrations o !! i; Some (st, T))
       (range (FE._N_stacks o)).

(** For each [i] in [range(N_stacks)], the original stack
    [self._stacks[i]] and its rigid registration. *)
Definition propagation_inputs (o : FE.FirstEstimateOfHRVolume) (w : World)
    : option (list (Stack * Transform)) :=
  mapM (λ i, l ← FE._stacks o !! i; st ← stack_heap w !! l;
             T ← FE._rigid_registrations o !! i; Some (st, T))
       (range (FE._N_stacks o)).

(** The slices the propagation visits, in order, each with the rigid
    registration of the stack it is visited in. *)
Definition visited_slices (inputs : list (Stack * Transform)) : list (loc * Transform) :=
  inputs ≫= λ p, (λ sl, (sl, p.2)) <$> _slices p.1.

(** ** The averaging rule, voxel by voxel *)

Section Averaging.
Context (E : Env).

(** The array [array_tmp] of a stack. *)
Definition resampled_intensity (HR : Stack) (p : Stack * Transform) : list Qc :=
  voxels (Resample E (sitk p.1) (sitk HR) p.2 sitkLinear 0%Qc
            (GetPixelIDValue (sitk HR))).

(** The array [array_mask_tmp] of a stack. *)
Definition resampled_mask (HR : Stack) (p : Stack * Transform) : list Qc :=
  voxels (Resample E (sitk_mask p.1) (sitk HR) p.2 sitkNearestNeighbor 0%Qc
            (GetPixelIDValue (sitk_mask p.1))).

(** The arrays [array], [array_mask] and [ind] after one more stack. *)
Definition accumulate (HR : Stack) (acc : list Qc * list Qc * list Qc)
    (p : Stack * Transform) : list Qc * list Qc * list Qc :=
  let '(array, array_mask, ind) := acc in
  (np_add array (resampled_intensity HR p),
   np_add array_mask (resampled_mask HR p),
   np_count_nonzero ind (resampled_intensity HR p)).
End Averaging.

(** The value of an array at a voxel. *)
Definition at_voxel (v : nat) (a : list Qc) : Qc := default 0%Qc (a !! v).

(** Sum over the stacks at a voxel. *)
Definition sum_at (arrays : list (list Qc)) (v : nat) : Qc :=
  foldr Qcplus 0%Qc (at_voxel v <$> arrays).

(** Number of stacks whose value at a voxel is nonzero. *)
Definition contribution_count (arrays : list (list Qc)) (v : nat) : nat :=
  length (filter (λ a, at_voxel v a ≠ 0%Qc) arrays).

Definition Qc_of_nat (n : nat) : Qc := Qc_of_Z (Z.of_nat n).

(** [sum_intensity / max(contribution_count, 1)] *)
Definition counted_average (intensities : list (list Qc)) (v : nat) : Qc :=
  (sum_at intensities v / Qc_of_nat (max (contribution_count intensities v) 1))%Qc.

(** [sum_mask > 0] *)
Definition union_mask (masks : list (list Qc)) (v : nat) : bool :=
  bool_decide (0 < sum_at masks v)%Qc.

(** ** The propagation of the rigid registrations, slice by slice *)

(** One visit of the propagation: the transform of the slice is replaced
    by its composition with the rigid registration. *)
Definition propagate_step (h : list Slice) (p : loc * Transform) : list Slice :=
  match h !! p.1 with
  | Some s =>
      <[p.1 := set_affine_transform
                 (get_composited_sitk_affine_transform p.2 (get_affine_transform s))
                 s]> h
  | None => h
  end.

(** The stacks [refs[i]] for [i] in [range(n)]. *)
Definition stacks_at (refs : list loc) (n : nat) (w : World) : option (list Stack) :=
  mapM (λ i, l ← refs !! i; stack_heap w !! l) (range n).

(** The rigid registration that the registration method, configured as in
    [_get_rigid_registration_transform_3D_sitk], finds for a fixed stack
    and a moving volume. *)
Definition rigid_registration_of (E : Env) (fixed moving : Stack) : Transform :=
  registration_Execute E
    {| reg_initial_transform :=
         CenteredTransformInitializer E (sitk fixed) (sitk moving) Euler3DTransform;
       reg_interpolator := sitkLinear;
       reg_metric := MattesMutualInformation 100;
       reg_optimizer :=
         RegularStepGradientDescent (Q2Qc (1 # 2)) (Q2Qc (5 # 100)) 2000;
       reg_scales_from_physical_shift := true;
       reg_shrink_factors := [4; 2; 1];
       reg_smoothing_sigmas := [2; 1; 0];
       reg_sigmas_in_physical_units := true |}
    (sitk fixed) (sitk moving).

(** The volume [_run_averaging] leaves, from the three arrays of its loop. *)
Definition averaged_volume (HR : Stack) (acc : list Qc * list Qc * list Qc) : Stack :=
  let '(array, array_mask, ind) := acc in
  let ind := np_zero_to_one ind in
  let array := np_divide array ind in
  let array_mask := np_positive_to_one array_mask in
  let array := np_zero_where_zero array array_mask in
  set_sitk_mask
    {| grid := grid (sitk_mask HR); GetPixelIDValue := sitkFloat64;
       voxels := array_mask |}
    (set_sitk {| grid := grid (sitk HR); GetPixelIDValue := sitkFloat64;
                 voxels := array |} HR).


(** ** Attributes a method leaves alone *)

(** A method keeps an attribute of the receiver when the attribute has
    the same value after it, whether it returns or raises. *)
Definition keeps {O X A} (f : O → X) (m : M (O * World) A) : Prop :=
  ∀ s r s', m s = (r, s') → f s'.1 = f s.1.


(** The volume and the solver the orchestrator refers to. *)
Definition volume_and_solver (o : FE.FirstEstimateOfHRVolume) :=
  (FE._HR_volume o, FE._SDA o).

(** ** What a method guarantees, whether it returns or raises *)

(** The weakest precondition of a method: [Q] is to hold of what it
    returns and of the state then, [X] of the state it raises in. *)
Definition wp {S A} (m : M S A) (Q : A → S → Prop) (X : S → Prop) (s : S) : Prop :=
  match m s with
  | (Ok a, s') => Q a s'
  | (Raise _, s') => X s'
  end.

(** A computation that leaves the state as it is, whatever it returns or
    raises. *)
Definition pure_step {S A} (m : M S A) : Prop := ∀ s, (m s).2 = s.

Section Frame.
Context (o0 : FE.FirstEstimateOfHRVolume) (w0 : World) (V : list loc).

(** The slices of the stacks the orchestrator was given. *)
Definition owned_slice (sl : loc) : Prop :=
  ∃ l st, l ∈ FE._stacks o0 ∧ stack_heap w0 !! l = Some st ∧ sl ∈ _slices st.

(** A volume the orchestrator may write into: one of [V], or an object
    made since the state [(o0, w0)]. *)
Definition writable (l : loc) : Prop :=
  l ∈ V ∨ (length (stack_heap w0) ≤ l)%nat.

(** What a state reached from [(o0, w0)] has kept of it: the references
    to the stacks and the solver; every Stack object, but for the image and
    the mask of those of [V]; every slice, but for those of the stacks of
    the orchestrator when the stacks are to be registered. *)
Record frame_inv (s : FE.St) : Prop := {
  fi_stacks : FE._stacks s.1 = FE._stacks o0;
  fi_SDA : FE._SDA s.1 = FE._SDA o0;
  fi_flag : FE._flag_register_stacks_before_initial_volume_estimate s.1
            = FE._flag_register_stacks_before_initial_volume_estimate o0;
  fi_grow : (length (stack_heap w0) ≤ length (stack_heap s.2))%nat;
  fi_stack : ∀ l st, stack_heap w0 !! l = Some st →
    ∃ st', stack_heap s.2 !! l = Some st' ∧ _slices st' = _slices st ∧
           (l ∉ V → st' = st);
  fi_len : length (slice_heap s.2) = length (slice_heap w0);
  fi_slice : ∀ sl,
    ¬ (FE._flag_register_stacks_before_initial_volume_estimate o0 = true
       ∧ owned_slice sl) →
    slice_heap s.2 !! sl = slice_heap w0 !! sl
}.

(** The same, the volume of the orchestrator being one it may write into. *)
Definition frame_inv_vol (s : FE.St) : Prop :=
  frame_inv s ∧ writable (FE._HR_volume s.1).

(** A method keeps the frame when it leads from such a state to such a
    state, whether it returns or raises. *)
Definition keeps_frame {A} (m : M FE.St A) : Prop :=
  ∀ s, frame_inv_vol s → wp m (λ _, frame_inv_vol) frame_inv_vol s.
End Frame.

(** The volumes a first estimate may write into, besides those it makes:
    the one the SDA solver holds and, unless the in-plane step replaces it
    first, the one of the orchestrator. *)
Definition estimate_volumes (o : FE.FirstEstimateOfHRVolume) : list loc :=
  if FE._flag_use_in_plane_rigid_registration_for_initial_volume_estimate o
  then [sda_HR_volume (FE._SDA o)]
  else [FE._HR_volume o; sda_HR_volume (FE._SDA o)].

(** The store once the in-plane registration has made its copies. *)
Definition with_in_plane_copies (E : Env) (o : FE.FirstEstimateOfHRVolume)
    (w : World) : World :=
  with_stack_heap
    (stack_heap w ++ in_plane_kernel E w (FE._stack_manager o)) w.

(** ** What the reconstruction orchestrator lets one read back *)

(** The parameters with a getter. *)
Inductive VRParameter :=
  | P_reconstruction_approach
  | P_SRR_alpha_cut
  | P_SRR_alpha
  | P_SRR_iter_max
  | P_SRR_approach
  | P_SRR_DTD_computation_type
  | P_SDA_sigma.

(** A Python value a getter returns. *)
Inductive PyValue :=
  | PyStr (s : string)
  | PyFloat (q : Qc)
  | PyInt (z : Z).

Definition VR_get (p : VRParameter) : M VR.St PyValue :=
  match p with
  | P_reconstruction_approach => v <- VR.get_reconstruction_approach ;; ret (PyStr v)
  | P_SRR_alpha_cut => v <- VR.get_SRR_alpha_cut ;; ret (PyFloat v)
  | P_SRR_alpha => v <- VR.get_SRR_alpha ;; ret (PyFloat v)
  | P_SRR_iter_max => v <- VR.get_SRR_iter_max ;; ret (PyInt v)
  | P_SRR_approach => v <- VR.get_SRR_approach ;; ret (PyStr v)
  | P_SRR_DTD_computation_type =>
      v <- VR.get_SRR_DTD_computation_type ;; ret (PyStr v)
  | P_SDA_sigma => v <- VR.get_SDA_sigma ;; ret (PyFloat v)
  end.

(** The parameter a setter is for, and the value it is given;
    [set_SDA_approach] has no getter. *)
Definition VR_target (c : VRSetting) : option (VRParameter * PyValue) :=
  match c with
  | Set_reconstruction_approach v => Some (P_reconstruction_approach, PyStr v)
  | Set_SRR_alpha_cut v => Some (P_SRR_alpha_cut, PyFloat v)
  | Set_SRR_alpha v => Some (P_SRR_alpha, PyFloat v)
  | Set_SRR_iter_max v => Some (P_SRR_iter_max, PyInt v)
  | Set_SRR_approach v => Some (P_SRR_approach, PyStr v)
  | Set_SRR_DTD_computation_type v => Some (P_SRR_DTD_computation_type, PyStr v)
  | Set_SDA_sigma v => Some (P_SDA_sigma, PyFloat v)
  | Set_SDA_approach _ => None
  end.

#[global] Instance VRParameter_eq_dec : EqDecision VRParameter.
Proof. solve_decision. Defined.

(** The kernel variant the SDA solver of an orchestrator was last given:
    the one of [set_SDA_approach] if it was ever called, the one of the
    constructor otherwise. *)
Definition VR_SDA_variant (o : VR.VolumeReconstruction) : string :=
  default (VR._SDA_type o) (VR._SDA_approach o).

(** The orchestrator and its two solvers agree: each solver is configured
    with the parameters the orchestrator holds and works on the Volume of
    the orchestrator, and every name is one the setters accept. *)
Record VR_consistent (o : VR.VolumeReconstruction) : Prop := {
  vrc_alpha_cut : ips_alpha_cut (VR._SRR o) = Some (VR._SRR_alpha_cut o);
  vrc_alpha : ips_alpha (VR._SRR o) = Some (VR._SRR_alpha o);
  vrc_iter_max : ips_iter_max (VR._SRR o) = Some (VR._SRR_iter_max o);
  vrc_regularization :
    ips_regularization_type (VR._SRR o) = Some (VR._SRR_approach o);
  vrc_DTD :
    ips_DTD_computation_type (VR._SRR o) = Some (VR._SRR_DTD_comp_type o);
  vrc_sigma : sda_sigma (VR._SDA o) = Some (VR._SDA_sigma o);
  vrc_variant : sda_approach (VR._SDA o) = Some (VR_SDA_variant o);
  vrc_SRR_volume : ips_HR_volume (VR._SRR o) = VR._HR_volume o;
  vrc_SDA_volume : sda_HR_volume (VR._SDA o) = VR._HR_volume o;
  vrc_recon_name : VR._recon_approach o ∈ ["SRR"; "SDA"];
  vrc_SRR_name : VR._SRR_approach o ∈ ["TK0"; "TK1"];
  vrc_DTD_name : VR._SRR_DTD_comp_type o ∈ ["Laplace"; "FiniteDifference"];
  vrc_SDA_name : VR_SDA_variant o ∈ ["Shepard-YVV"; "Shepard-Deriche"]
}.

(** ** What the first-estimate orchestrator keeps in step *)

(** The kernel variant the SDA solver of the orchestrator was last given. *)
Definition FE_SDA_variant (o : FE.FirstEstimateOfHRVolume) : string :=
  default (FE._SDA_type o) (FE._SDA_approach o).

(** The orchestrator and its solver agree on sigma and on the kernel
    variant, the names are ones the setters accept, and there is a rigid
    registration for each stack. *)
Record FE_consistent (o : FE.FirstEstimateOfHRVolume) : Prop := {
  fec_sigma : sda_sigma (FE._SDA o) = Some (FE._SDA_sigma o);
  fec_variant : sda_approach (FE._SDA o) = Some (FE_SDA_variant o);
  fec_recon_name : FE._recon_approach o ∈ ["SDA"; "Average"];
  fec_SDA_name : FE_SDA_variant o ∈ ["Shepard-YVV"; "Shepard-Deriche"];
  fec_registrations : length (FE._rigid_registrations o) = FE._N_stacks o;
  fec_N_stacks : FE._N_stacks o = length (FE._stacks o)
}.

(** ** A small concrete scene

    Two acquired stacks of 2 x 2 x 2 voxels with slices of their own, and
    kernels simple enough to be evaluated: resampling accepts every grid
    and reads the source voxel of the same index, registration shifts its
    initial transform, in-plane registration copies the stacks, and the
    solvers add one to every voxel of the volume. *)

Definition demo_voxel (source : Image) (target : Grid) (T : Transform)
    (interp : Interpolator) (default_pixel_value : Qc) (pixelID : Z) (v : nat) : Qc :=
  default default_pixel_value (voxels source !! v).

Definition demo_solve (w : World) (HR_volume : loc) : Image :=
  match stack_heap w !! HR_volume with
  | Some vol => {| grid := grid (sitk vol); GetPixelIDValue := sitkFloat64;
                   voxels := (λ x, (x + 1)%Qc) <$> voxels (sitk vol) |}
  | None => {| grid := Build_Grid [] [] [] []; GetPixelIDValue := sitkFloat64;
               voxels := [] |}
  end.

(** A translation by [(x, y, z)]. *)
Definition demo_shift (x y z : Z) : Transform :=
  {| matrix := matrix Euler3DTransform;
     translation := V3 (Qc_of_Z x) (Qc_of_Z y) (Qc_of_Z z) |}.

(** The in-plane resampled copy of a stack. *)
Definition demo_copy (s : Stack) : Stack :=
  {| sitk := sitk s; sitk_mask := sitk_mask s; _slices := [];
     filename := filename s |}.

Definition demo_env : Env :=
  {| interpolate := demo_voxel;
     Resample_refusal := λ _ _ _ _ _ _, None;
     Resample_argument_error := TypeError;
     CenteredTransformInitializer := λ _ _ T, T;
     registration_Execute := λ m _ _,
       get_composited_sitk_affine_transform (demo_shift 1 2 3)
         (reg_initial_transform m);
     in_plane_kernel := λ w sm,
       demo_copy <$> omap (λ l, stack_heap w !! l) (sm_stacks sm);
     sda_kernel := λ w o, demo_solve w (sda_HR_volume o);
     srr_kernel := λ w o, demo_solve w (ips_HR_volume o) |}.

(** The [float64] nearest to [n / d], for two integers a [float64] holds
    exactly. *)
Definition demo_float (n d : Z) : binary64 := b64_div (b64_of_Z n) (b64_of_Z d).

Definition demo_grid (size : list Z) (spacing : list binary64) : Grid :=
  {| grid_size := size; grid_spacing := spacing;
     grid_origin := [0; 0; 0]%Qc;
     grid_direction := [1; 0; 0; 0; 1; 0; 0; 0; 1]%Qc |}.

Definition demo_image (size : list Z) (spacing : list binary64) (vs : list Z)
    : Image :=
  {| grid := demo_grid size spacing; GetPixelIDValue := 2;
     voxels := Qc_of_Z <$> vs |}.

Definition demo_stack (size : list Z) (spacing : list binary64) (vs ms : list Z)
    (slices : list loc) (name : string) : Stack :=
  {| sitk := demo_image size spacing vs; sitk_mask := demo_image size spacing ms;
     _slices := slices; filename := name |}.

Definition demo_stack0 : Stack :=
  demo_stack [2; 2; 2] [b64_of_Z 1; b64_of_Z 1; b64_of_Z 2]
    [0; 4; 6; 0; 2; 0; 0; 0] [1; 1; 1; 0; 1; 0; 0; 0] [0; 1]%nat "stack0".

Definition demo_stack1 : Stack :=
  demo_stack [2; 2; 2] [b64_of_Z 1; b64_of_Z 1; b64_of_Z 2]
    [0; 8; 0; 0; 4; 0; 0; 0] [0; 1; 0; 0; 1; 0; 0; 0] [2%nat] "stack1".

Definition demo_world : World :=
  {| stack_heap := [demo_stack0; demo_stack1];
     slice_heap :=
       [ {| affine_transform := demo_shift 0 0 0 |};
         {| affine_transform := demo_shift 0 0 2 |};
         {| affine_transform := demo_shift 5 0 0 |} ] |}.

Definition demo_stack_manager : StackManager := {| sm_stacks := [0%nat; 1%nat] |}.

(** The orchestrator right after its construction on the scene, and the
    store then. *)
Definition demo_constructed : Res FE.FirstEstimateOfHRVolume * World :=
  FE.__init__ demo_env demo_stack_manager "HR_volume" 0 demo_world.

Definition demo_FE : FE.FirstEstimateOfHRVolume :=
  match demo_constructed.1 with
  | Ok o => o
  | Raise _ =>
      FE.mk demo_stack_manager [] 0 "" 0 0%nat false false [] ""
        (sda_new demo_stack_manager 0%nat) 0%Qc "" None None
  end.

Definition demo_state : FE.St := (demo_FE, demo_constructed.2).

(** A store of one stack of a given geometry, every voxel at 1. *)
Definition single_stack (size : list Z) (spacing : list binary64) : Stack :=
  let vs := replicate (number_of_voxels size) 1 in
  demo_stack size spacing vs vs [] "single".
Definition single_stack_world (size : list Z) (spacing : list binary64) : World :=
  {| stack_heap := [single_stack size spacing]; slice_heap := [] |}.


(** The orchestrator of the scene once the first stack has been found
    shifted and the second one in place. *)
Definition demo_registered_FE : FE.FirstEstimateOfHRVolume :=
  FE.set__rigid_registrations [demo_shift 1 0 0; Euler3DTransform] demo_FE.

(** The scene after a first estimate with the in-plane flag set and the
    default strategy. *)
Definition demo_in_plane_run : Res unit * FE.St :=
  (FE.use_in_plane_registration_for_initial_volume_estimate true ;;
   FE.compute_first_estimate_of_HR_volume demo_env) demo_state.

(** The scene after the averaging strategy. *)
Definition demo_average_run : Res unit * FE.St :=
  FE._run_averaging demo_env demo_state.

(** The intensities of an image, as plain rationals. *)
Definition intensities_of (im : Image) : list Q := this <$> voxels im.

(** A reconstruction orchestrator on the scene. *)
Definition demo_VR_state : VR.St :=
  (VR.__init__ demo_stack_manager demo_FE.(FE._HR_volume), demo_constructed.2).


(** The scene with both flags set, and a first estimate from there. *)
Definition demo_aligning_state : FE.St :=
  (FE.set__flag_register true (FE.set__flag_use_in_plane true demo_FE),
   demo_constructed.2).
Definition demo_aligning_run : Res unit * FE.St :=
  FE.compute_first_estimate_of_HR_volume demo_env demo_aligning_state.

(** A store that holds one image of two dimensions as a stack. *)
Definition planar_world : World :=
  {| stack_heap :=
       [demo_stack [2; 2] [b64_of_Z 1; b64_of_Z 1] [1; 2; 3; 4] [1; 1; 1; 1] []
          "planar"];
     slice_heap := [] |}.

(** The scene with the registration flag set and the in-plane flag off. *)
Definition demo_registering_state : FE.St :=
  (FE.set__flag_register true demo_FE, demo_constructed.2).

(** * Properties *)

(** ** The monad *)

Lemma bind_ok {S A B} (m : M S A) (f : A → M S B) s a s' :
  m s = (Ok a, s') → bind m f s = f a s'.
Proof. unfold bind. by intros ->. Qed.

Lemma bind_raise {S A B} (m : M S A) (f : A → M S B) s e s' :
  m s = (Raise e, s') → bind m f s = (Raise e, s').
Proof. unfold bind. by intros ->. Qed.

Lemma bind_inv_ok {S A B} (m : M S A) (f : A → M S B) s b s2 :
  bind m f s = (Ok b, s2) → ∃ a s1, m s = (Ok a, s1) ∧ f a s1 = (Ok b, s2).
Proof.
  unfold bind. destruct (m s) as [[a|e] s1]; [eauto | discriminate].
Qed.

Lemma bind_ext {S A B} (m : M S A) (k k' : A → M S B) s :
  (∀ a s', k a s' = k' a s') → bind m k s = bind m k' s.
Proof. intros H. unfold bind. by destruct (m s) as [[a|e] s']. Qed.

(** ** Configuration of the reconstruction orchestrator *)

Lemma VR_invalid_raises c s :
  VR_invalid c →
  ∃ e, is_ConfigurationError e ∧ VR_apply c s = (Raise e, s).
Proof.
  destruct c; simpl; try tauto; intros Hv.
  - unfold VR.set_reconstruction_approach. rewrite decide_True by done.
    eexists; split; [|reflexivity]. exact I.
  - unfold VR.set_SRR_approach. rewrite decide_True by done.
    eexists; split; [|reflexivity]. exact I.
  - unfold VR.set_SRR_DTD_computation_type. rewrite decide_True by done.
    eexists; split; [|reflexivity]. exact I.
  - unfold VR.set_SDA_approach. rewrite decide_True by done.
    eexists; split; [|reflexivity]. exact I.
Qed.

Lemma FE_invalid_raises c s :
  FE_invalid c →
  ∃ e, is_ConfigurationError e ∧ FE_apply c s = (Raise e, s).
Proof.
  destruct c; simpl; try tauto; intros Hv.
  - unfold FE.set_reconstruction_approach. rewrite decide_True by done.
    eexists; split; [|reflexivity]. exact I.
  - unfold FE.set_SDA_approach. rewrite decide_True by done.
    eexists; split; [|reflexivity]. exact I.
Qed.

(** C4. A setter called with an invalid strategy name or an invalid
    variant raises at once, in the call itself, the error of the
    configuration class (a [ValueError] in the source), and the state it
    leaves, the orchestrator with its solvers and the store, is the state it
    was called in. This holds for both orchestrators, and in particular for
    [set_SRR_approach("TK2")] and [set_reconstruction_approach("Median")]. *)
Theorem invalid_setting_raises_and_keeps_state :
  (∀ c s, VR_invalid c →
     ∃ e, is_ConfigurationError e ∧ VR_apply c s = (Raise e, s)) ∧
  (∀ c s, FE_invalid c →
     ∃ e, is_ConfigurationError e ∧ FE_apply c s = (Raise e, s)) ∧
  (∀ s, ∃ e, is_ConfigurationError e ∧
     VR.set_SRR_approach "TK2" s = (Raise e, s)) ∧
  (∀ s, ∃ e, is_ConfigurationError e ∧
     VR.set_reconstruction_approach "Median" s = (Raise e, s)).
Proof.
  split; [exact VR_invalid_raises|].
  split; [exact FE_invalid_raises|].
  split; intros s.
  - apply (VR_invalid_raises (Set_SRR_approach "TK2")). simpl.
    intros H. by apply (bool_decide_pack _) in H.
  - apply (VR_invalid_raises (Set_reconstruction_approach "Median")). simpl.
    intros H. by apply (bool_decide_pack _) in H.
Qed.

(** ** Switching the strategy *)

Lemma VR_set_reconstruction_approach_frame v s r s' :
  VR.set_reconstruction_approach v s = (r, s') →
  snd s' = snd s ∧
  VR_parameters (fst s') = VR_parameters (fst s) ∧
  fst s' = VR.set__recon_approach (VR._recon_approach (fst s')) (fst s).
Proof.
  unfold VR.set_reconstruction_approach. destruct s as [[] w].
  case_decide; intros [= <- <-]; simpl; done.
Qed.

Lemma VR_set_reconstruction_approach_valid v s :
  v ∈ ["SRR"; "SDA"] →
  VR.set_reconstruction_approach v s
  = (Ok tt, (VR.set__recon_approach v (fst s), snd s)).
Proof.
  intros Hv. unfold VR.set_reconstruction_approach.
  rewrite decide_False by (intros H; by apply H). done.
Qed.

(** C7. Selecting a strategy, with a valid name or not, changes nothing
    but the selector of the active strategy: the parameters of SDA and of
    SRR, in the orchestrator and in the solvers, and the store stay as they
    were. Selecting SDA, then SRR, then SDA again succeeds at each step and
    ends in the very state that selecting SDA once leads to, with every
    parameter as before the detour. *)
Theorem strategy_switch_isolation :
  (∀ v s r s', VR.set_reconstruction_approach v s = (r, s') →
     snd s' = snd s ∧
     VR_parameters (fst s') = VR_parameters (fst s) ∧
     fst s' = VR.set__recon_approach (VR._recon_approach (fst s')) (fst s)) ∧
  (∀ s, ∃ s1,
     VR.set_reconstruction_approach "SDA" s = (Ok tt, s1) ∧
     (VR.set_reconstruction_approach "SDA" ;;
      VR.set_reconstruction_approach "SRR" ;;
      VR.set_reconstruction_approach "SDA") s = (Ok tt, s1) ∧
     VR._recon_approach (fst s1) = "SDA" ∧
     VR_parameters (fst s1) = VR_parameters (fst s) ∧
     snd s1 = snd s).
Proof.
  split; [exact VR_set_reconstruction_approach_frame|].
  intros [o w].
  exists (VR.set__recon_approach "SDA" o, w).
  assert (Hsda : "SDA" ∈ ["SRR"; "SDA"]) by (by apply (bool_decide_unpack _)).
  assert (Hsrr : "SRR" ∈ ["SRR"; "SDA"]) by (by apply (bool_decide_unpack _)).
  split; [by rewrite VR_set_reconstruction_approach_valid|].
  split.
  - erewrite bind_ok by (by apply VR_set_reconstruction_approach_valid).
    erewrite bind_ok by (by apply VR_set_reconstruction_approach_valid).
    rewrite VR_set_reconstruction_approach_valid by done.
    destruct o; reflexivity.
  - destruct o; done.
Qed.

(** ** Rounding to the nearest integer *)

Lemma this_Qc_of_Z z : (this (Qc_of_Z z) == inject_Z z)%Q.
Proof. unfold Qc_of_Z. simpl. apply Qred_correct. Qed.

Lemma this_Q2Qc q : (this (Q2Qc q) == q)%Q.
Proof. apply Qred_correct. Qed.

Lemma this_minus_half n :
  (this (Qc_of_Z n - Q2Qc (1 # 2))%Qc == inject_Z n - (1 # 2))%Q.
Proof. unfold Qcminus, Qcplus, Qcopp. rewrite !this_Q2Qc, this_Qc_of_Z. ring. Qed.

Lemma this_plus_half n :
  (this (Qc_of_Z n + Q2Qc (1 # 2))%Qc == inject_Z n + (1 # 2))%Q.
Proof. unfold Qcplus. rewrite !this_Q2Qc, this_Qc_of_Z. ring. Qed.

Lemma inject_Z_lt_succ a b : (inject_Z a < inject_Z b + 1)%Q → a ≤ b.
Proof.
  intros H. enough (a < b + 1) by lia. rewrite Zlt_Qlt.
  rewrite inject_Z_plus. exact H.
Qed.

(** [is_round_half_to_even], read on plain rationals. *)
Lemma is_round_half_to_even_this v n :
  is_round_half_to_even v n ↔
  ((inject_Z n - (1 # 2) < this v ∧ this v < inject_Z n + (1 # 2))%Q ∨
   ((this v == inject_Z n - (1 # 2) ∨ this v == inject_Z n + (1 # 2))%Q
    ∧ Z.even n = true)).
Proof.
  unfold is_round_half_to_even, Qclt.
  rewrite this_minus_half, this_plus_half.
  assert (He : ∀ a b : Qc, a = b ↔ (this a == this b)%Q).
  { intros a b. split; [by intros ->|apply Qc_is_canon]. }
  rewrite !He, this_minus_half, this_plus_half. tauto.
Qed.

(** The remainder [np_round] compares with a half. *)
Lemma np_round_cases (q : Qc) :
  let f := Qfloor q in
  (inject_Z f <= this q)%Q ∧ (this q < inject_Z f + 1)%Q ∧
  ((this q - inject_Z f < 1 # 2)%Q ∧ np_round q = f ∨
   (1 # 2 < this q - inject_Z f)%Q ∧ np_round q = f + 1 ∨
   (this q - inject_Z f == 1 # 2)%Q ∧
   np_round q = if Z.even f then f else f + 1).
Proof.
  intros f. pose proof (Qfloor_le q) as Hlo. pose proof (Qlt_floor q) as Hhi.
  fold f in Hlo, Hhi. rewrite inject_Z_plus in Hhi.
  change (inject_Z 1) with 1%Q in Hhi.
  split; [done|]. split; [done|].
  assert (Hr : (this (q - Qc_of_Z f)%Qc == this q - inject_Z f)%Q).
  { unfold Qcminus, Qcplus, Qcopp. rewrite !this_Q2Qc, this_Qc_of_Z. ring. }
  unfold np_round. fold f.
  destruct (decide (q - Qc_of_Z f < Q2Qc (1 # 2))%Qc) as [H1|H1].
  { left. split; [|done]. unfold Qclt in H1. rewrite Hr in H1. exact H1. }
  destruct (decide (Q2Qc (1 # 2) < q - Qc_of_Z f)%Qc) as [H2|H2].
  { right; left. split; [|done]. unfold Qclt in H2. rewrite Hr in H2. exact H2. }
  right; right. split; [|done].
  unfold Qclt in H1, H2. rewrite Hr in H1, H2.
  change (this (Q2Qc (1 # 2))) with (1 # 2)%Q in H1, H2. lra.
Qed.

Lemma np_round_is_round_half_to_even v : is_round_half_to_even v (np_round v).
Proof.
  apply is_round_half_to_even_this.
  destruct (np_round_cases v) as (Hlo & Hhi & [[Hr ->]|[[Hr ->]|[Hr ->]]]).
  - left. split; lra.
  - left. rewrite inject_Z_plus. change (inject_Z 1) with 1%Q. split; lra.
  - right. destruct (Z.even (Qfloor v)) eqn:He.
    + split; [right; lra|done].
    + split.
      * left. rewrite inject_Z_plus. change (inject_Z 1) with 1%Q. lra.
      * rewrite Z.even_add, He. reflexivity.
Qed.

Lemma is_round_half_to_even_unique v n :
  is_round_half_to_even v n → np_round v = n.
Proof.
  intros H. apply is_round_half_to_even_this in H.
  destruct (np_round_cases v) as (Hlo & Hhi & Hc).
  set (f := Qfloor v) in *.
  assert (Hn : n = f ∨ n = f + 1).
  { assert (f ≤ n) by (apply inject_Z_lt_succ; destruct H as [[? ?]|[[?|?] _]]; lra).
    assert (n ≤ f + 1).
    { apply inject_Z_lt_succ. rewrite inject_Z_plus. change (inject_Z 1) with 1%Q.
      destruct H as [[? ?]|[[?|?] _]]; lra. }
    lia. }
  destruct Hn as [->| ->].
  - destruct Hc as [[Hr ->]|[[Hr ->]|[Hr ->]]]; [done| |].
    + exfalso. destruct H as [[? ?]|[[?|?] _]]; lra.
    + destruct H as [[? ?]|[[?|?] He]]; [lra|lra|]. by rewrite He.
  - rewrite inject_Z_plus in H. change (inject_Z 1) with 1%Q in H.
    destruct Hc as [[Hr ->]|[[Hr ->]|[Hr ->]]]; [|done|].
    + exfalso. destruct H as [[? ?]|[[?|?] _]]; lra.
    + destruct H as [[? ?]|[[?|?] He]]; [lra| |lra].
      rewrite Z.even_add in He. destruct (Z.even f); [done|done].
Qed.

(** ** Reasoning on every outcome of a method *)


Section WP.
Context {S : Type}.
Implicit Types (s : S) (X : S → Prop).

Lemma wp_run {A} (m : M S A) Q X s r s' :
  wp m Q X s → m s = (r, s') →
  match r with Ok a => Q a s' | Raise _ => X s' end.
Proof. unfold wp. intros H Heq. by rewrite Heq in H. Qed.

Lemma wp_mono {A} (m : M S A) (Q Q' : A → S → Prop) X X' s :
  wp m Q X s → (∀ a s', Q a s' → Q' a s') → (∀ s', X s' → X' s') →
  wp m Q' X' s.
Proof. unfold wp. destruct (m s) as [[a|e] s']; auto. Qed.

Lemma wp_ret {A} (a : A) (Q : A → S → Prop) X s : Q a s → wp (ret a) Q X s.
Proof. done. Qed.

Lemma wp_raise {A} e (Q : A → S → Prop) X s : X s → wp (raise e) Q X s.
Proof. done. Qed.

Lemma wp_bind {A B} (m : M S A) (k : A → M S B) Q X s :
  wp m (λ a s', wp (k a) Q X s') X s → wp (bind m k) Q X s.
Proof. unfold wp, bind. by destruct (m s) as [[a|e] s']. Qed.

Lemma wp_pure {A} (m : M S A) (Q : A → S → Prop) X s :
  pure_step m → X s → (∀ a, (m s).1 = Ok a → Q a s) → wp m Q X s.
Proof.
  intros Hm HX HQ. unfold wp. specialize (Hm s).
  destruct (m s) as [[a|e] s']; simpl in *; subst; auto.
Qed.

Lemma wp_getitem_nat {A} (l : list A) i (Q : A → S → Prop) X s :
  X s → (∀ a, l !! i = Some a → Q a s) → wp (getitem_nat l i) Q X s.
Proof. intros HX HQ. unfold wp, getitem_nat. destruct (l !! i); simpl; auto. Qed.

Lemma wp_getitem {A} (l : list A) i (Q : A → S → Prop) X s :
  X s → (∀ a, py_index l i = Some a → Q a s) → wp (getitem l i) Q X s.
Proof. intros HX HQ. unfold wp, getitem. destruct (py_index l i); simpl; auto. Qed.

Lemma wp_setitem_nat {A} (l : list A) i x (Q : list A → S → Prop) X s :
  X s → Q (<[i:=x]> l) s → wp (setitem_nat l i x) Q X s.
Proof. intros HX HQ. unfold wp, setitem_nat. case_decide; simpl; auto. Qed.

Lemma wp_for_each {A} (I : S → Prop) (xs : list A) (body : A → M S unit)
    (Q : unit → S → Prop) X s :
  I s →
  (∀ x s, x ∈ xs → I s → wp (body x) (λ _, I) X s) →
  (∀ s, I s → Q tt s) →
  wp (for_each xs body) Q X s.
Proof.
  intros HI Hbody HQ. revert s HI.
  induction xs as [|x xs IH]; intros s HI; simpl.
  - by apply HQ.
  - apply wp_bind. specialize (Hbody x s (list_elem_of_here _ _) HI) as Hx.
    unfold wp in *. destruct (body x s) as [[[]|e] s1]; [|done].
    apply IH; [|done]. intros y s2 Hy. apply Hbody. by apply list_elem_of_further.
Qed.

Lemma wp_dict_call (d : list (string * M S unit)) key Q X s :
  X s → Forall (λ p, wp p.2 Q X s) d → wp (dict_call d key) Q X s.
Proof.
  intros HX. induction 1 as [|[k m] d Hm Hd IH]; simpl; [done|].
  by case_decide.
Qed.

Lemma pure_ret {A} (a : A) : pure_step (ret (S:=S) a).
Proof. done. Qed.
Lemma pure_raise {A} e : pure_step (raise (S:=S) (A:=A) e).
Proof. done. Qed.
Lemma pure_bind {A B} (m : M S A) (k : A → M S B) :
  pure_step m → (∀ a, pure_step (k a)) → pure_step (bind m k).
Proof.
  intros Hm Hk s. unfold bind. specialize (Hm s).
  destruct (m s) as [[a|e] s1]; simpl in *; subst; [apply Hk|done].
Qed.
Lemma pure_getitem_nat {A} (l : list A) i : pure_step (getitem_nat (S:=S) l i).
Proof. intros s. unfold getitem_nat. by destruct (l !! i). Qed.
Lemma pure_getitem {A} (l : list A) i : pure_step (getitem (S:=S) l i).
Proof. intros s. unfold getitem. by destruct (py_index l i). Qed.
Lemma pure_setitem_nat {A} (l : list A) i x : pure_step (setitem_nat (S:=S) l i x).
Proof. intros s. unfold setitem_nat. by case_decide. Qed.
Lemma pure_for_fold {A B} (xs : list A) (body : B → A → M S B) :
  (∀ b x, pure_step (body b x)) → ∀ acc, pure_step (for_fold xs acc body).
Proof.
  intros H. induction xs as [|x xs IH]; intros acc; simpl; [apply pure_ret|].
  apply pure_bind; [apply H|]. intros b. apply IH.
Qed.
Lemma pure_image_from_array_like a size src :
  pure_step (image_from_array_like (S:=S) a size src).
Proof. intros s. unfold image_from_array_like. by case_decide. Qed.
Lemma pure_float_to_int64 x : pure_step (float_to_int64 (S:=S) x).
Proof.
  intros s. unfold float_to_int64.
  destruct (b64_value x); [by case_decide|by destruct x].
Qed.
Lemma pure_Resample_call E im size T ip origin spacing direction d pid :
  pure_step (Resample_call (S:=S) E im size T ip origin spacing direction d pid).
Proof.
  intros s. unfold Resample_call. case_decide; [|done].
  by destruct (Resample_refusal _ _ _ _ _ _ _).
Qed.
End WP.

Section WPO.
Context {O : Type}.
Implicit Types (s : O * World).

Lemma wp_self_get {A} (f : O → A) (Q : A → O * World → Prop) X s :
  Q (f s.1) s → wp (self_get f) Q X s.
Proof. done. Qed.

Lemma wp_self_set (upd : O → O) (Q : unit → O * World → Prop) X s :
  Q tt (upd s.1, s.2) → wp (self_set upd) Q X s.
Proof. done. Qed.

Lemma wp_lift_world {A} (m : M World A) (Q : A → O * World → Prop) X s :
  wp m (λ a w', Q a (s.1, w')) (λ w', X (s.1, w')) s.2 → wp (lift_world m) Q X s.
Proof. unfold wp, lift_world. by destruct (m s.2) as [[a|e] w']. Qed.

Lemma wp_deref_stack l (Q : Stack → O * World → Prop) X s :
  X s → (∀ st, stack_heap s.2 !! l = Some st → Q st s) →
  wp (lift_world (deref_stack l)) Q X s.
Proof.
  intros HX HQ. unfold wp, lift_world, deref_stack. destruct s as [o w]. simpl in *.
  destruct (stack_heap w !! l); auto.
Qed.

Lemma wp_deref_slice l (Q : Slice → O * World → Prop) X s :
  X s → (∀ x, slice_heap s.2 !! l = Some x → Q x s) →
  wp (lift_world (deref_slice l)) Q X s.
Proof.
  intros HX HQ. unfold wp, lift_world, deref_slice. destruct s as [o w]. simpl in *.
  destruct (slice_heap w !! l); auto.
Qed.

Lemma wp_store_stack l st (Q : unit → O * World → Prop) X s :
  Q tt (s.1, with_stack_heap (<[l:=st]> (stack_heap s.2)) s.2) →
  wp (lift_world (store_stack l st)) Q X s.
Proof. done. Qed.

Lemma wp_store_slice l x (Q : unit → O * World → Prop) X s :
  Q tt (s.1, with_slice_heap (<[l:=x]> (slice_heap s.2)) s.2) →
  wp (lift_world (store_slice l x)) Q X s.
Proof. done. Qed.

Lemma pure_self_get {A} (f : O → A) : pure_step (self_get f).
Proof. done. Qed.
Lemma pure_lift_deref_stack l : pure_step (lift_world (O:=O) (deref_stack l)).
Proof.
  intros [o w]. unfold lift_world, deref_stack. simpl.
  by destruct (stack_heap w !! l).
Qed.
End WPO.

Lemma pure_deref_stack l : pure_step (deref_stack l).
Proof. intros w. unfold deref_stack. by destruct (stack_heap w !! l). Qed.

Lemma pure_the_in_plane_rigid_registration :
  pure_step FE.the_in_plane_rigid_registration.
Proof.
  unfold FE.the_in_plane_rigid_registration.
  apply pure_bind; [apply pure_self_get|].
  intros [ip|]; [apply pure_ret|apply pure_raise].
Qed.

Lemma pure_working_stacks : pure_step FE.working_stacks.
Proof.
  unfold FE.working_stacks. apply pure_bind; [apply pure_self_get|].
  intros []; [|apply pure_self_get].
  apply pure_bind; [apply pure_the_in_plane_rigid_registration|].
  intros ip. apply pure_ret.
Qed.

Lemma pure_get_rigid_registration_transform E f m :
  pure_step (FE._get_rigid_registration_transform_3D_sitk E f m).
Proof.
  unfold FE._get_rigid_registration_transform_3D_sitk.
  repeat (apply pure_bind; [apply pure_lift_deref_stack|]; intros ?).
  apply pure_ret.
Qed.

(** ** The builder, whatever it returns *)

Lemma alloc_stacks_ok ss : ∀ w,
  alloc_stacks ss w
  = (Ok (seq (length (stack_heap w)) (length ss)),
     with_stack_heap (stack_heap w ++ ss) w).
Proof.
  induction ss as [|s ss IH]; intros w; simpl.
  - unfold ret. rewrite app_nil_r. by destruct w.
  - unfold bind at 1, alloc_stack at 1. unfold bind at 1. rewrite IH. simpl.
    rewrite length_app. simpl.
    replace (length (stack_heap w) + 1)%nat
      with (Datatypes.S (length (stack_heap w))) by lia.
    by rewrite <- (assoc_L (++)).
Qed.

Lemma isotropically_resampled_stack_outcome E name l w r w' :
  FE.isotropically_resampled_stack E name l w = (r, w') →
  (w' = w ∧ ∃ e, r = Raise e) ∨
  (∃ image mask,
     r = Ok (length (stack_heap w)) ∧
     w' = with_stack_heap
            (stack_heap w ++ [Stack_from_sitk_image image name mask]) w).
Proof.
  intros H.
  enough (wp (FE.isotropically_resampled_stack E name l)
            (λ hr w', ∃ image mask,
               hr = length (stack_heap w) ∧
               w' = with_stack_heap
                      (stack_heap w ++ [Stack_from_sitk_image image name mask]) w)
            (λ w', w' = w) w) as Hwp.
  { apply (wp_run _ _ _ _ _ _ Hwp) in H. destruct r as [hr|e].
    - right. destruct H as (image & mask & -> & ->). eauto.
    - left. eauto. }
  unfold FE.isotropically_resampled_stack, rounded_ratio_to_int.
  repeat (apply wp_bind; apply wp_pure;
    [ first [ apply pure_deref_stack | apply pure_getitem_nat
            | apply pure_setitem_nat | apply pure_float_to_int64
            | apply pure_Resample_call ]
    | done | intros ? _ ]).
  unfold wp, alloc_stack. eauto.
Qed.

Lemma isotropically_resampled_stack_fresh E name l w hr w' :
  FE.isotropically_resampled_stack E name l w = (Ok hr, w') →
  hr = length (stack_heap w).
Proof.
  intros H. apply isotropically_resampled_stack_outcome in H
    as [[_ [e [=]]]|(image & mask & [= ->] & _)]. done.
Qed.

(** ** The isotropic grid builder *)

Lemma Forall_is_uint32_3 X Y n :
  Forall is_uint32 [X; Y; n] ↔ is_uint32 X ∧ is_uint32 Y ∧ is_uint32 n.
Proof.
  split.
  - intros H. apply Forall_cons_1 in H as [HX H].
    apply Forall_cons_1 in H as [HY H]. by apply Forall_cons_1 in H as [Hn _].
  - intros (HX & HY & Hn). by repeat apply Forall_cons_2.
Qed.

Lemma is_uint32_is_int64 n : is_uint32 n → is_int64 n.
Proof. unfold is_uint32, is_int64. lia. Qed.

(** What the builder does, step by step, on a stack of three dimensions. *)
Lemma isotropically_resampled_stack_eq E name l w target sx sy sz X Y Z :
  stack_heap w !! l = Some target →
  GetSpacing (sitk target) = [sx; sy; sz] →
  GetSize (sitk target) = [X; Y; Z] →
  let resample n im :=
    Resample_call E im [X; Y; n] Euler3DTransform sitkNearestNeighbor
      (GetOrigin (sitk target)) [sx; sy; sx] (GetDirection (sitk target))
      0%Qc (GetPixelIDValue (sitk target)) in
  FE.isotropically_resampled_stack E name l w
  = (n <- float_to_int64 (b64_mul (b64_div sz sx) (b64_of_Z Z)) ;;
     HR_volume_sitk <- resample n (sitk target) ;;
     HR_volume_sitk_mask <- resample n (sitk_mask target) ;;
     alloc_stack (Stack_from_sitk_image HR_volume_sitk name HR_volume_sitk_mask)) w.
Proof.
  intros Hl Hsp Hsz. cbv zeta.
  unfold FE.isotropically_resampled_stack.
  erewrite bind_ok by (unfold deref_stack; rewrite Hl; reflexivity).
  cbv zeta. rewrite Hsp, Hsz.
  do 3 (erewrite bind_ok by reflexivity).
  unfold rounded_ratio_to_int. apply bind_ext. intros n w1.
  do 3 (erewrite bind_ok by reflexivity). reflexivity.
Qed.

Lemma float_to_int64_ok {S} x v (s : S) :
  b64_value x = Some v → is_int64 (np_round v) →
  float_to_int64 x s = (Ok (np_round v), s).
Proof.
  intros Hv Hn. unfold float_to_int64. rewrite Hv. by rewrite decide_True.
Qed.

Lemma Resample_call_ok {S} E im size T ip origin spacing direction d pid (s : S) :
  Forall is_uint32 size →
  Resample_refusal E im
    {| grid_size := size; grid_spacing := spacing;
       grid_origin := origin; grid_direction := direction |} T ip d pid = None →
  Resample_call E im size T ip origin spacing direction d pid s
  = (Ok (Resample_onto E im size T ip origin spacing direction d pid), s).
Proof.
  intros Hsz Href. unfold Resample_call. rewrite decide_True by done.
  by rewrite Href.
Qed.

(** The volume the builder makes of a stack of spacing [(sx, sy, sz)] and
    size [(X, Y, Z)]. *)
Lemma isotropically_resampled_stack_ok E name l w target sx sy sz X Y Z v n :
  stack_heap w !! l = Some target →
  GetSpacing (sitk target) = [sx; sy; sz] →
  GetSize (sitk target) = [X; Y; Z] →
  b64_value (b64_mul (b64_div sz sx) (b64_of_Z Z)) = Some v →
  is_round_half_to_even v n →
  is_uint32 X → is_uint32 Y → is_uint32 n →
  let size := [X; Y; n] in
  let spacing := [sx; sy; sx] in
  let g := {| grid_size := size; grid_spacing := spacing;
              grid_origin := GetOrigin (sitk target);
              grid_direction := GetDirection (sitk target) |} in
  let refusal im :=
    Resample_refusal E im g Euler3DTransform sitkNearestNeighbor 0%Qc
      (GetPixelIDValue (sitk target)) in
  refusal (sitk target) = None →
  refusal (sitk_mask target) = None →
  let resample im :=
    Resample_onto E im size Euler3DTransform sitkNearestNeighbor
      (GetOrigin (sitk target)) spacing (GetDirection (sitk target))
      0%Qc (GetPixelIDValue (sitk target)) in
  FE.isotropically_resampled_stack E name l w
  = (Ok (length (stack_heap w)),
     with_stack_heap
       (stack_heap w ++
          [Stack_from_sitk_image (resample (sitk target)) name
             (resample (sitk_mask target))]) w).
Proof.
  intros Hl Hsp Hsz Hv Hn HX HY Hn32 size spacing g refusal Hr1 Hr2 resample.
  apply is_round_half_to_even_unique in Hn. subst n.
  rewrite (isotropically_resampled_stack_eq E name l w target sx sy sz X Y Z)
    by done.
  erewrite bind_ok by (by apply float_to_int64_ok; [|apply is_uint32_is_int64]).
  erewrite bind_ok by (apply Resample_call_ok; [by apply Forall_is_uint32_3|done]).
  erewrite bind_ok by (apply Resample_call_ok; [by apply Forall_is_uint32_3|done]).
  reflexivity.
Qed.

Lemma get_isotropically_resampled_stack_lift E l o w :
  FE._get_isotropically_resampled_stack E l (o, w)
  = let (r, w') := FE.isotropically_resampled_stack E
                     (FE._filename_reconstructed_volume o) l w in
    (r, (o, w')).
Proof. reflexivity. Qed.


Lemma float_to_int64_inv {S} x (s : S) r s' :
  float_to_int64 x s = (r, s') →
  s' = s ∧
  match r with
  | Ok n => ∃ v, b64_value x = Some v ∧ n = np_round v ∧ is_int64 n
  | Raise e =>
      (x = S754_nan ∧ e = ValueError "cannot convert float NaN to integer") ∨
      ((∃ sign, x = S754_infinity sign) ∧ e = OverflowError) ∨
      (∃ v, b64_value x = Some v ∧ ¬ is_int64 (np_round v) ∧ e = OverflowError)
  end.
Proof.
  unfold float_to_int64. destruct (b64_value x) as [v|] eqn:Hv.
  - case_decide; intros [= <- <-]; (split; [done|]); eauto 10.
  - destruct x; try discriminate; intros [= <- <-]; (split; [done|]); eauto 10.
Qed.

Lemma Resample_call_inv {S} E im size T ip origin spacing direction d pid (s : S) r s' :
  Resample_call E im size T ip origin spacing direction d pid s = (r, s') →
  s' = s ∧
  let refusal :=
    Resample_refusal E im
      {| grid_size := size; grid_spacing := spacing;
         grid_origin := origin; grid_direction := direction |} T ip d pid in
  match r with
  | Ok im' =>
      Forall is_uint32 size ∧ refusal = None ∧
      im' = Resample_onto E im size T ip origin spacing direction d pid
  | Raise e =>
      (¬ Forall is_uint32 size ∧ e = Resample_argument_error E) ∨
      (Forall is_uint32 size ∧ refusal = Some e)
  end.
Proof.
  unfold Resample_call. case_decide as Hsz.
  - destruct (Resample_refusal _ _ _ _ _ _ _) as [e|] eqn:Hr;
      intros [= <- <-]; (split; [done|]); simpl; eauto.
  - intros [= <- <-]. split; [done|]. simpl. eauto.
Qed.

(** C6, as the code has it. The builder checks neither the spacing nor the
    size and has no geometry error of its own. On a stack of spacing
    [(sx, sy, sz)] and size [(X, Y, Z)] it returns a volume exactly when the
    product [sz / sx * Z], computed in binary64, is finite, its rounding [n]
    and [X] and [Y] are sizes SimpleITK takes, and SimpleITK accepts to
    resample the image and the mask onto the new grid. When it raises, the
    store is as it was and the error is that of the step that failed: the
    [ValueError] of the conversion of a NaN to an integer, the
    [OverflowError] of the conversion of an infinity or of an integer
    beyond int64, the error of the binding for a size that is no unsigned
    integer, or the error with which SimpleITK refuses the grid. *)
Theorem isotropic_grid_builder_validates_nothing E o l w target sx sy sz X Y Z :
  stack_heap w !! l = Some target →
  GetSpacing (sitk target) = [sx; sy; sz] →
  GetSize (sitk target) = [X; Y; Z] →
  let product := b64_mul (b64_div sz sx) (b64_of_Z Z) in
  let refusal n im :=
    Resample_refusal E im
      {| grid_size := [X; Y; n]; grid_spacing := [sx; sy; sx];
         grid_origin := GetOrigin (sitk target);
         grid_direction := GetDirection (sitk target) |}
      Euler3DTransform sitkNearestNeighbor 0%Qc (GetPixelIDValue (sitk target)) in
  let run := FE._get_isotropically_resampled_stack E l (o, w) in
  ((∃ HR_volume s', run = (Ok HR_volume, s')) ↔
   (∃ v n, b64_value product = Some v ∧ is_round_half_to_even v n ∧
           is_uint32 X ∧ is_uint32 Y ∧ is_uint32 n ∧
           refusal n (sitk target) = None ∧
           refusal n (sitk_mask target) = None)) ∧
  (∀ e s', run = (Raise e, s') →
     s' = (o, w) ∧
     ((product = S754_nan ∧
       e = ValueError "cannot convert float NaN to integer") ∨
      ((∃ sign, product = S754_infinity sign) ∧ e = OverflowError) ∨
      (∃ v n, b64_value product = Some v ∧ is_round_half_to_even v n ∧
         ((¬ is_int64 n ∧ e = OverflowError) ∨
          (is_int64 n ∧ ¬ Forall is_uint32 [X; Y; n] ∧
           e = Resample_argument_error E) ∨
          (Forall is_uint32 [X; Y; n] ∧ refusal n (sitk target) = Some e) ∨
          (Forall is_uint32 [X; Y; n] ∧ refusal n (sitk target) = None ∧
           refusal n (sitk_mask target) = Some e))))).
Proof.
  intros Hl Hsp Hsz product refusal run.
  assert (Hrun : run = let (r, w') := (n <- float_to_int64 product ;;
     HR_volume_sitk <- Resample_call E (sitk target) [X; Y; n] Euler3DTransform
       sitkNearestNeighbor (GetOrigin (sitk target)) [sx; sy; sx]
       (GetDirection (sitk target)) 0%Qc (GetPixelIDValue (sitk target)) ;;
     HR_volume_sitk_mask <- Resample_call E (sitk_mask target) [X; Y; n]
       Euler3DTransform sitkNearestNeighbor (GetOrigin (sitk target)) [sx; sy; sx]
       (GetDirection (sitk target)) 0%Qc (GetPixelIDValue (sitk target)) ;;
     alloc_stack (Stack_from_sitk_image HR_volume_sitk
                    (FE._filename_reconstructed_volume o) HR_volume_sitk_mask)) w
     in (r, (o, w'))).
  { unfold run. rewrite get_isotropically_resampled_stack_lift.
    by rewrite (isotropically_resampled_stack_eq E _ l w target sx sy sz X Y Z). }
  clearbody run. subst run. unfold bind.
  destruct (float_to_int64 product w) as [[n|e1] w1] eqn:H1;
    apply float_to_int64_inv in H1 as [-> H1].
  2:{ cbv iota beta. split.
      - split; [by intros (? & ? & [=])|].
        intros (v & n & Hv & Hn & _ & _ & Hn32 & _).
        apply is_round_half_to_even_unique in Hn.
        destruct H1 as [[Hp _]|[[[sg Hp] _]|(v' & Hv' & Hn' & _)]].
        + by rewrite Hp in Hv.
        + by rewrite Hp in Hv.
        + destruct Hn'. rewrite Hv' in Hv. injection Hv as ->.
          rewrite Hn. by apply is_uint32_is_int64.
      - intros e s' [= <- <-]. split; [done|].
        destruct H1 as [[Hp ->]|[[[sg Hp] ->]|(v' & Hv' & Hn' & ->)]]; eauto.
        right; right. exists v', (np_round v'). split; [done|].
        split; [apply np_round_is_round_half_to_even|]. eauto. }
  destruct H1 as (v & Hv & -> & Hn64).
  pose proof (np_round_is_round_half_to_even v) as Hn.
  set (n := np_round v) in *. cbv iota beta.
  destruct (Resample_call E (sitk target) _ _ _ _ _ _ _ _ w)
    as [[im|e2] w2] eqn:H2;
    apply Resample_call_inv in H2 as [-> H2]; simpl in H2.
  2:{ cbv iota beta. split.
      - split; [by intros (? & ? & [=])|].
        intros (v' & n' & Hv' & Hn' & HX & HY & Hn32 & Hr1 & Hr2).
        apply is_round_half_to_even_unique in Hn'.
        rewrite Hv in Hv'. injection Hv' as <-. fold n in Hn'. subst n'.
        destruct H2 as [[Hsz32 _]|[_ Hr]].
        + destruct Hsz32. by apply Forall_is_uint32_3.
        + unfold refusal in Hr1. by rewrite Hr1 in Hr.
      - intros e s' [= <- <-]. split; [done|].
        right; right. exists v, n. split; [done|]. split; [done|].
        destruct H2 as [[Hsz32 ->]|[Hsz32 Hr]]; eauto 10. }
  destruct H2 as (Hsz32 & Hr1 & ->). cbv iota beta.
  destruct (Resample_call E (sitk_mask target) _ _ _ _ _ _ _ _ w)
    as [[im|e3] w3] eqn:H3;
    apply Resample_call_inv in H3 as [-> H3]; simpl in H3.
  2:{ cbv iota beta. split.
      - split; [by intros (? & ? & [=])|].
        intros (v' & n' & Hv' & Hn' & HX & HY & Hn32 & Hr1' & Hr2).
        apply is_round_half_to_even_unique in Hn'.
        rewrite Hv in Hv'. injection Hv' as <-. fold n in Hn'. subst n'.
        destruct H3 as [[Hsz32' _]|[_ Hr]]; [done|].
        unfold refusal in Hr2. by rewrite Hr2 in Hr.
      - intros e s' [= <- <-]. split; [done|].
        right; right. exists v, n. split; [done|]. split; [done|].
        destruct H3 as [[Hsz32' ->]|[_ Hr]]; [done|]. eauto 10. }
  destruct H3 as (_ & Hr2 & ->).
  unfold alloc_stack. cbv iota beta.
  split; [|by intros e s' [=]].
  split; [|by eauto].
  intros _. exists v, n.
  apply Forall_is_uint32_3 in Hsz32 as (HX & HY & Hn32).
  by split_and!.
Qed.

(** ** Construction and the default strategies *)

Lemma FE_init_inv E sm name t w o w' :
  FE.__init__ E sm name t w = (Ok o, w') →
  FE._flag_use_in_plane_rigid_registration_for_initial_volume_estimate o = false ∧
  FE._flag_register_stacks_before_initial_volume_estimate o = false ∧
  FE._recon_approach o = "SDA" ∧
  sda_HR_volume (FE._SDA o) = FE._HR_volume o.
Proof.
  unfold FE.__init__. intros H.
  apply bind_inv_ok in H as (target & w1 & _ & H).
  apply bind_inv_ok in H as (HR & w2 & _ & H).
  injection H as <- <-. done.
Qed.

Lemma FE_init_ok E sm name t w l target sx sy sz X Y Z v n :
  py_index (get_stacks sm) t = Some l →
  stack_heap w !! l = Some target →
  GetSpacing (sitk target) = [sx; sy; sz] →
  GetSize (sitk target) = [X; Y; Z] →
  b64_value (b64_mul (b64_div sz sx) (b64_of_Z Z)) = Some v →
  is_round_half_to_even v n →
  is_uint32 X → is_uint32 Y → is_uint32 n →
  let g := {| grid_size := [X; Y; n]; grid_spacing := [sx; sy; sx];
              grid_origin := GetOrigin (sitk target);
              grid_direction := GetDirection (sitk target) |} in
  let refusal im :=
    Resample_refusal E im g Euler3DTransform sitkNearestNeighbor 0%Qc
      (GetPixelIDValue (sitk target)) in
  refusal (sitk target) = None →
  refusal (sitk_mask target) = None →
  ∃ o w', FE.__init__ E sm name t w = (Ok o, w').
Proof.
  intros Ht Hl Hsp Hsz Hv Hn HX HY Hn32 g refusal Hr1 Hr2. unfold FE.__init__.
  erewrite bind_ok; [|unfold getitem; rewrite Ht; reflexivity].
  erewrite bind_ok;
    [|by eapply (isotropically_resampled_stack_ok E name l w target
                   sx sy sz X Y Z v n)].
  unfold ret. eauto.
Qed.

(** C10. A reconstruction orchestrator is constructed with the approach
    SRR: that is what [get_reconstruction_approach] returns then, and
    [run_reconstruction] runs the Tikhonov solver. A first-estimate
    orchestrator is constructed, whenever the isotropic grid builder returns
    a volume for its target stack (a stack of three dimensions whose new
    z-size is computed, fits and is accepted, as in C2), with the approach
    SDA and both flags off: [get_reconstruction_approach] returns SDA then,
    and [compute_first_estimate_of_HR_volume] is a run of the SDA strategy
    and not of the averaging. *)
Theorem default_reconstruction_approaches :
  (∀ sm HR w,
     VR.get_reconstruction_approach (VR.__init__ sm HR, w)
     = (Ok "SRR", (VR.__init__ sm HR, w))) ∧
  (∀ E sm HR w,
     VR.run_reconstruction E (VR.__init__ sm HR, w)
     = VR._run_SRR E (VR.__init__ sm HR, w)) ∧
  (∀ E sm name t w l target sx sy sz X Y Z v n,
     py_index (get_stacks sm) t = Some l →
     stack_heap w !! l = Some target →
     GetSpacing (sitk target) = [sx; sy; sz] →
     GetSize (sitk target) = [X; Y; Z] →
     b64_value (b64_mul (b64_div sz sx) (b64_of_Z Z)) = Some v →
     is_round_half_to_even v n →
     is_uint32 X → is_uint32 Y → is_uint32 n →
     let g := {| grid_size := [X; Y; n]; grid_spacing := [sx; sy; sx];
                 grid_origin := GetOrigin (sitk target);
                 grid_direction := GetDirection (sitk target) |} in
     let refusal im :=
       Resample_refusal E im g Euler3DTransform sitkNearestNeighbor 0%Qc
         (GetPixelIDValue (sitk target)) in
     refusal (sitk target) = None →
     refusal (sitk_mask target) = None →
     ∃ o w', FE.__init__ E sm name t w = (Ok o, w')) ∧
  (∀ E sm name t w o w',
     FE.__init__ E sm name t w = (Ok o, w') →
     FE.get_reconstruction_approach (o, w') = (Ok "SDA", (o, w')) ∧
     FE.compute_first_estimate_of_HR_volume E (o, w') = FE._run_SDA E (o, w')).
Proof.
  split; [done|]. split; [done|]. split; [exact FE_init_ok|].
  intros E sm name t w o w' H.
  apply FE_init_inv in H as (Hf1 & Hf2 & Hr & _).
  split.
  - unfold FE.get_reconstruction_approach, self_get. simpl. by rewrite Hr.
  - unfold FE.compute_first_estimate_of_HR_volume, bind, self_get. simpl.
    rewrite Hf1. simpl. rewrite Hf2. simpl. rewrite Hr. simpl.
    by destruct (FE._run_SDA E (o, w')) as [[] ?].
Qed.

(** ** Stepping through a method *)

Lemma self_get_ok {O A} (f : O → A) (s : O * World) :
  self_get f s = (Ok (f s.1), s).
Proof. reflexivity. Qed.

Lemma self_set_ok {O} (upd : O → O) (s : O * World) :
  self_set upd s = (Ok tt, (upd s.1, s.2)).
Proof. reflexivity. Qed.

Lemma getitem_nat_ok {T A} (l : list A) i a (s : T) :
  l !! i = Some a → getitem_nat l i s = (Ok a, s).
Proof. unfold getitem_nat. by intros ->. Qed.

Lemma setitem_nat_ok {T A} (l : list A) i x (s : T) :
  (i < length l)%nat → setitem_nat l i x s = (Ok (<[i:=x]> l), s).
Proof. unfold setitem_nat. intros H. by rewrite decide_True. Qed.

Lemma lift_deref_stack_ok {O} l st (o : O) w :
  stack_heap w !! l = Some st →
  lift_world (deref_stack l) (o, w) = (Ok st, (o, w)).
Proof. unfold lift_world, deref_stack. simpl. by intros ->. Qed.

Lemma lift_store_stack_ok {O} l st (o : O) w :
  lift_world (store_stack l st) (o, w)
  = (Ok tt, (o, with_stack_heap (<[l:=st]> (stack_heap w)) w)).
Proof. reflexivity. Qed.

Create HintDb py_step.
#[local] Hint Resolve self_get_ok self_set_ok getitem_nat_ok setitem_nat_ok
  lift_deref_stack_ok lift_store_stack_ok : py_step.

(** Runs the first statement of a sequence when it is known to return. *)
Ltac py_step :=
  erewrite bind_ok;
  [ cbv beta
  | solve [ reflexivity | eauto with py_step ] ].

(** ** The propagation of the rigid registrations to the slices *)

Lemma for_each_range_getitem {T A} (l : list A) (f : A → M T unit) s :
  for_each (range (length l)) (λ j, x <- getitem_nat l j ;; f x) s
  = for_each l f s.
Proof.
  unfold range.
  enough (∀ pre, for_each (seq (length pre) (length l))
            (λ j, x <- getitem_nat (pre ++ l) j ;; f x) s = for_each l f s)
    as H by apply (H []).
  revert s. induction l as [|a l IH]; intros s pre; [done|]. simpl.
  unfold bind in *. unfold getitem_nat at 1.
  rewrite list_lookup_middle by done. simpl.
  destruct (f a s) as [[[]|e] s']; [|done].
  specialize (IH s' (pre ++ [a])).
  rewrite length_app in IH. simpl in IH.
  replace (length pre + 1)%nat with (S (length pre)) in IH by lia.
  by rewrite <- (assoc_L (++)) in IH.
Qed.

Lemma length_propagate_step h p : length (propagate_step h p) = length h.
Proof. unfold propagate_step. destruct (h !! p.1); [apply length_insert|done]. Qed.

Lemma length_foldl_propagate_step plan h :
  length (foldl propagate_step h plan) = length h.
Proof.
  revert h. induction plan as [|p plan IH]; intros h; [done|]. simpl.
  by rewrite IH, length_propagate_step.
Qed.

Lemma propagate_step_ne h p sl : sl ≠ p.1 → propagate_step h p !! sl = h !! sl.
Proof.
  intros Hne. unfold propagate_step. destruct (h !! p.1); [|done].
  by apply list_lookup_insert_ne.
Qed.

Lemma foldl_propagate_step_untouched plan h sl :
  sl ∉ plan.*1 → foldl propagate_step h plan !! sl = h !! sl.
Proof.
  revert h. induction plan as [|p plan IH]; intros h Hnot; [done|]. simpl.
  rewrite fmap_cons in Hnot. apply not_elem_of_cons in Hnot as [Hne Hnot].
  rewrite IH by done. by apply propagate_step_ne.
Qed.

Lemma foldl_propagate_step_visited plan h sl T s :
  NoDup plan.*1 → (sl, T) ∈ plan → h !! sl = Some s →
  foldl propagate_step h plan !! sl
  = Some (set_affine_transform
            (get_composited_sitk_affine_transform T (get_affine_transform s)) s).
Proof.
  revert h. induction plan as [|p plan IH]; intros h Hnd Hin Hs.
  - by apply elem_of_nil in Hin.
  - rewrite fmap_cons in Hnd. apply list.NoDup_cons in Hnd as [Hp Hnd]. simpl.
    apply elem_of_cons in Hin as [<-|Hin].
    + rewrite foldl_propagate_step_untouched by done.
      unfold propagate_step. simpl. rewrite Hs.
      apply list_lookup_insert_eq. by eapply lookup_lt_Some.
    + apply IH; [done..|].
      rewrite propagate_step_ne; [done|].
      intros ->. apply Hp. apply list_elem_of_fmap. by exists (p.1, T).
Qed.

Lemma update_slice_ok T sl s o w :
  slice_heap w !! sl = Some s →
  FE.update_slice T sl (o, w)
  = (Ok tt, (o, with_slice_heap (propagate_step (slice_heap w) (sl, T)) w)).
Proof.
  intros Hs. unfold FE.update_slice, bind, lift_world, deref_slice, store_slice,
    modify, propagate_step. simpl. by rewrite Hs.
Qed.

Lemma for_each_update_slice T sls o w :
  Forall (λ sl, sl < length (slice_heap w))%nat sls →
  for_each sls (FE.update_slice T) (o, w)
  = (Ok tt, (o, with_slice_heap
                  (foldl propagate_step (slice_heap w) ((λ sl, (sl, T)) <$> sls)) w)).
Proof.
  revert w. induction sls as [|sl sls IH]; intros w Hv.
  - by destruct w.
  - apply Forall_cons_1 in Hv as [Hsl Hv]. simpl.
    apply lookup_lt_is_Some_2 in Hsl as [s Hs].
    erewrite bind_ok by (by eapply update_slice_ok).
    rewrite IH; [done|]. simpl. by rewrite length_propagate_step.
Qed.

Lemma update_slice_transformations_loop o sh idx inputs w :
  stack_heap w = sh →
  Forall2 (λ i p, (l ← FE._stacks o !! i; st ← sh !! l;
                   T ← FE._rigid_registrations o !! i; Some (st, T)) = Some p)
          idx inputs →
  Forall (λ p, p.1 < length (slice_heap w))%nat (visited_slices inputs) →
  for_each idx (λ i,
    stacks <- self_get FE._stacks ;;
    stack_ref <- getitem_nat stacks i ;;
    rigid_registrations <- self_get FE._rigid_registrations ;;
    T <- getitem_nat rigid_registrations i ;;
    stack <- lift_world (deref_stack stack_ref) ;;
    for_each (range (get_number_of_slices stack)) (λ j,
      slice <- getitem_nat (_slices stack) j ;;
      FE.update_slice T slice)) (o, w)
  = (Ok tt, (o, with_slice_heap
                  (foldl propagate_step (slice_heap w) (visited_slices inputs)) w)).
Proof.
  intros Hsh HF. revert w Hsh. induction HF as [|i [st T] idx inputs Hi HF IH];
    intros w Hsh Hv.
  - by destruct w.
  - unfold visited_slices in Hv. rewrite bind_cons in Hv.
    apply Forall_app in Hv as [Hv1 Hv2]. simpl in Hv1.
    destruct (FE._stacks o !! i) as [l|] eqn:Hl; [|done]. simpl in Hi.
    destruct (sh !! l) as [st'|] eqn:Hst; [|done]. simpl in Hi.
    destruct (FE._rigid_registrations o !! i) as [T'|] eqn:HT; [|done].
    simpl in Hi. injection Hi as -> ->.
    cbn [for_each].
    erewrite bind_ok; cycle 1.
    { cbv beta. py_step. simpl. py_step. py_step. simpl. py_step.
      rewrite <- Hsh in Hst. py_step.
      unfold get_number_of_slices.
      rewrite for_each_range_getitem.
      apply for_each_update_slice.
      rewrite Forall_fmap in Hv1. exact Hv1. }
    rewrite IH.
    + unfold visited_slices. rewrite bind_cons, foldl_app. reflexivity.
    + done.
    + simpl. eapply List.Forall_impl; [|exact Hv2].
      intros p Hp. simpl in Hp. by rewrite length_foldl_propagate_step.
Qed.

Lemma update_slice_transformations_ok o w inputs :
  propagation_inputs o w = Some inputs →
  Forall (λ p, p.1 < length (slice_heap w))%nat (visited_slices inputs) →
  FE._update_slice_transformations (o, w)
  = (Ok tt, (o, with_slice_heap
                  (foldl propagate_step (slice_heap w) (visited_slices inputs)) w)).
Proof.
  intros Hin Hv. unfold FE._update_slice_transformations. py_step. simpl.
  apply mapM_Some_1 in Hin.
  by apply (update_slice_transformations_loop o (stack_heap w)).
Qed.

Lemma mapM_range_lookup {A} (f : nat → option A) n k i :
  mapM f (range n) = Some k → (i < n)%nat → k !! i = f i.
Proof.
  intros H Hi. apply mapM_Some_1 in H.
  destruct (Forall2_lookup_l _ _ _ i i H) as (y & Hy & Hf).
  - unfold range. by apply lookup_seq_lt.
  - by rewrite Hy, Hf.
Qed.

Lemma propagation_inputs_lookup o w inputs i l st T :
  propagation_inputs o w = Some inputs →
  (i < FE._N_stacks o)%nat →
  FE._stacks o !! i = Some l →
  stack_heap w !! l = Some st →
  FE._rigid_registrations o !! i = Some T →
  inputs !! i = Some (st, T).
Proof.
  intros Hin Hi Hl Hst HT. unfold propagation_inputs in Hin.
  rewrite (mapM_range_lookup _ _ _ i Hin Hi), Hl. simpl.
  rewrite Hst. simpl. by rewrite HT.
Qed.

Lemma elem_of_visited_slices inputs i st T sl :
  inputs !! i = Some (st, T) → sl ∈ _slices st → (sl, T) ∈ visited_slices inputs.
Proof.
  intros Hi Hsl. unfold visited_slices. apply list_elem_of_bind.
  exists (st, T). split; [|by eapply list_elem_of_lookup_2].
  simpl. apply list_elem_of_fmap. by exists sl.
Qed.

Lemma compose_identity_l t :
  get_composited_sitk_affine_transform Euler3DTransform t = t.
Proof.
  destruct t as [[[a b c] [d e f] [g h k]] [x y z]].
  unfold get_composited_sitk_affine_transform, mat_mul, mat_vec, vadd, dot,
    col0, col1, col2. simpl.
  repeat f_equal; ring.
Qed.

Lemma propagate_step_identity h sl : propagate_step h (sl, Euler3DTransform) = h.
Proof.
  unfold propagate_step. simpl. destruct (h !! sl) as [s|] eqn:Hs; [|done].
  rewrite compose_identity_l. apply list_insert_id. by destruct s.
Qed.


Lemma visited_slices_fst inputs sl :
  sl ∈ (visited_slices inputs).*1 → ∃ p, p ∈ inputs ∧ sl ∈ _slices p.1.
Proof.
  intros H. apply list_elem_of_fmap in H as ([sl' T] & -> & H).
  unfold visited_slices in H. apply list_elem_of_bind in H as (p & H & Hp).
  apply list_elem_of_fmap in H as (sl & [= -> ->] & H). eauto.
Qed.

Lemma propagation_inputs_elem o w inputs p :
  propagation_inputs o w = Some inputs → p ∈ inputs →
  ∃ i l, (i < FE._N_stacks o)%nat ∧ FE._stacks o !! i = Some l ∧
         stack_heap w !! l = Some p.1 ∧
         FE._rigid_registrations o !! i = Some p.2.
Proof.
  intros Hin Hp. apply list_elem_of_lookup in Hp as [i Hi].
  assert (i < FE._N_stacks o)%nat as Hlt.
  { apply lookup_lt_Some in Hi. apply length_mapM in Hin.
    unfold range in Hin. rewrite length_seq in Hin. lia. }
  unfold propagation_inputs in Hin.
  rewrite (mapM_range_lookup _ _ _ i Hin Hlt) in Hi.
  destruct (FE._stacks o !! i) as [l|] eqn:Hl; [|done]. simpl in Hi.
  destruct (stack_heap w !! l) as [st|] eqn:Hst; [|done]. simpl in Hi.
  destruct (FE._rigid_registrations o !! i) as [T|] eqn:HT; [|done]. simpl in Hi.
  injection Hi as <-. by exists i, l.
Qed.
Lemma foldl_propagate_step_identities plan h :
  Forall (λ p, p.2 = Euler3DTransform) plan → foldl propagate_step h plan = h.
Proof.
  revert h. induction plan as [|[sl T] plan IH]; intros h Hall; [done|].
  apply Forall_cons_1 in Hall as [HT Hall]. simpl in *. subst T.
  rewrite propagate_step_identity. by apply IH.
Qed.

(** Right after construction every rigid registration is the identity:
    the propagation then changes nothing at all, shared slices or not. *)
Lemma propagation_of_identities_is_noop o w inputs :
  propagation_inputs o w = Some inputs →
  Forall (λ p, p.1 < length (slice_heap w))%nat (visited_slices inputs) →
  Forall (λ p, p.2 = Euler3DTransform) inputs →
  FE._update_slice_transformations (o, w) = (Ok tt, (o, w)).
Proof.
  intros Hin Hv Hid. rewrite (update_slice_transformations_ok o w inputs) by done.
  rewrite foldl_propagate_step_identities; [by destruct w|].
  apply list.Forall_forall. intros [sl T] Hel. simpl.
  unfold visited_slices in Hel. apply list_elem_of_bind in Hel as (p & Hel & Hp).
  apply list_elem_of_fmap in Hel as (sl' & [= -> ->] & _).
  rewrite list.Forall_forall in Hid. by apply Hid.
Qed.

Lemma get_rigid_registration_transform_ok E f m fixed moving (o : FE.FirstEstimateOfHRVolume) w :
  stack_heap w !! f = Some fixed →
  stack_heap w !! m = Some moving →
  FE._get_rigid_registration_transform_3D_sitk E f m (o, w)
  = (Ok (rigid_registration_of E fixed moving), (o, w)).
Proof.
  intros Hf Hm. unfold FE._get_rigid_registration_transform_3D_sitk.
  py_step. py_step. reflexivity.
Qed.

Lemma set_rigid_registrations_twice r1 r2 o :
  FE.set__rigid_registrations r2 (FE.set__rigid_registrations r1 o)
  = FE.set__rigid_registrations r2 o.
Proof. by destruct o. Qed.

Lemma register_loop E refs HR w cs : ∀ k o,
  stack_heap w !! FE._HR_volume o = Some HR →
  Forall2 (λ i c, (l ← refs !! i; stack_heap w !! l) = Some c)
          (seq k (length cs)) cs →
  (k + length cs ≤ length (FE._rigid_registrations o))%nat →
  for_each (seq k (length cs)) (λ i,
    stack_i <- getitem_nat refs i ;;
    HR_volume <- self_get FE._HR_volume ;;
    T <- FE._get_rigid_registration_transform_3D_sitk E stack_i HR_volume ;;
    rigid_registrations <- self_get FE._rigid_registrations ;;
    rigid_registrations <- setitem_nat rigid_registrations i T ;;
    self_set (FE.set__rigid_registrations rigid_registrations)) (o, w)
  = (Ok tt,
     (FE.set__rigid_registrations
        (take k (FE._rigid_registrations o)
         ++ ((λ c, rigid_registration_of E c HR) <$> cs)
         ++ drop (k + length cs) (FE._rigid_registrations o)) o, w)).
Proof.
  induction cs as [|c cs IH]; intros k o HHR HF Hlen.
  - simpl. unfold ret. rewrite Nat.add_0_r, take_drop. by destruct o.
  - simpl in HF. apply Forall2_cons_1 in HF as [Hc HF].
    destruct (refs !! k) as [l|] eqn:Hl; [|done]. simpl in Hc.
    simpl in Hlen.
    cbn [for_each length seq].
    erewrite bind_ok; cycle 1.
    { cbv beta. py_step. py_step. simpl.
      erewrite bind_ok by (by eapply get_rigid_registration_transform_ok).
      cbv beta. py_step. simpl.
      erewrite bind_ok by (apply setitem_nat_ok; lia).
      cbv beta. reflexivity. }
    simpl.
    rewrite IH; cycle 1.
    { by destruct o. }
    { done. }
    { destruct o. simpl in *. rewrite length_insert. lia. }
    rewrite set_rigid_registrations_twice. do 3 f_equal.
    destruct o as [? ? ? ? ? ? ? ? regs ? ? ? ? ? ?]. simpl in *.
    rewrite take_S_r with (x := rigid_registration_of E c HR)
      by (apply list_lookup_insert_eq; lia).
    rewrite take_insert_ge by lia.
    rewrite drop_insert_lt by lia.
    rewrite <- (assoc_L (++)). simpl.
    by replace (k + S (length cs))%nat with (S (k + length cs)) by lia.
Qed.

Lemma stacks_at_length refs n w sts : stacks_at refs n w = Some sts → length sts = n.
Proof.
  intros H. apply length_mapM in H. unfold range in H. by rewrite length_seq in H.
Qed.

Lemma propagation_inputs_after_registration o w originals Ts regs :
  stacks_at (FE._stacks o) (FE._N_stacks o) w = Some originals →
  length Ts = FE._N_stacks o →
  propagation_inputs (FE.set__rigid_registrations (Ts ++ regs) o) w
  = Some (zip originals Ts).
Proof.
  intros Ho HTs. unfold propagation_inputs.
  pose proof (stacks_at_length _ _ _ _ Ho) as Hlen.
  apply mapM_Some_2, Forall2_same_length_lookup_2.
  - unfold range. rewrite length_seq, length_zip_with. destruct o; simpl in *. lia.
  - intros i i' [st T] Hi Hz. unfold range in Hi.
    apply lookup_seq in Hi as [-> Hi]. simpl in *.
    apply lookup_zip_Some in Hz as [Hst HT].
    replace (FE._N_stacks (FE.set__rigid_registrations (Ts ++ regs) o))
      with (FE._N_stacks o) in Hi by (by destruct o).
    rewrite (mapM_range_lookup _ _ _ i Ho Hi) in Hst.
    replace (FE._stacks (FE.set__rigid_registrations (Ts ++ regs) o))
      with (FE._stacks o) by (by destruct o).
    destruct (FE._stacks o !! i) as [l|]; [|done]. simpl in *.
    rewrite Hst. simpl.
    replace (FE._rigid_registrations (FE.set__rigid_registrations (Ts ++ regs) o))
      with (Ts ++ regs) by (by destruct o).
    rewrite lookup_app_l by (by eapply lookup_lt_Some). by rewrite HT.
Qed.

Lemma working_stacks_ok o w refs :
  working_stack_refs o = Some refs →
  FE.working_stacks (o, w) = (Ok refs, (o, w)).
Proof.
  unfold working_stack_refs, FE.working_stacks. intros H. py_step. simpl.
  destruct (FE._flag_use_in_plane_rigid_registration_for_initial_volume_estimate o).
  - destruct (FE._in_plane_rigid_registration o) as [ip|] eqn:Hip; [|done].
    injection H as <-. unfold FE.the_in_plane_rigid_registration.
    unfold bind, self_get. simpl. rewrite Hip. reflexivity.
  - by injection H as <-.
Qed.

Lemma rigidly_register_all_stacks_ok E o w refs working originals HR :
  working_stack_refs o = Some refs →
  stacks_at refs (FE._N_stacks o) w = Some working →
  stack_heap w !! FE._HR_volume o = Some HR →
  (FE._N_stacks o ≤ length (FE._rigid_registrations o))%nat →
  stacks_at (FE._stacks o) (FE._N_stacks o) w = Some originals →
  let Ts := (λ c, rigid_registration_of E c HR) <$> working in
  let plan := visited_slices (zip originals Ts) in
  Forall (λ p, p.1 < length (slice_heap w))%nat plan →
  FE._rigidly_register_all_stacks_to_HR_volume E (o, w)
  = (Ok tt,
     (FE.set__rigid_registrations
        (Ts ++ drop (FE._N_stacks o) (FE._rigid_registrations o)) o,
      with_slice_heap (foldl propagate_step (slice_heap w) plan) w)).
Proof.
  intros Hrefs Hw HHR Hlen Ho Ts plan Hv.
  pose proof (stacks_at_length _ _ _ _ Hw) as Hlw.
  unfold FE._rigidly_register_all_stacks_to_HR_volume.
  erewrite bind_ok by (by apply working_stacks_ok). cbv beta.
  py_step. simpl.
  erewrite bind_ok; cycle 1.
  { unfold range. rewrite <- Hlw.
    apply (register_loop E refs HR w working 0 o); [done| |lia].
    unfold stacks_at, range in Hw. rewrite Hlw. by apply mapM_Some_1. }
  cbv beta. simpl. rewrite Hlw.
  erewrite update_slice_transformations_ok; [reflexivity| |done].
  apply propagation_inputs_after_registration; [done|].
  unfold Ts. by rewrite length_fmap.
Qed.

(** C3. One run of the propagation, the step that ends an alignment round,
    returns whenever each of the N stacks, its rigid registration and its
    slices exist, and then, no slice belonging to two stacks or twice to
    one: the transform of slice j of stack i is the composition of the
    rigid registration T_i of the stack with the transform the slice had
    before the run; every other slice of the store is as it was; and no
    Stack object has changed. *)
Theorem slice_transforms_composed_with_rigid_registration o w inputs :
  propagation_inputs o w = Some inputs →
  Forall (λ p, p.1 < length (slice_heap w))%nat (visited_slices inputs) →
  NoDup (visited_slices inputs).*1 →
  ∃ w',
    FE._update_slice_transformations (o, w) = (Ok tt, (o, w')) ∧
    stack_heap w' = stack_heap w ∧
    (∀ i stack_ref stack T j slice_ref slice,
       (i < FE._N_stacks o)%nat →
       FE._stacks o !! i = Some stack_ref →
       stack_heap w !! stack_ref = Some stack →
       FE._rigid_registrations o !! i = Some T →
       _slices stack !! j = Some slice_ref →
       slice_heap w !! slice_ref = Some slice →
       get_affine_transform <$> slice_heap w' !! slice_ref
       = Some (get_composited_sitk_affine_transform T
                 (get_affine_transform slice))) ∧
    (∀ slice_ref,
       (∀ i stack_ref stack,
          (i < FE._N_stacks o)%nat →
          FE._stacks o !! i = Some stack_ref →
          stack_heap w !! stack_ref = Some stack →
          slice_ref ∉ _slices stack) →
       slice_heap w' !! slice_ref = slice_heap w !! slice_ref).
Proof.
  intros Hin Hv Hnd. eexists. split; [by apply update_slice_transformations_ok|].
  split; [done|]. split.
  - intros i l st T j sl s Hi Hl Hst HT Hj Hs. simpl.
    erewrite foldl_propagate_step_visited; [done|done| |done].
    eapply elem_of_visited_slices; [by eapply propagation_inputs_lookup|].
    by eapply list_elem_of_lookup_2.
  - intros sl Hsl. simpl. apply foldl_propagate_step_untouched.
    intros ([st T] & Hp & Hel)%visited_slices_fst.
    destruct (propagation_inputs_elem _ _ _ _ Hin Hp) as (i & l & Hi & Hl & Hst & _).
    by eapply Hsl.
Qed.

(** C9. When the rigid registration of a stack is the identity, a run of
    the propagation (which returns, under the conditions above) leaves each
    slice of that stack exactly as it was: the composition of the identity
    with a transform is that transform, entry by entry. *)
Theorem identity_registration_leaves_slices_unchanged o w inputs :
  propagation_inputs o w = Some inputs →
  Forall (λ p, p.1 < length (slice_heap w))%nat (visited_slices inputs) →
  NoDup (visited_slices inputs).*1 →
  ∃ w',
    FE._update_slice_transformations (o, w) = (Ok tt, (o, w')) ∧
    ∀ i stack_ref stack j slice_ref,
      (i < FE._N_stacks o)%nat →
      FE._stacks o !! i = Some stack_ref →
      stack_heap w !! stack_ref = Some stack →
      FE._rigid_registrations o !! i = Some Euler3DTransform →
      _slices stack !! j = Some slice_ref →
      slice_heap w' !! slice_ref = slice_heap w !! slice_ref.
Proof.
  intros Hin Hv Hnd. eexists. split; [by apply update_slice_transformations_ok|].
  intros i l st j sl Hi Hl Hst HT Hj. simpl.
  assert (Hel : (sl, Euler3DTransform) ∈ visited_slices inputs).
  { eapply elem_of_visited_slices; [by eapply propagation_inputs_lookup|].
    by eapply list_elem_of_lookup_2. }
  assert (is_Some (slice_heap w !! sl)) as [s Hs].
  { apply lookup_lt_is_Some_2.
    rewrite list.Forall_forall in Hv. apply (Hv _ Hel). }
  erewrite foldl_propagate_step_visited by done.
  rewrite compose_identity_l, Hs. by destruct s.
Qed.

(** An alignment round with the in-plane flag set: it registers the
    in-plane resampled copies to the HR volume and then composes the rigid
    registration found for copy i into the slices of the original stack i,
    the one the stack manager loaded. It changes no Stack object, neither
    an original one nor a copy, and no slice other than those of the
    original stacks; of the orchestrator it changes the rigid registrations
    only. *)
Lemma in_plane_round_registers_copies_and_updates_originals
    E o w ip copies originals HR :
  FE._flag_use_in_plane_rigid_registration_for_initial_volume_estimate o = true →
  FE._in_plane_rigid_registration o = Some ip →
  stacks_at (get_resampled_planarly_aligned_stacks ip) (FE._N_stacks o) w
  = Some copies →
  stack_heap w !! FE._HR_volume o = Some HR →
  (FE._N_stacks o ≤ length (FE._rigid_registrations o))%nat →
  stacks_at (FE._stacks o) (FE._N_stacks o) w = Some originals →
  let Ts := (λ c, rigid_registration_of E c HR) <$> copies in
  let plan := visited_slices (zip originals Ts) in
  Forall (λ p, p.1 < length (slice_heap w))%nat plan →
  NoDup plan.*1 →
  ∃ o' w',
    FE._rigidly_register_all_stacks_to_HR_volume E (o, w) = (Ok tt, (o', w')) ∧
    o' = FE.set__rigid_registrations (FE._rigid_registrations o') o ∧
    stack_heap w' = stack_heap w ∧
    (∀ i original copy j slice_ref slice,
       originals !! i = Some original →
       copies !! i = Some copy →
       _slices original !! j = Some slice_ref →
       slice_heap w !! slice_ref = Some slice →
       get_affine_transform <$> slice_heap w' !! slice_ref
       = Some (get_composited_sitk_affine_transform
                 (rigid_registration_of E copy HR)
                 (get_affine_transform slice))) ∧
    (∀ slice_ref,
       (∀ original, original ∈ originals → slice_ref ∉ _slices original) →
       slice_heap w' !! slice_ref = slice_heap w !! slice_ref).
Proof.
  intros Hflag Hip Hc HHR Hlen Ho Ts plan Hv Hnd.
  do 2 eexists. split.
  { apply (rigidly_register_all_stacks_ok E o w
             (get_resampled_planarly_aligned_stacks ip) copies originals HR);
      [|done..].
    unfold working_stack_refs. by rewrite Hflag, Hip. }
  split; [by destruct o|]. split; [done|]. split.
  - intros i original copy j sl s Hi Hci Hj Hs. simpl.
    erewrite foldl_propagate_step_visited; [done|done| |done].
    eapply (elem_of_visited_slices _ i original); [|by eapply list_elem_of_lookup_2].
    apply lookup_zip_Some. split; [done|].
    unfold Ts. by rewrite list_lookup_fmap, Hci.
  - intros sl Hsl. simpl. apply foldl_propagate_step_untouched.
    intros ([st T] & Hp & Hel)%visited_slices_fst.
    apply (Hsl st); [|done].
    apply list_elem_of_lookup in Hp as [i Hp].
    apply lookup_zip_Some in Hp as [Hp _]. by eapply list_elem_of_lookup_2.
Qed.

(** ** The averaging strategy *)

Lemma averaging_loop E o w HR refs idx inputs : ∀ acc,
  Forall2 (λ i p, (l ← refs !! i; st ← stack_heap w !! l;
                   T ← FE._rigid_registrations o !! i; Some (st, T)) = Some p)
          idx inputs →
  for_fold idx acc (λ '(array, array_mask, ind) i,
    stack_ref <- getitem_nat refs i ;;
    stack <- lift_world (deref_stack stack_ref) ;;
    rigid_registrations <- self_get FE._rigid_registrations ;;
    T <- getitem_nat rigid_registrations i ;;
    let stack_sitk :=
      Resample E (sitk stack) (sitk HR) T sitkLinear 0%Qc
        (GetPixelIDValue (sitk HR)) in
    let stack_sitk_mask :=
      Resample E (sitk_mask stack) (sitk HR) T sitkNearestNeighbor 0%Qc
        (GetPixelIDValue (sitk_mask stack)) in
    let array_tmp := voxels stack_sitk in
    let array_mask_tmp := voxels stack_sitk_mask in
    ret (np_add array array_tmp,
         np_add array_mask array_mask_tmp,
         np_count_nonzero ind array_tmp)) (o, w)
  = (Ok (foldl (accumulate E HR) acc inputs), (o, w)).
Proof.
  intros acc HF. revert acc.
  induction HF as [|i [st T] idx inputs Hi HF IH]; intros [[a m] c]; [done|].
  destruct (refs !! i) as [l|] eqn:Hl; [|done]. simpl in Hi.
  destruct (stack_heap w !! l) as [st'|] eqn:Hst; [|done]. simpl in Hi.
  destruct (FE._rigid_registrations o !! i) as [T'|] eqn:HT; [|done].
  simpl in Hi. injection Hi as -> ->.
  cbn [for_fold foldl].
  erewrite bind_ok; cycle 1.
  { py_step. py_step. py_step. simpl. py_step. reflexivity. }
  apply IH.
Qed.

(** Arrays of [n] voxels. *)
Lemma at_voxel_lookup v a n :
  length a = n → (v < n)%nat → a !! v = Some (at_voxel v a).
Proof.
  intros Hl Hv. unfold at_voxel.
  destruct (a !! v) eqn:H; [done|]. apply lookup_ge_None in H. lia.
Qed.

Lemma length_resampled_intensity E HR p :
  length (resampled_intensity E HR p) = number_of_voxels (GetSize (sitk HR)).
Proof. unfold resampled_intensity, Resample, Resample_onto. simpl.
  by rewrite length_map, length_seq. Qed.

Lemma length_resampled_mask E HR p :
  length (resampled_mask E HR p) = number_of_voxels (GetSize (sitk HR)).
Proof. unfold resampled_mask, Resample, Resample_onto. simpl.
  by rewrite length_map, length_seq. Qed.

Lemma at_voxel_zip_with f a b v n :
  length a = n → length b = n → (v < n)%nat →
  at_voxel v (zip_with f a b) = f (at_voxel v a) (at_voxel v b).
Proof.
  intros Ha Hb Hv. unfold at_voxel at 1. rewrite lookup_zip_with.
  rewrite (at_voxel_lookup v a n), (at_voxel_lookup v b n) by done. done.
Qed.

Lemma at_voxel_map f a v n :
  length a = n → (v < n)%nat → at_voxel v (map f a) = f (at_voxel v a).
Proof.
  intros Ha Hv. unfold at_voxel at 1.
  change (map f a) with (f <$> a). rewrite list_lookup_fmap.
  by rewrite (at_voxel_lookup v a n).
Qed.

Lemma at_voxel_zeros v n : at_voxel v (np_zeros n) = 0%Qc.
Proof.
  unfold at_voxel, np_zeros. destruct (replicate n 0%Qc !! v) eqn:H; [|done].
  by apply lookup_replicate in H as [-> _].
Qed.

Lemma Qc_of_nat_S n : Qc_of_nat (S n) = (Qc_of_nat n + 1)%Qc.
Proof.
  unfold Qc_of_nat, Qc_of_Z. apply Qc_is_canon. simpl.
  rewrite !Qred_correct. unfold Qeq. simpl. lia.
Qed.

Lemma Qc_of_nat_0 : Qc_of_nat 0 = 0%Qc.
Proof. by apply Qc_is_canon. Qed.

Lemma Qc_of_nat_eq_0 n : Qc_of_nat n = 0%Qc → n = 0%nat.
Proof.
  unfold Qc_of_nat, Qc_of_Z. intros H. apply (f_equal this) in H. simpl in H.
  assert (Qred (inject_Z (Z.of_nat n)) == 0)%Q as H' by (by rewrite H).
  rewrite Qred_correct in H'. unfold Qeq in H'. simpl in H'. lia.
Qed.

Lemma sum_at_cons a arrays v :
  sum_at (a :: arrays) v = (at_voxel v a + sum_at arrays v)%Qc.
Proof. reflexivity. Qed.

Lemma contribution_count_cons a arrays v :
  contribution_count (a :: arrays) v
  = if decide (at_voxel v a ≠ 0%Qc) then S (contribution_count arrays v)
    else contribution_count arrays v.
Proof.
  unfold contribution_count. rewrite filter_cons. by case_decide.
Qed.

Lemma accumulate_spec E HR inputs : ∀ a m c,
  let n := number_of_voxels (GetSize (sitk HR)) in
  length a = n → length m = n → length c = n →
  ∃ a' m' c',
    foldl (accumulate E HR) (a, m, c) inputs = (a', m', c') ∧
    length a' = n ∧ length m' = n ∧ length c' = n ∧
    ∀ v, (v < n)%nat →
      at_voxel v a'
      = (at_voxel v a + sum_at (resampled_intensity E HR <$> inputs) v)%Qc ∧
      at_voxel v m'
      = (at_voxel v m + sum_at (resampled_mask E HR <$> inputs) v)%Qc ∧
      at_voxel v c'
      = (at_voxel v c
         + Qc_of_nat (contribution_count (resampled_intensity E HR <$> inputs) v))%Qc.
Proof.
  induction inputs as [|p inputs IH]; intros a m c n Ha Hm Hc.
  - exists a, m, c. split_and!; try done. intros v Hv.
    unfold sum_at, contribution_count. simpl. rewrite Qc_of_nat_0.
    split_and!; ring.
  - change (foldl (accumulate E HR) (a, m, c) (p :: inputs))
      with (foldl (accumulate E HR)
              (np_add a (resampled_intensity E HR p),
               np_add m (resampled_mask E HR p),
               np_count_nonzero c (resampled_intensity E HR p)) inputs).
    pose proof (length_resampled_intensity E HR p) as Hi.
    pose proof (length_resampled_mask E HR p) as Hk.
    fold n in Hi, Hk.
    destruct (IH (np_add a (resampled_intensity E HR p))
                 (np_add m (resampled_mask E HR p))
                 (np_count_nonzero c (resampled_intensity E HR p)))
      as (a' & m' & c' & Heq & Ha' & Hm' & Hc' & Hvox).
    { unfold np_add. rewrite length_zip_with. fold n. lia. }
    { unfold np_add. rewrite length_zip_with. fold n. lia. }
    { unfold np_count_nonzero. rewrite length_zip_with. fold n. lia. }
    exists a', m', c'. split_and!; try done. intros v Hv.
    destruct (Hvox v Hv) as (-> & -> & ->).
    unfold np_add, np_count_nonzero.
    rewrite !(at_voxel_zip_with _ _ _ v n) by done.
    rewrite !fmap_cons, !sum_at_cons, contribution_count_cons.
    split_and!; [ring|ring|].
    destruct (decide (at_voxel v (resampled_intensity E HR p) ≠ 0%Qc)).
    + rewrite Qc_of_nat_S. ring.
    + ring.
Qed.

Lemma averaging_inputs_refs o w inputs :
  averaging_inputs o w = Some inputs →
  ∃ refs, working_stack_refs o = Some refs ∧
    Forall2 (λ i p, (l ← refs !! i; st ← stack_heap w !! l;
                     T ← FE._rigid_registrations o !! i; Some (st, T)) = Some p)
            (range (FE._N_stacks o)) inputs.
Proof.
  unfold averaging_inputs. destruct (working_stack_refs o) as [refs|]; [|done].
  simpl. intros H. exists refs. split; [done|]. by apply mapM_Some_1.
Qed.

Lemma image_from_array_like_ok {T} array size src (s : T) :
  GetSize src = size →
  image_from_array_like array size src s
  = (Ok {| grid := grid src; GetPixelIDValue := sitkFloat64; voxels := array |}, s).
Proof.
  intros <-. unfold image_from_array_like. rewrite decide_True by done.
  unfold ret, GetSize, GetSpacing, GetOrigin, GetDirection.
  by destruct src as [[] ? ?].
Qed.

Lemma run_averaging_ok E o w HR inputs :
  stack_heap w !! FE._HR_volume o = Some HR →
  GetSize (sitk_mask HR) = GetSize (sitk HR) →
  averaging_inputs o w = Some inputs →
  let n := number_of_voxels (GetSize (sitk HR)) in
  FE._run_averaging E (o, w)
  = (Ok tt,
     (o, with_stack_heap
           (<[FE._HR_volume o :=
                averaged_volume HR
                  (foldl (accumulate E HR) (np_zeros n, np_zeros n, np_zeros n)
                     inputs)]> (stack_heap w)) w)).
Proof.
  intros HHR Hsize Hin n.
  apply averaging_inputs_refs in Hin as (refs & Hrefs & HF).
  unfold FE._run_averaging. py_step. simpl. py_step.
  erewrite bind_ok by (by apply working_stacks_ok). cbv beta.
  py_step. simpl.
  erewrite bind_ok by (by apply (averaging_loop E o w HR refs)). cbv beta.
  fold n.
  destruct (foldl (accumulate E HR) (np_zeros n, np_zeros n, np_zeros n) inputs)
    as [[a m] c].
  erewrite bind_ok by (by apply image_from_array_like_ok). cbv beta.
  py_step.
  erewrite bind_ok; cycle 1.
  { apply lift_deref_stack_ok. simpl. apply list_lookup_insert_eq.
    by eapply lookup_lt_Some. }
  cbv beta.
  erewrite bind_ok by (by apply image_from_array_like_ok). cbv beta.
  rewrite lift_store_stack_ok. simpl.
  by rewrite list_insert_insert_eq.
Qed.

Lemma sum_at_nonneg arrays v :
  (∀ a, a ∈ arrays → (0 ≤ at_voxel v a)%Qc) → (0 ≤ sum_at arrays v)%Qc.
Proof.
  induction arrays as [|a arrays IH]; intros H.
  - unfold sum_at. simpl. apply Qcle_refl.
  - rewrite sum_at_cons.
    replace 0%Qc with (0 + 0)%Qc by ring.
    apply Qcplus_le_compat.
    + apply H. apply elem_of_cons. by left.
    + apply IH. intros b Hb. apply H. apply elem_of_cons. by right.
Qed.

Lemma sum_at_no_contribution arrays v :
  contribution_count arrays v = 0%nat → sum_at arrays v = 0%Qc.
Proof.
  induction arrays as [|a arrays IH]; [done|].
  rewrite contribution_count_cons, sum_at_cons.
  destruct (decide (at_voxel v a ≠ 0%Qc)) as [|Hz]; [done|].
  intros H. rewrite (IH H).
  destruct (decide (at_voxel v a = 0%Qc)) as [->|]; [ring|done].
Qed.

Lemma Qc_of_nat_max_1 cnt :
  (if decide (Qc_of_nat cnt = 0%Qc) then 1%Qc else Qc_of_nat cnt)
  = Qc_of_nat (cnt `max` 1).
Proof.
  case_decide as H.
  - apply Qc_of_nat_eq_0 in H as ->. by apply Qc_is_canon.
  - destruct cnt; [by rewrite Qc_of_nat_0 in H|].
    by replace (S cnt `max` 1)%nat with (S cnt) by lia.
Qed.

(** C1, as the code has it. A run of the averaging over N stacks, the HR
    volume and the N stacks and rigid registrations being there and the
    masks being nonnegative as binary masks are, returns and replaces the
    image and the mask of the HR volume, on the grids they had, leaving
    every other object as it was. At each voxel the new mask is 1 where the
    sum of the resampled masks is positive and 0 elsewhere; the new
    intensity is there the sum of the resampled intensities divided by the
    number of stacks whose resampled intensity is nonzero (by 1 when there
    is none), and 0 where the new mask is 0. A voxel to which no stack
    contributes a nonzero intensity has intensity 0; its mask is the union
    of the masks like that of any voxel. *)
Theorem averaging_is_counted_average_over_union_mask E o w HR inputs :
  stack_heap w !! FE._HR_volume o = Some HR →
  GetSize (sitk_mask HR) = GetSize (sitk HR) →
  averaging_inputs o w = Some inputs →
  let n := number_of_voxels (GetSize (sitk HR)) in
  let intensities := resampled_intensity E HR <$> inputs in
  let masks := resampled_mask E HR <$> inputs in
  (∀ m v, m ∈ masks → (0 ≤ at_voxel v m)%Qc) →
  ∃ w' HR',
    FE._run_averaging E (o, w) = (Ok tt, (o, w')) ∧
    stack_heap w' = <[FE._HR_volume o := HR']> (stack_heap w) ∧
    slice_heap w' = slice_heap w ∧
    grid (sitk HR') = grid (sitk HR) ∧
    grid (sitk_mask HR') = grid (sitk_mask HR) ∧
    ∀ v, (v < n)%nat →
      voxels (sitk_mask HR') !! v
      = Some (if union_mask masks v then 1%Qc else 0%Qc) ∧
      voxels (sitk HR') !! v
      = Some (if union_mask masks v then counted_average intensities v
              else 0%Qc) ∧
      (contribution_count intensities v = 0%nat →
       voxels (sitk HR') !! v = Some 0%Qc).
Proof.
  intros HHR Hsize Hin n intensities masks Hnonneg.
  destruct (accumulate_spec E HR inputs (np_zeros n) (np_zeros n) (np_zeros n))
    as (a & m & c & Heq & Ha & Hm & Hc & Hvox);
    [by apply length_replicate..|].
  fold n in Ha, Hm, Hc, Hvox. fold intensities masks in Hvox.
  pose proof (run_averaging_ok E o w HR inputs HHR Hsize Hin) as Hrun.
  cbv zeta in Hrun. fold n in Hrun. rewrite Heq in Hrun.
  eexists. exists (averaged_volume HR (a, m, c)).
  split; [exact Hrun|].
  split_and!; try done.
  intros v Hv. destruct (Hvox v Hv) as (Hav & Hmv & Hcv).
  rewrite at_voxel_zeros in Hav, Hmv, Hcv.
  rewrite Qcplus_0_l in Hav, Hmv, Hcv.
  unfold averaged_volume; simpl.
  set (ind := np_zero_to_one c).
  set (mask := np_positive_to_one m).
  set (avg := np_divide a ind).
  assert (Hlind : length ind = n) by (unfold ind, np_zero_to_one; by rewrite length_map).
  assert (Hlmask : length mask = n)
    by (unfold mask, np_positive_to_one; by rewrite length_map).
  assert (Hlavg : length avg = n)
    by (unfold avg, np_divide; rewrite length_zip_with; lia).
  assert (Hmask : at_voxel v mask = if union_mask masks v then 1%Qc else 0%Qc).
  { unfold mask, np_positive_to_one. rewrite (at_voxel_map _ _ v n) by done.
    rewrite Hmv. unfold union_mask.
    destruct (decide (0 < sum_at masks v)%Qc) as [Hpos|Hnpos].
    - by rewrite bool_decide_eq_true_2.
    - rewrite bool_decide_eq_false_2 by done.
      apply Qcle_antisym; [by apply Qcnot_lt_le|].
      apply sum_at_nonneg. intros k Hk. by apply Hnonneg. }
  assert (Havg : at_voxel v avg = counted_average intensities v).
  { unfold avg, np_divide. rewrite (at_voxel_zip_with _ _ _ v n) by done.
    unfold ind, np_zero_to_one. rewrite (at_voxel_map _ _ v n) by done.
    rewrite Hav, Hcv, Qc_of_nat_max_1. done. }
  assert (Hout : at_voxel v (np_zero_where_zero avg mask)
                 = if union_mask masks v then counted_average intensities v
                   else 0%Qc).
  { unfold np_zero_where_zero. rewrite (at_voxel_zip_with _ _ _ v n) by done.
    rewrite Hmask, Havg. by destruct (union_mask masks v). }
  split_and!.
  - by rewrite (at_voxel_lookup v mask n), Hmask.
  - rewrite (at_voxel_lookup v _ n), Hout; [done| |done].
    unfold np_zero_where_zero. rewrite length_zip_with. lia.
  - intros Hzero.
    rewrite (at_voxel_lookup v _ n), Hout; [| |done].
    + destruct (union_mask masks v); [|done].
      unfold counted_average. rewrite sum_at_no_contribution by done.
      f_equal. unfold Qcdiv. ring.
    + unfold np_zero_where_zero. rewrite length_zip_with. lia.
Qed.

(** ** The volume of the orchestrator and the volume of the solver *)

Section Keeps.
Context {O X : Type} (f : O → X).

Lemma keeps_ret {A} (a : A) : keeps f (ret a).
Proof. by intros s r s' [= <- <-]. Qed.

Lemma keeps_raise {A} e : keeps f (raise (A:=A) e).
Proof. by intros s r s' [= <- <-]. Qed.

Lemma keeps_bind {A B} (m : M (O * World) A) (k : A → M (O * World) B) :
  keeps f m → (∀ a, keeps f (k a)) → keeps f (bind m k).
Proof.
  intros Hm Hk s r s'. unfold bind.
  destruct (m s) as [[a|e] s1] eqn:H1.
  - intros H2. rewrite (Hk a _ _ _ H2). by eapply Hm.
  - intros [= <- <-]. by eapply Hm.
Qed.

Lemma keeps_self_get {A} (g : O → A) : keeps f (self_get g).
Proof. by intros s r s' [= <- <-]. Qed.

Lemma keeps_self_set (upd : O → O) :
  (∀ o, f (upd o) = f o) → keeps f (self_set upd).
Proof. intros H s r s' [= <- <-]. apply H. Qed.

Lemma keeps_lift_world {A} (m : M World A) : keeps f (lift_world m).
Proof.
  intros s r s'. unfold lift_world. destruct (m s.2). by intros [= <- <-].
Qed.

Lemma keeps_getitem_nat {A} (l : list A) i : keeps f (getitem_nat l i).
Proof. unfold getitem_nat. destruct (l !! i); [apply keeps_ret|apply keeps_raise]. Qed.

Lemma keeps_getitem {A} (l : list A) i : keeps f (getitem l i).
Proof. unfold getitem. destruct (py_index l i); [apply keeps_ret|apply keeps_raise]. Qed.

Lemma keeps_setitem_nat {A} (l : list A) i x : keeps f (setitem_nat l i x).
Proof. unfold setitem_nat. case_decide; [apply keeps_ret|apply keeps_raise]. Qed.

Lemma keeps_image_from_array_like a size src :
  keeps f (image_from_array_like a size src).
Proof.
  unfold image_from_array_like. case_decide; [apply keeps_ret|apply keeps_raise].
Qed.

Lemma keeps_for_each {A} (xs : list A) (body : A → M (O * World) unit) :
  (∀ x, keeps f (body x)) → keeps f (for_each xs body).
Proof.
  intros H. induction xs as [|x xs IH]; simpl; [apply keeps_ret|].
  apply keeps_bind; [apply H|]. intros _. apply IH.
Qed.

Lemma keeps_for_fold {A B} (xs : list A) (body : B → A → M (O * World) B) :
  (∀ b x, keeps f (body b x)) → ∀ acc, keeps f (for_fold xs acc body).
Proof.
  intros H. induction xs as [|x xs IH]; intros acc; simpl; [apply keeps_ret|].
  apply keeps_bind; [apply H|]. intros b. apply IH.
Qed.

Lemma keeps_dict_call (d : list (string * M (O * World) unit)) key :
  Forall (λ p, keeps f p.2) d → keeps f (dict_call d key).
Proof.
  induction 1 as [|[k m] d Hm Hd IH]; simpl; [apply keeps_raise|].
  case_decide; [exact Hm|exact IH].
Qed.
End Keeps.

(** Decomposes a method into its statements. *)
Ltac keeps_steps :=
  repeat first
    [ apply keeps_ret | apply keeps_raise | apply keeps_self_get
    | apply keeps_lift_world | apply keeps_getitem_nat | apply keeps_getitem
    | apply keeps_setitem_nat | apply keeps_image_from_array_like
    | apply keeps_bind; [|intros ?]
    | apply keeps_for_each; intros ?
    | apply keeps_for_fold; intros ? ?
    | match goal with |- keeps _ (if ?b then _ else _) => destruct b end
    | match goal with |- keeps _ (match ?x with _ => _ end) => destruct x end
    | match goal with
      | |- keeps _ (match ?x with _ => _ end _) => destruct x; cbv beta iota
      end
    | apply keeps_self_set; intros []; reflexivity ].

Lemma keeps_update_slice_transformations :
  keeps volume_and_solver FE._update_slice_transformations.
Proof.
  unfold FE._update_slice_transformations, FE.update_slice. keeps_steps.
Qed.

Lemma keeps_working_stacks : keeps volume_and_solver FE.working_stacks.
Proof.
  unfold FE.working_stacks, FE.the_in_plane_rigid_registration. keeps_steps.
Qed.

Lemma keeps_rigidly_register E :
  keeps volume_and_solver (FE._rigidly_register_all_stacks_to_HR_volume E).
Proof.
  unfold FE._rigidly_register_all_stacks_to_HR_volume,
    FE._get_rigid_registration_transform_3D_sitk.
  apply keeps_bind; [apply keeps_working_stacks|]. intros refs.
  apply keeps_bind; [apply keeps_self_get|]. intros N.
  apply keeps_bind; [|intros _; apply keeps_update_slice_transformations].
  keeps_steps.
Qed.

Lemma keeps_run_averaging E : keeps volume_and_solver (FE._run_averaging E).
Proof.
  unfold FE._run_averaging.
  apply keeps_bind; [apply keeps_self_get|]. intros hr.
  apply keeps_bind; [apply keeps_lift_world|]. intros HR.
  apply keeps_bind; [apply keeps_working_stacks|]. intros refs.
  keeps_steps.
Qed.

Lemma keeps_run_SDA E : keeps volume_and_solver (FE._run_SDA E).
Proof. unfold FE._run_SDA. keeps_steps. Qed.

Lemma alloc_stacks_grows ss : ∀ w r w',
  alloc_stacks ss w = (r, w') →
  (length (stack_heap w) ≤ length (stack_heap w'))%nat.
Proof.
  induction ss as [|s ss IH]; intros w r w'; simpl.
  - by intros [= _ <-].
  - unfold bind at 1, alloc_stack at 1. unfold bind at 1.
    destruct (alloc_stacks ss _) as [[ls|e] w1] eqn:H; intros [= _ <-];
      apply IH in H; simpl in H; rewrite length_app in H; simpl in H; lia.
Qed.

(** The in-plane flag being set, a first estimate that returns has bound
    [self._HR_volume] to a Volume made during the run, whereas the SDA
    solver is the one of before the run, with the Volume it held then: the
    Volume [get_HR_volume] returns is not the one the SDA strategy writes
    into. *)
Lemma in_plane_estimate_rebinds_the_volume_only E o w o' w' :
  FE._flag_use_in_plane_rigid_registration_for_initial_volume_estimate o = true →
  (sda_HR_volume (FE._SDA o) < length (stack_heap w))%nat →
  FE.compute_first_estimate_of_HR_volume E (o, w) = (Ok tt, (o', w')) →
  FE._SDA o' = FE._SDA o ∧
  (length (stack_heap w) ≤ FE._HR_volume o')%nat ∧
  FE._HR_volume o' ≠ sda_HR_volume (FE._SDA o').
Proof.
  intros Hflag Hlive Hrun.
  enough (FE._SDA o' = FE._SDA o ∧ (length (stack_heap w) ≤ FE._HR_volume o')%nat)
    as [HS Hle] by (split_and!; [done..|rewrite HS; lia]).
  unfold FE.compute_first_estimate_of_HR_volume in Hrun.
  apply bind_inv_ok in Hrun as (flag & s0 & [= <- <-] & Hrun). simpl in Hrun.
  rewrite Hflag in Hrun.
  apply bind_inv_ok in Hrun as ([] & [o1 w1] & Hpre & Hrest).
  assert (FE._SDA o1 = FE._SDA o ∧ (length (stack_heap w) ≤ FE._HR_volume o1)%nat)
    as [HS1 Hle1].
  { apply bind_inv_ok in Hpre as (sm & s1 & [= <- <-] & Hpre). simpl in Hpre.
    apply bind_inv_ok in Hpre as ([] & s1 & [= <-] & Hpre). simpl in Hpre.
    apply bind_inv_ok in Hpre as (ip & s1 & Hip & Hpre).
    assert (s1 = (FE.set__in_plane_rigid_registration
                    (Some (iprr_new (FE._stack_manager o))) o, w)) as ->.
    { revert Hip. unfold FE.the_in_plane_rigid_registration, bind, self_get. simpl.
      destruct o; simpl. by intros [= _ <-]. }
    apply bind_inv_ok in Hpre as (ip' & [o2 w2] & Hrunip & Hpre).
    assert (o2 = FE.set__in_plane_rigid_registration
                   (Some (iprr_new (FE._stack_manager o))) o
            ∧ (length (stack_heap w) ≤ length (stack_heap w2))%nat) as [-> Hw2].
    { revert Hrunip. unfold lift_world, run_in_plane_rigid_registration. simpl.
      unfold bind at 1, get at 1. unfold bind at 1.
      destruct (alloc_stacks _ w) as [[ls|e] w3] eqn:Hal; intros [= _ <- <-];
        (split; [done|]); by eapply alloc_stacks_grows. }
    apply bind_inv_ok in Hpre as ([] & s3 & [= <-] & Hpre). simpl in Hpre.
    apply bind_inv_ok in Hpre as (ip'' & s3 & Hip' & Hpre).
    assert (s3.2 = w2 ∧ FE._SDA s3.1 = FE._SDA o) as [Hs3w Hs3S].
    { revert Hip'. unfold FE.the_in_plane_rigid_registration, bind, self_get. simpl.
      destruct o; simpl. by intros [= _ <-]. }
    apply bind_inv_ok in Hpre as (t & s4 & [= <- <-] & Hpre).
    apply bind_inv_ok in Hpre as (target & s4 & Hget & Hpre).
    assert (s4 = s3) as ->.
    { revert Hget. unfold getitem. destruct (py_index _ _); by intros [= _ <-]. }
    apply bind_inv_ok in Hpre as (hr & s5 & Hbuild & Hpre).
    injection Hpre as <- <-.
    unfold FE._get_isotropically_resampled_stack in Hbuild.
    apply bind_inv_ok in Hbuild as (name & s6 & [= <- <-] & Hbuild).
    unfold lift_world in Hbuild.
    destruct (FE.isotropically_resampled_stack E _ target s3.2) as [r w5] eqn:Hiso.
    injection Hbuild as -> <-.
    apply isotropically_resampled_stack_fresh in Hiso as ->.
    rewrite Hs3w. simpl. destruct s3 as [[] ?]; simpl in *. by split. }
  assert (volume_and_solver o' = volume_and_solver o1) as Hkeep.
  { enough (keeps volume_and_solver
      (flag <- self_get FE._flag_register_stacks_before_initial_volume_estimate ;;
       (if (flag : bool) then FE._rigidly_register_all_stacks_to_HR_volume E
        else ret tt) ;;
       recon_approach <- self_get FE._recon_approach ;;
       dict_call (FE._update_HR_volume_estimate E) recon_approach)) as Hk
      by exact (Hk _ _ _ Hrest).
    apply keeps_bind; [apply keeps_self_get|]. intros flag.
    apply keeps_bind.
    { destruct flag; [apply keeps_rigidly_register|apply keeps_ret]. }
    intros _. apply keeps_bind; [apply keeps_self_get|]. intros key.
    apply keeps_dict_call. repeat constructor.
    - apply keeps_run_SDA.
    - apply keeps_run_averaging. }
  injection Hkeep as -> ->. by split.
Qed.

(** ** What the first estimate leaves as it was *)

Section FrameLemmas.
Context (E : Env) (o0 : FE.FirstEstimateOfHRVolume) (w0 : World) (V : list loc).
Hypothesis Hlive : Forall (λ l, l < length (stack_heap w0))%nat (FE._stacks o0).
Hypothesis HV : sda_HR_volume (FE._SDA o0) ∈ V.

Lemma frame_inv_refl : frame_inv o0 w0 V (o0, w0).
Proof. split; simpl; eauto. Qed.

Lemma frame_inv_receiver o1 o2 w :
  frame_inv o0 w0 V (o1, w) →
  FE._stacks o2 = FE._stacks o1 → FE._SDA o2 = FE._SDA o1 →
  FE._flag_register_stacks_before_initial_volume_estimate o2
  = FE._flag_register_stacks_before_initial_volume_estimate o1 →
  frame_inv o0 w0 V (o2, w).
Proof.
  intros [] H1 H2 H3. split; simpl in *; try done; congruence.
Qed.

Lemma frame_inv_alloc o w new :
  frame_inv o0 w0 V (o, w) →
  frame_inv o0 w0 V (o, with_stack_heap (stack_heap w ++ new) w).
Proof.
  intros [H1 H2 H3 H4 H5 H6 H7]. split; simpl in *; try done.
  - rewrite length_app. lia.
  - intros l st Hl. destruct (H5 l st Hl) as (st' & Hst' & Hs).
    exists st'. split; [|done]. by apply lookup_app_l_Some.
Qed.

Lemma frame_inv_store_volume o w l st :
  frame_inv o0 w0 V (o, w) → writable w0 V l →
  (∀ st0, stack_heap w0 !! l = Some st0 → _slices st = _slices st0) →
  frame_inv o0 w0 V (o, with_stack_heap (<[l:=st]> (stack_heap w)) w).
Proof.
  intros [H1 H2 H3 H4 H5 H6 H7] Hw Hsl. split; simpl in *; try done.
  - by rewrite length_insert.
  - intros l0 st0 Hl0. destruct (H5 l0 st0 Hl0) as (st' & Hst' & Hs & Heq).
    destruct (decide (l0 = l)) as [->|Hne].
    + exists st. split; [|split].
      * apply list_lookup_insert_eq. by eapply lookup_lt_Some.
      * by apply Hsl.
      * intros HnV. destruct Hw as [?|Hge]; [done|].
        apply lookup_lt_Some in Hl0. lia.
    + exists st'. split; [|done]. by rewrite list_lookup_insert_ne.
Qed.

Lemma frame_inv_store_slice o w sl x :
  frame_inv o0 w0 V (o, w) →
  FE._flag_register_stacks_before_initial_volume_estimate o0 = true →
  owned_slice o0 w0 sl →
  frame_inv o0 w0 V (o, with_slice_heap (<[sl:=x]> (slice_heap w)) w).
Proof.
  intros [H1 H2 H3 H4 H5 H6 H7] Hf Ho. split; simpl in *; try done.
  - by rewrite length_insert.
  - intros sl' Hn. rewrite list_lookup_insert_ne; [by apply H7|].
    intros ->. by apply Hn.
Qed.

(** A Stack object read in a state that has kept the frame has the slices
    it had at the start. *)
Lemma frame_inv_compat s l st :
  frame_inv o0 w0 V s → stack_heap s.2 !! l = Some st →
  ∀ st0, stack_heap w0 !! l = Some st0 → _slices st = _slices st0.
Proof.
  intros [_ _ _ _ H5 _ _] Hst st0 Hl0.
  destruct (H5 l st0 Hl0) as (st' & Hst' & Hs & _). congruence.
Qed.

Lemma frame_inv_owned s l st sl :
  frame_inv o0 w0 V s →
  l ∈ FE._stacks s.1 → stack_heap s.2 !! l = Some st → sl ∈ _slices st →
  owned_slice o0 w0 sl.
Proof.
  intros HF Hl Hst Hsl. rewrite (fi_stacks _ _ _ _ HF) in Hl.
  rewrite list.Forall_forall in Hlive. specialize (Hlive l Hl).
  apply lookup_lt_is_Some_2 in Hlive as [st0 Hst0].
  exists l, st0. split; [done|]. split; [done|].
  by rewrite <- (frame_inv_compat s l st HF Hst st0 Hst0).
Qed.

Lemma frame_inv_vol_receiver o1 o2 w :
  frame_inv_vol o0 w0 V (o1, w) →
  FE._stacks o2 = FE._stacks o1 → FE._SDA o2 = FE._SDA o1 →
  FE._flag_register_stacks_before_initial_volume_estimate o2
  = FE._flag_register_stacks_before_initial_volume_estimate o1 →
  FE._HR_volume o2 = FE._HR_volume o1 →
  frame_inv_vol o0 w0 V (o2, w).
Proof.
  intros [HF Hw] H1 H2 H3 H4. split; [by eapply frame_inv_receiver|].
  simpl in *. by rewrite H4.
Qed.

(** The loop of the rigid registrations. *)
Lemma keeps_frame_register_loop refs idx :
  keeps_frame o0 w0 V
    (for_each idx (λ i,
       stack_i <- getitem_nat refs i ;;
       HR_volume <- self_get FE._HR_volume ;;
       T <- FE._get_rigid_registration_transform_3D_sitk E stack_i HR_volume ;;
       rigid_registrations <- self_get FE._rigid_registrations ;;
       rigid_registrations <- setitem_nat rigid_registrations i T ;;
       self_set (FE.set__rigid_registrations rigid_registrations))).
Proof.
  intros s HI. apply (wp_for_each (frame_inv_vol o0 w0 V)); [done| |done].
  clear s HI. intros i s _ HI.
  apply wp_bind, wp_getitem_nat; [done|]. intros l _.
  apply wp_bind, wp_self_get.
  apply wp_bind, wp_pure;
    [apply pure_get_rigid_registration_transform|done|]. intros T _.
  apply wp_bind, wp_self_get.
  apply wp_bind, wp_setitem_nat; [done|].
  apply wp_self_set. destruct s as [o w].
  apply (frame_inv_vol_receiver o); [done|by destruct o..].
Qed.

(** The propagation to the slices. *)
Lemma keeps_frame_update_slice_transformations :
  FE._flag_register_stacks_before_initial_volume_estimate o0 = true →
  keeps_frame o0 w0 V FE._update_slice_transformations.
Proof.
  intros Hflag s HI. unfold FE._update_slice_transformations.
  apply wp_bind, wp_self_get.
  apply (wp_for_each (frame_inv_vol o0 w0 V)); [done| |done].
  intros i s1 _ HI1.
  apply wp_bind, wp_self_get.
  apply wp_bind, wp_getitem_nat; [done|]. intros l Hl.
  apply list_elem_of_lookup_2 in Hl.
  apply wp_bind, wp_self_get.
  apply wp_bind, wp_getitem_nat; [done|]. intros T _.
  apply wp_bind, wp_deref_stack; [done|]. intros st Hst.
  assert (Hown : ∀ sl, sl ∈ _slices st → owned_slice o0 w0 sl).
  { intros sl Hsl. destruct HI1 as [HF _]. by eapply frame_inv_owned. }
  apply (wp_for_each (frame_inv_vol o0 w0 V)); [done| |done].
  intros j s2 _ HI2.
  apply wp_bind, wp_getitem_nat; [done|]. intros sl Hsl.
  apply list_elem_of_lookup_2 in Hsl.
  unfold FE.update_slice.
  apply wp_bind, wp_deref_slice; [done|]. intros x _.
  apply wp_store_slice. destruct s2 as [o w], HI2 as [HF Hw].
  split; [|done]. apply frame_inv_store_slice; auto.
Qed.

Lemma keeps_frame_rigidly_register :
  FE._flag_register_stacks_before_initial_volume_estimate o0 = true →
  keeps_frame o0 w0 V (FE._rigidly_register_all_stacks_to_HR_volume E).
Proof.
  intros Hflag s HI. unfold FE._rigidly_register_all_stacks_to_HR_volume.
  apply wp_bind, wp_pure; [apply pure_working_stacks|done|]. intros refs _.
  apply wp_bind, wp_self_get.
  apply wp_bind.
  apply (wp_mono _ _ _ _ _ _ (keeps_frame_register_loop refs _ s HI)); [|done].
  intros _ s1 HI1. by apply keeps_frame_update_slice_transformations.
Qed.

Lemma sda_run_reconstruction_eq o w :
  sda_run_reconstruction E o w
  = match stack_heap w !! sda_HR_volume o with
    | Some vol =>
        (Ok tt, with_stack_heap
                  (<[sda_HR_volume o := set_sitk (sda_kernel E w o) vol]>
                     (stack_heap w)) w)
    | None => (Raise RuntimeError, w)
    end.
Proof.
  unfold sda_run_reconstruction, bind, deref_stack.
  by destruct (stack_heap w !! sda_HR_volume o).
Qed.

(** The SDA strategy writes into the volume its solver holds. *)
Lemma keeps_frame_run_SDA : keeps_frame o0 w0 V (FE._run_SDA E).
Proof.
  intros s HI. unfold FE._run_SDA. apply wp_bind, wp_self_get.
  unfold wp, lift_world. rewrite sda_run_reconstruction_eq.
  destruct s as [o w], HI as [HF Hw]. simpl in *.
  destruct (stack_heap w !! sda_HR_volume (FE._SDA o)) as [vol|] eqn:Hvol;
    [|by split].
  split; [|done]. apply frame_inv_store_volume; [done| |].
  - left. pose proof (fi_SDA _ _ _ _ HF) as HS. simpl in HS. by rewrite HS.
  - intros st0 Hst0. simpl. by apply (frame_inv_compat (o, w) _ vol HF Hvol).
Qed.

(** The averaging writes into the volume of the orchestrator. *)
Lemma keeps_frame_run_averaging : keeps_frame o0 w0 V (FE._run_averaging E).
Proof.
  intros s HI. unfold FE._run_averaging.
  apply wp_bind, wp_self_get.
  apply wp_bind, wp_deref_stack; [done|]. intros HR HHR.
  apply wp_bind, wp_pure; [apply pure_working_stacks|done|]. intros refs _.
  apply wp_bind, wp_self_get.
  apply wp_bind, wp_pure; [|done|].
  { apply pure_for_fold. intros [[a m] c] i.
    apply pure_bind; [apply pure_getitem_nat|]. intros l.
    apply pure_bind; [apply pure_lift_deref_stack|]. intros st.
    apply pure_bind; [apply pure_self_get|]. intros regs.
    apply pure_bind; [apply pure_getitem_nat|]. intros T.
    apply pure_ret. }
  intros [[a m] c] _.
  apply wp_bind, wp_pure; [apply pure_image_from_array_like|done|].
  intros helper _.
  destruct s as [o w], HI as [HF Hw]. simpl in *.
  apply wp_bind, wp_store_stack. simpl.
  assert (HF1 : frame_inv o0 w0 V
                  (o, with_stack_heap
                        (<[FE._HR_volume o := set_sitk helper HR]> (stack_heap w)) w)).
  { apply frame_inv_store_volume; [done|done|].
    intros st0 Hst0. simpl. by apply (frame_inv_compat (o, w) _ HR HF HHR). }
  apply wp_bind, wp_deref_stack; [by split|]. intros HR1 HHR1.
  apply wp_bind, wp_pure; [apply pure_image_from_array_like|by split|].
  intros helper1 _.
  apply wp_store_stack. simpl. split; [|done].
  apply (frame_inv_store_volume o _ _ _ HF1); [done|].
  intros st0 Hst0. simpl. by apply (frame_inv_compat _ _ HR1 HF1 HHR1).
Qed.

(** The registration, if asked for, and the strategy. *)
Lemma keeps_frame_register_and_estimate :
  keeps_frame o0 w0 V
    (flag <- self_get FE._flag_register_stacks_before_initial_volume_estimate ;;
     (if (flag : bool) then FE._rigidly_register_all_stacks_to_HR_volume E
      else ret tt) ;;
     recon_approach <- self_get FE._recon_approach ;;
     dict_call (FE._update_HR_volume_estimate E) recon_approach).
Proof.
  intros s HI. apply wp_bind, wp_self_get. apply wp_bind.
  assert (wp (if FE._flag_register_stacks_before_initial_volume_estimate s.1
              then FE._rigidly_register_all_stacks_to_HR_volume E else ret tt)
            (λ _, frame_inv_vol o0 w0 V) (frame_inv_vol o0 w0 V) s) as Hreg.
  { destruct (FE._flag_register_stacks_before_initial_volume_estimate s.1) eqn:Hf;
      [|done].
    apply keeps_frame_rigidly_register; [|done].
    destruct HI as [HF _]. pose proof (fi_flag _ _ _ _ HF) as Hfl. congruence. }
  apply (wp_mono _ _ _ _ _ _ Hreg); [|done].
  intros _ s1 HI1. apply wp_bind, wp_self_get.
  apply wp_dict_call; [done|].
  repeat constructor; simpl;
    [by apply keeps_frame_run_SDA|by apply keeps_frame_run_averaging].
Qed.
End FrameLemmas.

(** ** The first estimate, step by step *)

Lemma run_in_plane_rigid_registration_ok E ip w :
  run_in_plane_rigid_registration E ip w
  = (Ok {| iprr_stack_manager := iprr_stack_manager ip;
           iprr_resampled_planarly_aligned_stacks :=
             seq (length (stack_heap w))
                 (length (in_plane_kernel E w (iprr_stack_manager ip))) |},
     with_stack_heap
       (stack_heap w ++ in_plane_kernel E w (iprr_stack_manager ip)) w).
Proof.
  unfold run_in_plane_rigid_registration, bind, get. by rewrite alloc_stacks_ok.
Qed.

Lemma the_in_plane_rigid_registration_ok ip o w :
  FE.the_in_plane_rigid_registration
    (FE.set__in_plane_rigid_registration (Some ip) o, w)
  = (Ok ip, (FE.set__in_plane_rigid_registration (Some ip) o, w)).
Proof. by destruct o. Qed.

(** The in-plane step: it makes the copies and the new volume, to which it
    binds [self._HR_volume], and touches nothing of what the store holds,
    the copies once made included. *)
Lemma wp_in_plane_step E o w V :
  wp (stack_manager <- self_get FE._stack_manager ;;
      self_set (FE.set__in_plane_rigid_registration
                  (Some (iprr_new stack_manager))) ;;
      ip <- FE.the_in_plane_rigid_registration ;;
      ip <- lift_world (run_in_plane_rigid_registration E ip) ;;
      self_set (FE.set__in_plane_rigid_registration (Some ip)) ;;
      ip <- FE.the_in_plane_rigid_registration ;;
      let stacks := get_resampled_planarly_aligned_stacks ip in
      target_stack_number <- self_get FE._target_stack_number ;;
      target <- getitem stacks target_stack_number ;;
      HR_volume <- FE._get_isotropically_resampled_stack E target ;;
      self_set (FE.set__HR_volume HR_volume))
     (λ _, frame_inv_vol o (with_in_plane_copies E o w) V)
     (frame_inv o (with_in_plane_copies E o w) V) (o, w).
Proof.
  apply wp_bind, wp_self_get. apply wp_bind, wp_self_set. simpl.
  apply wp_bind. unfold wp at 1. rewrite the_in_plane_rigid_registration_ok.
  apply wp_bind, wp_lift_world. unfold wp at 1.
  rewrite run_in_plane_rigid_registration_ok. simpl.
  fold (with_in_plane_copies E o w).
  set (w1 := with_in_plane_copies E o w).
  set (o1 := FE.set__in_plane_rigid_registration _ o).
  apply wp_bind, wp_self_set. simpl.
  set (o2 := FE.set__in_plane_rigid_registration _ o1).
  assert (HF : frame_inv o w1 V (o2, w1)).
  { apply (frame_inv_receiver o w1 V o); [apply frame_inv_refl|by destruct o..]. }
  apply wp_bind, wp_pure; [apply pure_the_in_plane_rigid_registration|done|].
  intros ip' _. cbv zeta.
  apply wp_bind, wp_self_get.
  apply wp_bind, wp_getitem; [done|]. intros target _.
  apply wp_bind. unfold FE._get_isotropically_resampled_stack.
  apply wp_bind, wp_self_get. apply wp_lift_world. unfold wp at 1. simpl.
  destruct (FE.isotropically_resampled_stack E _ target w1) as [r w2] eqn:Hb.
  apply isotropically_resampled_stack_outcome in Hb
    as [[-> [e ->]]|(image & mask & -> & ->)]; [done|].
  apply wp_self_set. simpl. split.
  - apply (frame_inv_receiver o w1 V o2); [|by destruct o..].
    exact (frame_inv_alloc o w1 V o2 w1 [_] HF).
  - right. replace (FE._HR_volume _) with (length (stack_heap w1))
      by (by destruct o).
    done.
Qed.

(** The store the first estimate starts to write from: the given one, with
    the in-plane copies when the in-plane flag is set. *)
Lemma wp_compute_first_estimate E o w :
  Forall (λ l, l < length (stack_heap w))%nat (FE._stacks o) →
  let base :=
    if FE._flag_use_in_plane_rigid_registration_for_initial_volume_estimate o
    then with_in_plane_copies E o w else w in
  wp (FE.compute_first_estimate_of_HR_volume E)
     (λ _, frame_inv o base (estimate_volumes o))
     (frame_inv o base (estimate_volumes o)) (o, w).
Proof.
  intros Hlive base.
  assert (HV : sda_HR_volume (FE._SDA o) ∈ estimate_volumes o).
  { unfold estimate_volumes.
    destruct (FE._flag_use_in_plane_rigid_registration_for_initial_volume_estimate o);
      [apply list_elem_of_here|apply list_elem_of_further, list_elem_of_here]. }
  assert (Hlive' : Forall (λ l, l < length (stack_heap base))%nat (FE._stacks o)).
  { eapply List.Forall_impl; [|exact Hlive]. intros l Hl. simpl in Hl. unfold base.
    destruct (FE._flag_use_in_plane_rigid_registration_for_initial_volume_estimate o);
      [|done].
    unfold with_in_plane_copies. simpl. rewrite length_app. lia. }
  unfold FE.compute_first_estimate_of_HR_volume.
  apply wp_bind, wp_self_get. simpl. apply wp_bind.
  match goal with
  | |- wp ?m _ _ _ =>
      assert (wp m (λ _, frame_inv_vol o base (estimate_volumes o))
                (frame_inv o base (estimate_volumes o)) (o, w)) as Hpre; cycle 1
  end.
  { apply (wp_mono _ _ _ _ _ _ Hpre); [|done].
    intros _ s1 HI1.
    apply (wp_mono _ (λ _, frame_inv_vol o base (estimate_volumes o))
                     _ (frame_inv_vol o base (estimate_volumes o)));
      [by apply keeps_frame_register_and_estimate
      |by intros _ ? []|by intros ? []]. }
  unfold base.
  destruct (FE._flag_use_in_plane_rigid_registration_for_initial_volume_estimate o)
    eqn:Hf.
  - apply wp_in_plane_step.
  - apply wp_ret. split; [apply frame_inv_refl|]. left. simpl.
    unfold estimate_volumes. rewrite Hf. apply list_elem_of_here.
Qed.

(** What a first estimate leaves as it was, whether it returns or raises. *)
Lemma first_estimate_frame E o w r o' w' :
  Forall (λ l, l < length (stack_heap w))%nat (FE._stacks o) →
  (sda_HR_volume (FE._SDA o) < length (stack_heap w))%nat →
  FE.compute_first_estimate_of_HR_volume E (o, w) = (r, (o', w')) →
  FE._stacks o' = FE._stacks o ∧
  (∀ l st, stack_heap w !! l = Some st →
     ∃ st', stack_heap w' !! l = Some st' ∧ _slices st' = _slices st ∧
       (l ≠ sda_HR_volume (FE._SDA o) →
        FE._flag_use_in_plane_rigid_registration_for_initial_volume_estimate o = true
        ∨ l ≠ FE._HR_volume o →
        st' = st)) ∧
  (FE._flag_use_in_plane_rigid_registration_for_initial_volume_estimate o = true →
   ∀ i copy, in_plane_kernel E w (FE._stack_manager o) !! i = Some copy →
     stack_heap w' !! (length (stack_heap w) + i)%nat = Some copy) ∧
  length (slice_heap w') = length (slice_heap w) ∧
  (∀ sl,
     (FE._flag_register_stacks_before_initial_volume_estimate o = true →
      ∀ l st, l ∈ FE._stacks o → stack_heap w !! l = Some st →
              sl ∉ _slices st) →
     slice_heap w' !! sl = slice_heap w !! sl).
Proof.
  intros Hlive Hsda Hrun.
  pose proof (wp_run _ _ _ _ _ _ (wp_compute_first_estimate E o w Hlive) Hrun) as H.
  cbv zeta in H.
  set (base := if FE._flag_use_in_plane_rigid_registration_for_initial_volume_estimate o
               then with_in_plane_copies E o w else w) in *.
  assert (HF : frame_inv o base (estimate_volumes o) (o', w')) by (by destruct r).
  clear H.
  assert (Hbase : ∃ new,
    stack_heap base = stack_heap w ++ new ∧ slice_heap base = slice_heap w ∧
    (FE._flag_use_in_plane_rigid_registration_for_initial_volume_estimate o = true
     → new = in_plane_kernel E w (FE._stack_manager o))).
  { unfold base.
    destruct (FE._flag_use_in_plane_rigid_registration_for_initial_volume_estimate o).
    - by eexists.
    - exists []. by rewrite app_nil_r. }
  destruct Hbase as (new & Hst & Hsl & Hnew).
  destruct HF as [H1 H2 H3 H4 H5 H6 H7]. simpl in *.
  split; [done|]. split; [|split; [|split]].
  - intros l st Hl.
    destruct (H5 l st) as (st' & Hst' & Hs & Heq).
    { rewrite Hst. by apply lookup_app_l_Some. }
    exists st'. split; [done|]. split; [done|]. intros Hne Hhr. apply Heq.
    unfold estimate_volumes.
    destruct (FE._flag_use_in_plane_rigid_registration_for_initial_volume_estimate o).
    + by intros [->|[]%elem_of_nil]%elem_of_cons.
    + destruct Hhr as [?|?]; [done|].
      by intros [->|[->|[]%elem_of_nil]%elem_of_cons]%elem_of_cons.
  - intros Hf i copy Hi.
    destruct (H5 (length (stack_heap w) + i)%nat copy) as (st' & Hst' & _ & Heq).
    { rewrite Hst, (Hnew Hf), lookup_app_r by lia.
      by replace (length (stack_heap w) + i - length (stack_heap w))%nat
        with i by lia. }
    rewrite Hst'. f_equal. apply Heq. unfold estimate_volumes. rewrite Hf.
    intros [Hx|[]%elem_of_nil]%elem_of_cons. lia.
  - by rewrite H6, Hsl.
  - intros sl Hown. rewrite H7, Hsl; [done|].
    intros [Hf (l & st & Hl & Hlst & Hin)].
    apply (Hown Hf l st); [done| |done].
    rewrite list.Forall_forall in Hlive. specialize (Hlive l Hl).
    rewrite Hst in Hlst. by rewrite lookup_app_l in Hlst.
Qed.

(** The methods that configure the orchestrator leave the store alone. *)
Lemma FE_configuration_keeps_the_store :
  (∀ c s, (FE_apply c s).2.2 = s.2) ∧
  (∀ flag s,
     (FE.use_in_plane_registration_for_initial_volume_estimate flag s).2.2 = s.2) ∧
  (∀ flag s,
     (FE.register_stacks_before_initial_volume_estimate flag s).2.2 = s.2).
Proof.
  split; [|done]. intros [v|v|v] s; simpl; [| done |].
  - unfold FE.set_reconstruction_approach. by case_decide.
  - unfold FE.set_SDA_approach. by case_decide.
Qed.

(** The constructor makes the volume and touches nothing else. *)
Lemma FE_init_keeps_the_store E sm name t w r w' :
  FE.__init__ E sm name t w = (r, w') →
  slice_heap w' = slice_heap w ∧ ∃ new, stack_heap w' = stack_heap w ++ new.
Proof.
  unfold FE.__init__, bind, getitem.
  destruct (py_index (get_stacks sm) t) as [l|]; simpl.
  2:{ intros [= _ <-]. split; [done|]. exists []. by rewrite app_nil_r. }
  destruct (FE.isotropically_resampled_stack E name l w) as [r1 w1] eqn:Hb.
  apply isotropically_resampled_stack_outcome in Hb
    as [[-> [e ->]]|(image & mask & -> & ->)]; intros [= _ <-]; simpl.
  - split; [done|]. exists []. by rewrite app_nil_r.
  - split; [done|]. by eexists.
Qed.

(** C8. With the in-plane flag set, the alignment round registers the
    in-plane resampled copies to the HR volume and composes the rigid
    registration found for copy i into the slices of the original stack i,
    the one the stack manager loaded; it changes no Stack object and no
    other slice (first part). And the orchestrator modifies the original
    stacks in no other way (second part): whatever the flags and the
    strategy, and whether it returns or raises, a first estimate leaves
    every Stack object of the store as it was, but for the image and the
    mask of the volume the SDA solver holds and, when the in-plane step does
    not replace it, of the volume of the orchestrator, whose slices stay
    theirs; it leaves the in-plane copies as the in-plane registration made
    them; it writes no slice when the stacks are not to be registered and
    only slices of the original stacks when they are; the methods that
    configure the orchestrator leave the store alone, and the constructor
    only adds its volume. *)
Theorem original_stacks_modified_only_through_slice_propagation :
  (∀ E o w ip copies originals HR,
     FE._flag_use_in_plane_rigid_registration_for_initial_volume_estimate o = true →
     FE._in_plane_rigid_registration o = Some ip →
     stacks_at (get_resampled_planarly_aligned_stacks ip) (FE._N_stacks o) w
     = Some copies →
     stack_heap w !! FE._HR_volume o = Some HR →
     (FE._N_stacks o ≤ length (FE._rigid_registrations o))%nat →
     stacks_at (FE._stacks o) (FE._N_stacks o) w = Some originals →
     let Ts := (λ c, rigid_registration_of E c HR) <$> copies in
     let plan := visited_slices (zip originals Ts) in
     Forall (λ p, p.1 < length (slice_heap w))%nat plan →
     NoDup plan.*1 →
     ∃ o' w',
       FE._rigidly_register_all_stacks_to_HR_volume E (o, w) = (Ok tt, (o', w')) ∧
       o' = FE.set__rigid_registrations (FE._rigid_registrations o') o ∧
       stack_heap w' = stack_heap w ∧
       (∀ i original copy j slice_ref slice,
          originals !! i = Some original →
          copies !! i = Some copy →
          _slices original !! j = Some slice_ref →
          slice_heap w !! slice_ref = Some slice →
          get_affine_transform <$> slice_heap w' !! slice_ref
          = Some (get_composited_sitk_affine_transform
                    (rigid_registration_of E copy HR)
                    (get_affine_transform slice))) ∧
       (∀ slice_ref,
          (∀ original, original ∈ originals → slice_ref ∉ _slices original) →
          slice_heap w' !! slice_ref = slice_heap w !! slice_ref)) ∧
  (∀ E o w r o' w',
     Forall (λ l, l < length (stack_heap w))%nat (FE._stacks o) →
     (sda_HR_volume (FE._SDA o) < length (stack_heap w))%nat →
     FE.compute_first_estimate_of_HR_volume E (o, w) = (r, (o', w')) →
     FE._stacks o' = FE._stacks o ∧
     (∀ l st, stack_heap w !! l = Some st →
        ∃ st', stack_heap w' !! l = Some st' ∧ _slices st' = _slices st ∧
          (l ≠ sda_HR_volume (FE._SDA o) →
           FE._flag_use_in_plane_rigid_registration_for_initial_volume_estimate o
           = true ∨ l ≠ FE._HR_volume o →
           st' = st)) ∧
     (FE._flag_use_in_plane_rigid_registration_for_initial_volume_estimate o = true →
      ∀ i copy, in_plane_kernel E w (FE._stack_manager o) !! i = Some copy →
        stack_heap w' !! (length (stack_heap w) + i)%nat = Some copy) ∧
     length (slice_heap w') = length (slice_heap w) ∧
     (∀ sl,
        (FE._flag_register_stacks_before_initial_volume_estimate o = true →
         ∀ l st, l ∈ FE._stacks o → stack_heap w !! l = Some st →
                 sl ∉ _slices st) →
        slice_heap w' !! sl = slice_heap w !! sl)) ∧
  (∀ c s, (FE_apply c s).2.2 = s.2) ∧
  (∀ flag s,
     (FE.use_in_plane_registration_for_initial_volume_estimate flag s).2.2 = s.2) ∧
  (∀ flag s,
     (FE.register_stacks_before_initial_volume_estimate flag s).2.2 = s.2) ∧
  (∀ E sm name t w r w',
     FE.__init__ E sm name t w = (r, w') →
     slice_heap w' = slice_heap w ∧ ∃ new, stack_heap w' = stack_heap w ++ new).
Proof.
  split; [exact in_plane_round_registers_copies_and_updates_originals|].
  split; [exact first_estimate_frame|].
  destruct FE_configuration_keeps_the_store as (H1 & H2 & H3).
  split; [exact H1|]. split; [exact H2|]. split; [exact H3|].
  exact FE_init_keeps_the_store.
Qed.

(** ** The properties on the concrete scene *)


(** The builder on the first stack of the scene, of spacing (1, 1, 2) and
    size (2, 2, 2): it returns a volume, the product 2 / 1 * 2 being 4 and
    the resampling of the scene accepting every grid. *)
Lemma isotropic_grid_builder_validates_nothing_witness :
  ∃ HR_volume s',
    FE._get_isotropically_resampled_stack demo_env 0 (demo_FE, demo_world)
    = (Ok HR_volume, s').
Proof.
  apply (proj1 (isotropic_grid_builder_validates_nothing demo_env demo_FE 0
                  demo_world demo_stack0 (b64_of_Z 1) (b64_of_Z 1) (b64_of_Z 2)
                  2 2 2 eq_refl eq_refl eq_refl)).
  exists (default 0%Qc
            (b64_value (b64_mul (b64_div (b64_of_Z 2) (b64_of_Z 1)) (b64_of_Z 2)))), 4.
  split; [vm_compute; reflexivity|].
  split.
  { unfold is_round_half_to_even. apply (bool_decide_unpack _). vm_compute. exact I. }
  unfold is_uint32. split_and!; try lia; reflexivity.
Defined.

(** Against C6 as stated. A valid stack for which the builder does not
    succeed: with a spacing of 2^-600 along x and 2^600 along z, or of 2^-40
    and 2^40, and a size of (1, 1, 1), the product is infinite, or is 2^80,
    and the builder raises [OverflowError], whatever SimpleITK would do. A
    stack of size zero along z, and one of negative spacing along y, for
    which the builder raises no geometry error: it computes the grid and
    hands it to the resampling, and returns the volume when the resampling
    accepts the grid, as that of the scene does. *)
Lemma isotropic_grid_builder_geometry_counterexample :
  (∀ E o,
     let w := single_stack_world [1; 1; 1]
                [demo_float 1 (2 ^ 600); b64_of_Z 1; b64_of_Z (2 ^ 600)] in
     FE._get_isotropically_resampled_stack E 0 (o, w)
     = (Raise OverflowError, (o, w))) ∧
  (∀ E o,
     let w := single_stack_world [1; 1; 1]
                [demo_float 1 (2 ^ 40); b64_of_Z 1; b64_of_Z (2 ^ 40)] in
     FE._get_isotropically_resampled_stack E 0 (o, w)
     = (Raise OverflowError, (o, w))) ∧
  (FE._get_isotropically_resampled_stack demo_env 0
     (demo_FE, single_stack_world [3; 3; 0] [b64_of_Z 1; b64_of_Z 1; b64_of_Z 1])).1
  = Ok 1%nat ∧
  (FE._get_isotropically_resampled_stack demo_env 0
     (demo_FE,
      single_stack_world [3; 3; 3] [b64_of_Z 1; b64_of_Z (-1); b64_of_Z 1])).1
  = Ok 1%nat.
Proof.
  split_and!.
  - intros E o w. rewrite get_isotropically_resampled_stack_lift.
    vm_compute. reflexivity.
  - intros E o w. rewrite get_isotropically_resampled_stack_lift.
    vm_compute. reflexivity.
  - vm_compute. reflexivity.
  - vm_compute. reflexivity.
Qed.

(** An unknown differential-operator variant on the scene. *)
Lemma invalid_setting_witness :
  VR_invalid (Set_SRR_DTD_computation_type "Sobel") ∧
  ∃ e, is_ConfigurationError e ∧
       VR_apply (Set_SRR_DTD_computation_type "Sobel") demo_VR_state
       = (Raise e, demo_VR_state).
Proof.
  assert (H : VR_invalid (Set_SRR_DTD_computation_type "Sobel")).
  { simpl. intros H. by apply (bool_decide_pack _) in H. }
  split; [exact H|].
  exact (proj1 invalid_setting_raises_and_keeps_state _ demo_VR_state H).
Defined.

(** Selecting SDA on the scene keeps every parameter. *)
Lemma strategy_switch_witness :
  VR_parameters
    (VR.set_reconstruction_approach "SDA" demo_VR_state).2.1
  = VR_parameters demo_VR_state.1.
Proof.
  destruct (VR.set_reconstruction_approach "SDA" demo_VR_state) as [r s'] eqn:H.
  exact (proj1 (proj2 (proj1 strategy_switch_isolation _ _ _ _ H))).
Defined.

(** The orchestrator constructed on the scene. *)
Lemma default_reconstruction_approaches_witness :
  FE.__init__ demo_env demo_stack_manager "HR_volume" 0 demo_world
  = (Ok demo_FE, demo_constructed.2) ∧
  FE.get_reconstruction_approach demo_state = (Ok "SDA", demo_state) ∧
  FE.compute_first_estimate_of_HR_volume demo_env demo_state
  = FE._run_SDA demo_env demo_state.
Proof.
  assert (H : FE.__init__ demo_env demo_stack_manager "HR_volume" 0 demo_world
              = (Ok demo_FE, demo_constructed.2)) by reflexivity.
  split; [exact H|].
  exact (proj2 (proj2 (proj2 default_reconstruction_approaches)) _ _ _ _ _ _ _ H).
Defined.

(** The propagation on the scene: the second slice of the first stack,
    shifted by (0, 0, 2), is composed with the shift by (1, 0, 0). *)
Lemma slice_transforms_composed_witness :
  ∃ w',
    FE._update_slice_transformations (demo_registered_FE, demo_constructed.2)
    = (Ok tt, (demo_registered_FE, w')) ∧
    (translation ∘ get_affine_transform) <$> slice_heap w' !! 1%nat
    = Some (translation
              (get_composited_sitk_affine_transform (demo_shift 1 0 0)
                 (demo_shift 0 0 2))).
Proof.
  edestruct (slice_transforms_composed_with_rigid_registration
               demo_registered_FE demo_constructed.2)
    as (w' & Hrun & _ & Hsl & _).
  - vm_compute. reflexivity.
  - apply (bool_decide_unpack _). vm_compute. exact I.
  - apply (bool_decide_unpack _). vm_compute. exact I.
  - exists w'. split; [exact Hrun|].
    specialize (Hsl 0%nat 0%nat
      demo_stack0
      (demo_shift 1 0 0) 1%nat 1%nat {| affine_transform := demo_shift 0 0 2 |}).
    rewrite option_fmap_compose. rewrite Hsl; [reflexivity|..].
    + vm_compute. lia.
    + reflexivity.
    + reflexivity.
    + reflexivity.
    + reflexivity.
    + reflexivity.
Defined.

(** The propagation on the scene: the second stack is registered by the
    identity and its slice stays as it was. *)
Lemma identity_registration_witness :
  ∃ w',
    FE._update_slice_transformations (demo_registered_FE, demo_constructed.2)
    = (Ok tt, (demo_registered_FE, w')) ∧
    slice_heap w' !! 2%nat = slice_heap demo_constructed.2 !! 2%nat.
Proof.
  edestruct (identity_registration_leaves_slices_unchanged
               demo_registered_FE demo_constructed.2)
    as (w' & Hrun & Hsl).
  - vm_compute. reflexivity.
  - apply (bool_decide_unpack _). vm_compute. exact I.
  - apply (bool_decide_unpack _). vm_compute. exact I.
  - exists w'. split; [exact Hrun|].
    apply (Hsl 1%nat 1%nat
      demo_stack1
      0%nat 2%nat).
    + vm_compute. lia.
    + reflexivity.
    + reflexivity.
    + reflexivity.
    + reflexivity.
Defined.

(** An alignment round on the scene with the in-plane flag set: the slice
    of the second original stack, shifted by 5 along x, is shifted by 6
    afterwards, and no Stack object has changed. And a whole first estimate
    on the scene with both flags set: it returns, the two original stacks
    and the two in-plane copies are as they were, the slice of the second
    original stack has moved from 5 to 6 along x, and the store holds no
    more slices than before. *)
Lemma original_stacks_witness :
  (∃ o' w',
     FE._rigidly_register_all_stacks_to_HR_volume demo_env demo_in_plane_run.2
     = (Ok tt, (o', w')) ∧
     stack_heap w' = stack_heap demo_in_plane_run.2.2 ∧
     (this ∘ vx ∘ translation ∘ get_affine_transform) <$> slice_heap w' !! 2%nat
     = Some 6%Q) ∧
  demo_aligning_run.1 = Ok tt ∧
  stack_heap demo_aligning_run.2.2 !! 0%nat = Some demo_stack0 ∧
  stack_heap demo_aligning_run.2.2 !! 1%nat = Some demo_stack1 ∧
  stack_heap demo_aligning_run.2.2 !! 3%nat = Some (demo_copy demo_stack0) ∧
  stack_heap demo_aligning_run.2.2 !! 4%nat = Some (demo_copy demo_stack1) ∧
  length (slice_heap demo_aligning_run.2.2) = 3%nat ∧
  (this ∘ vx ∘ translation ∘ get_affine_transform)
    <$> slice_heap demo_aligning_run.2.2 !! 2%nat = Some 6%Q.
Proof.
  destruct original_stacks_modified_only_through_slice_propagation
    as (Hround & Hframe & _).
  split.
  { rewrite (surjective_pairing demo_in_plane_run.2).
    edestruct (Hround demo_env demo_in_plane_run.2.1 demo_in_plane_run.2.2)
      as (o' & w' & Hrun & _ & Hst & Hsl & _).
    - vm_compute. reflexivity.
    - vm_compute. reflexivity.
    - vm_compute. reflexivity.
    - vm_compute. reflexivity.
    - vm_compute. lia.
    - vm_compute. reflexivity.
    - apply (bool_decide_unpack _). vm_compute. exact I.
    - apply (bool_decide_unpack _). vm_compute. exact I.
    - exists o', w'. split; [exact Hrun|]. split; [exact Hst|].
      rewrite !option_fmap_compose.
      rewrite (Hsl 1%nat demo_stack1 (demo_copy demo_stack1) 0%nat 2%nat
                 {| affine_transform := demo_shift 5 0 0 |});
        [vm_compute; reflexivity| reflexivity..]. }
  split; [vm_compute; reflexivity|].
  destruct (Hframe demo_env demo_aligning_state.1 demo_aligning_state.2
              demo_aligning_run.1 demo_aligning_run.2.1 demo_aligning_run.2.2)
    as (_ & Hstacks & Hcopies & Hlen & _).
  { apply (bool_decide_unpack _). vm_compute. exact I. }
  { vm_compute. lia. }
  { unfold demo_aligning_run.
    rewrite <- (surjective_pairing demo_aligning_state).
    by destruct (FE.compute_first_estimate_of_HR_volume demo_env demo_aligning_state)
      as [r [o' w']]. }
  split.
  { destruct (Hstacks 0%nat demo_stack0 eq_refl) as (st' & -> & _ & Heq).
    f_equal. apply Heq; [vm_compute; lia|by left]. }
  split.
  { destruct (Hstacks 1%nat demo_stack1 eq_refl) as (st' & -> & _ & Heq).
    f_equal. apply Heq; [vm_compute; lia|by left]. }
  split; [exact (Hcopies eq_refl 0%nat (demo_copy demo_stack0) eq_refl)|].
  split; [exact (Hcopies eq_refl 1%nat (demo_copy demo_stack1) eq_refl)|].
  split; [exact Hlen|].
  vm_compute. reflexivity.
Defined.

(** Arrays without a negative entry are nonnegative at every voxel. *)
Lemma at_voxel_nonneg (masks : list (list Qc)) :
  Forall (Forall (λ x, 0 ≤ x)%Qc) masks →
  ∀ m v, m ∈ masks → (0 ≤ at_voxel v m)%Qc.
Proof.
  intros Hall m v Hm. rewrite list.Forall_forall in Hall.
  specialize (Hall m Hm). unfold at_voxel.
  destruct (m !! v) as [x|] eqn:Hx; simpl; [|apply Qcle_refl].
  rewrite list.Forall_forall in Hall. apply Hall.
  by eapply list_elem_of_lookup_2.
Qed.

(** The averaging on the scene: voxel 1 holds 4 in one stack and 8 in the
    other, and is in both masks. *)
Lemma averaging_witness :
  ∃ w' HR',
    FE._run_averaging demo_env demo_state = (Ok tt, (demo_FE, w')) ∧
    stack_heap w' = <[FE._HR_volume demo_FE := HR']> (stack_heap demo_state.2) ∧
    this <$> voxels (sitk HR') !! 1%nat = Some 6%Q ∧
    this <$> voxels (sitk_mask HR') !! 1%nat = Some 1%Q.
Proof.
  edestruct (averaging_is_counted_average_over_union_mask demo_env
               demo_FE demo_state.2)
    as (w' & HR' & Hrun & Hheap & _ & _ & _ & Hvox).
  - vm_compute. reflexivity.
  - vm_compute. reflexivity.
  - vm_compute. reflexivity.
  - apply at_voxel_nonneg. apply (bool_decide_unpack _). vm_compute. exact I.
  - exists w', HR'. split; [exact Hrun|]. split; [exact Hheap|].
    destruct (Hvox 1%nat) as (Hm & Hi & _); [vm_compute; lia|].
    rewrite Hm, Hi. split; vm_compute; reflexivity.
Defined.

(** Against C1 as stated: on the scene voxel 0 has intensity 0 in both
    stacks, so that no stack contributes to it, and lies in the mask of the
    first stack; after the averaging its intensity is 0 and its mask is 1,
    not 0. *)
Lemma zero_contribution_voxel_inside_mask :
  ∃ HR inputs HR',
    stack_heap demo_state.2 !! FE._HR_volume demo_FE = Some HR ∧
    averaging_inputs demo_FE demo_state.2 = Some inputs ∧
    demo_average_run.1 = Ok tt ∧
    stack_heap demo_average_run.2.2 !! FE._HR_volume demo_FE = Some HR' ∧
    contribution_count (resampled_intensity demo_env HR <$> inputs) 0 = 0%nat ∧
    this <$> voxels (sitk HR') !! 0%nat = Some 0%Q ∧
    this <$> voxels (sitk_mask HR') !! 0%nat = Some 1%Q.
Proof.
  do 3 eexists. split; [vm_compute; reflexivity|].
  split; [vm_compute; reflexivity|].
  split; [vm_compute; reflexivity|].
  split; [vm_compute; reflexivity|].
  split_and!; vm_compute; reflexivity.
Qed.

(** C5, where the code departs from it. On the scene, a first estimate
    with the in-plane flag set and the default strategy SDA returns
    normally; [get_HR_volume] then returns volume 5, the one made in the
    run from the in-plane resampled target, whereas the SDA solver still
    holds volume 2, the one made by the constructor. The result of the
    strategy (every intensity raised by one by the kernel of the scene) is
    in volume 2; volume 5 holds the plain resampling of the target, which
    the strategy never touched. *)
Theorem in_plane_SDA_estimate_misses_returned_volume :
  demo_in_plane_run.1 = Ok tt ∧
  FE._recon_approach demo_in_plane_run.2.1 = "SDA" ∧
  FE.get_HR_volume demo_in_plane_run.2 = (Ok 5%nat, demo_in_plane_run.2) ∧
  sda_HR_volume (FE._SDA demo_in_plane_run.2.1) = 2%nat ∧
  (intensities_of ∘ sitk) <$> stack_heap demo_in_plane_run.2.2 !! 5%nat
  = Some [0; 4; 6; 0; 2; 0; 0; 0; 0; 0; 0; 0; 0; 0; 0; 0]%Q ∧
  (intensities_of ∘ sitk) <$> stack_heap demo_in_plane_run.2.2 !! 2%nat
  = Some [1; 5; 7; 1; 3; 1; 1; 1; 1; 1; 1; 1; 1; 1; 1; 1]%Q ∧
  (intensities_of ∘ sitk) <$> stack_heap demo_state.2 !! 2%nat
  = Some [0; 4; 6; 0; 2; 0; 0; 0; 0; 0; 0; 0; 0; 0; 0; 0]%Q.
Proof.
  split_and!.
  - vm_compute. reflexivity.
  - vm_compute. reflexivity.
  - unfold FE.get_HR_volume, self_get.
    apply (f_equal (λ x : nat, (Ok x, demo_in_plane_run.2))).
    vm_compute. reflexivity.
  - vm_compute. reflexivity.
  - vm_compute. reflexivity.
  - vm_compute. reflexivity.
  - vm_compute. reflexivity.
Qed.


(** * Further properties of the two orchestrators *)

(** ** The reconstruction orchestrator and its solvers *)

Lemma VR_init_consistent sm HR : VR_consistent (VR.__init__ sm HR).
Proof.
  split; try reflexivity; simpl; by apply (bool_decide_unpack _).
Qed.

Lemma VR_apply_consistent c s r s' :
  VR_consistent s.1 → VR_apply c s = (r, s') → VR_consistent s'.1.
Proof.
  destruct s as [o w]. intros [] H. simpl in *.
  destruct c; simpl in H;
    unfold VR.set_reconstruction_approach, VR.set_SRR_alpha_cut,
      VR.set_SRR_alpha, VR.set_SRR_iter_max, VR.set_SRR_approach,
      VR.set_SRR_DTD_computation_type, VR.set_SDA_sigma, VR.set_SDA_approach in H;
    try case_decide; injection H as <- <-; destruct o; simpl in *;
    split; simpl; try done; unfold VR_SDA_variant in *; simpl in *;
    try done; by apply dec_stable.
Qed.

(** X1. The reconstruction orchestrator keeps its two solvers in step
    with itself. Right after construction, and after any call of a setter,
    accepted or refused, the Tikhonov solver holds the alpha_cut, alpha,
    iter_max, regularization order and DTD variant of the orchestrator, the
    SDA solver holds its sigma and the kernel variant it was last given,
    both solvers work on the Volume of the orchestrator, and every name the
    orchestrator holds is one its setters accept. *)
Theorem VR_solvers_stay_configured_as_the_orchestrator :
  (∀ sm HR, VR_consistent (VR.__init__ sm HR)) ∧
  (∀ c s r s', VR_consistent s.1 → VR_apply c s = (r, s') → VR_consistent s'.1).
Proof. split; [exact VR_init_consistent | exact VR_apply_consistent]. Qed.

(** X2. A setter called with a value it accepts returns, leaves the store
    alone, and changes what one getter returns: the getter of its parameter
    returns the value set, every other getter returns what it returned
    before ([set_SDA_approach] has no getter and changes none). *)
Theorem VR_getters_read_back_what_was_set c s :
  ¬ VR_invalid c →
  ∃ s',
    VR_apply c s = (Ok tt, s') ∧
    s'.2 = s.2 ∧
    ∀ p, ∃ before,
      VR_get p s = (Ok before, s) ∧
      VR_get p s'
      = (Ok (match VR_target c with
             | Some (p', v) => if decide (p = p') then v else before
             | None => before
             end), s').
Proof.
  destruct s as [o w]. intros Hvalid.
  destruct c; simpl in Hvalid;
    unfold VR_apply, VR.set_reconstruction_approach, VR.set_SRR_alpha_cut,
      VR.set_SRR_alpha, VR.set_SRR_iter_max, VR.set_SRR_approach,
      VR.set_SRR_DTD_computation_type, VR.set_SDA_sigma, VR.set_SDA_approach;
    try rewrite decide_False by done;
    (eexists; split; [reflexivity|]; split; [reflexivity|]);
    intros p; destruct p; eexists; (split; [reflexivity|]);
    destruct o; reflexivity.
Qed.

(** Setting the regularization order on the scene: the order reads back,
    alpha is the 0.1 of the constructor. *)
Lemma VR_getters_witness :
  ∃ s',
    VR_apply (Set_SRR_approach "TK1") demo_VR_state = (Ok tt, s') ∧
    VR.get_SRR_approach s' = (Ok "TK1", s') ∧
    VR.get_SRR_alpha s' = (Ok (Q2Qc (1 # 10)), s').
Proof.
  destruct (VR_getters_read_back_what_was_set (Set_SRR_approach "TK1")
              demo_VR_state) as (s' & Hset & _ & Hget).
  { simpl. intros H. apply H. by apply (bool_decide_unpack _). }
  exists s'. split; [exact Hset|].
  destruct s' as [o' w'].
  destruct (Hget P_SRR_approach) as (b1 & _ & H1).
  destruct (Hget P_SRR_alpha) as (b2 & Hb2 & H2).
  injection H1 as H1. injection Hb2 as <-. injection H2 as H2.
  unfold VR.get_SRR_approach, VR.get_SRR_alpha, self_get. simpl.
  rewrite H1, H2. done.
Defined.

(** X3. A run of the reconstruction, on an orchestrator that agrees with
    its solvers and whose Volume is in the store, returns and replaces the
    image of that Volume by the result of the solver of the selected
    approach: the SDA solver for SDA, the Tikhonov solver otherwise. The
    orchestrator, the mask and the slices of the Volume, every other Stack
    object and every slice are as they were. *)
Theorem VR_run_reconstruction_replaces_the_image_only E o w vol :
  VR_consistent o →
  stack_heap w !! VR._HR_volume o = Some vol →
  let image :=
    if decide (VR._recon_approach o = "SDA") then sda_kernel E w (VR._SDA o)
    else srr_kernel E w (VR._SRR o) in
  VR.run_reconstruction E (o, w)
  = (Ok tt,
     (o, with_stack_heap
           (<[VR._HR_volume o := set_sitk image vol]> (stack_heap w)) w)).
Proof.
  intros [_ _ _ _ _ _ _ HSRR HSDA Hname _ _ _] Hvol image.
  unfold VR.run_reconstruction. py_step. simpl.
  unfold image. clear image.
  assert (VR._recon_approach o = "SRR" ∨ VR._recon_approach o = "SDA") as [Ha|Ha].
  { revert Hname. rewrite !elem_of_cons, elem_of_nil. tauto. }
  - rewrite Ha. simpl.
    unfold VR._run_SRR. py_step. simpl.
    unfold lift_world, ips_run_reconstruction, bind, deref_stack, get,
      store_stack, modify. simpl.
    by rewrite HSRR, Hvol.
  - rewrite Ha. simpl.
    unfold VR._run_SDA. py_step. simpl.
    unfold lift_world, sda_run_reconstruction, bind, deref_stack, get,
      store_stack, modify. simpl.
    by rewrite HSDA, Hvol.
Qed.

(** A run of the reconstruction on the scene, with the default approach:
    the solver of the scene raises every intensity of the volume by one. *)
Lemma VR_run_reconstruction_witness :
  ∃ w',
    VR.run_reconstruction demo_env demo_VR_state = (Ok tt, (demo_VR_state.1, w')) ∧
    (intensities_of ∘ sitk) <$> stack_heap w' !! 2%nat
    = Some [1; 5; 7; 1; 3; 1; 1; 1; 1; 1; 1; 1; 1; 1; 1; 1]%Q ∧
    slice_heap w' = slice_heap demo_VR_state.2.
Proof.
  eexists. split.
  - rewrite (surjective_pairing demo_VR_state).
    eapply (VR_run_reconstruction_replaces_the_image_only demo_env).
    + apply VR_init_consistent.
    + vm_compute. reflexivity.
  - split; [vm_compute; reflexivity|reflexivity].
Defined.

(** X4. [set_SDA_approach], of either orchestrator, called with a variant
    it accepts, hands the variant to the SDA solver and stores it in the
    attribute [_SDA_approach], which it creates; the attribute [_SDA_type],
    in which the constructor stored the variant, keeps the value of the
    constructor. *)
Theorem set_SDA_approach_leaves_SDA_type v :
  v ∈ ["Shepard-YVV"; "Shepard-Deriche"] →
  (∀ s, ∃ s',
     VR.set_SDA_approach v s = (Ok tt, s') ∧
     VR._SDA_approach s'.1 = Some v ∧
     sda_approach (VR._SDA s'.1) = Some v ∧
     VR._SDA_type s'.1 = VR._SDA_type s.1) ∧
  (∀ s, ∃ s',
     FE.set_SDA_approach v s = (Ok tt, s') ∧
     FE._SDA_approach s'.1 = Some v ∧
     sda_approach (FE._SDA s'.1) = Some v ∧
     FE._SDA_type s'.1 = FE._SDA_type s.1).
Proof.
  intros Hv. split; intros [o w].
  - unfold VR.set_SDA_approach. rewrite decide_False by (by intros H; apply H).
    eexists. split; [reflexivity|]. by destruct o.
  - unfold FE.set_SDA_approach. rewrite decide_False by (by intros H; apply H).
    eexists. split; [reflexivity|]. by destruct o.
Qed.

(** Selecting the Deriche variant on the scene: the solver has it, and
    [_SDA_type] still names the variant of the constructor. *)
Lemma set_SDA_approach_witness :
  ∃ s',
    VR.set_SDA_approach "Shepard-Deriche" demo_VR_state = (Ok tt, s') ∧
    sda_approach (VR._SDA s'.1) = Some "Shepard-Deriche" ∧
    VR._SDA_type s'.1 = "Shepard-YVV".
Proof.
  assert (Hv : "Shepard-Deriche" ∈ ["Shepard-YVV"; "Shepard-Deriche"])
    by (by apply (bool_decide_unpack _)).
  destruct (proj1 (set_SDA_approach_leaves_SDA_type "Shepard-Deriche" Hv)
              demo_VR_state) as (s' & Hrun & _ & Hs & Ht).
  exists s'. split; [exact Hrun|]. split; [exact Hs|]. rewrite Ht. reflexivity.
Defined.

(** ** The first-estimate orchestrator *)

(** X5. The constructor looks the target stack up by its number as Python
    indexes a list: a number beyond the stacks, on either side, raises
    [IndexError], before anything is made. *)
Theorem constructor_rejects_a_target_out_of_range E sm name t w :
  (t < - Z.of_nat (get_number_of_stacks sm) ∨
   Z.of_nat (get_number_of_stacks sm) ≤ t) →
  FE.__init__ E sm name t w = (Raise IndexError, w).
Proof.
  intros Ht.
  unfold FE.__init__, getitem, py_index, get_number_of_stacks, get_stacks in *.
  assert (Hnone :
    (if decide (0 ≤ t) then sm_stacks sm !! Z.to_nat t
     else if decide (- Z.of_nat (length (sm_stacks sm)) ≤ t)
          then sm_stacks sm !! Z.to_nat (Z.of_nat (length (sm_stacks sm)) + t)
          else None) = None).
  { repeat case_decide; try done; try lia.
    apply lookup_ge_None. lia. }
  unfold bind at 1. by rewrite Hnone.
Qed.

(** The scene has two stacks: there is no stack number 2. *)
Lemma constructor_target_witness :
  FE.__init__ demo_env demo_stack_manager "HR_volume" 2 demo_world
  = (Raise IndexError, demo_world).
Proof.
  apply constructor_rejects_a_target_out_of_range. right. vm_compute. discriminate.
Defined.

(** X6. The builder reads the third spacing and the third size of the
    stack: on an image of fewer than three dimensions it raises
    [IndexError] and leaves the store as it was. *)
Theorem isotropic_resampling_needs_three_dimensions E o l w target :
  stack_heap w !! l = Some target →
  (length (GetSpacing (sitk target)) < 3 ∨ length (GetSize (sitk target)) < 3)%nat →
  FE._get_isotropically_resampled_stack E l (o, w) = (Raise IndexError, (o, w)).
Proof.
  intros Hl Hdim.
  rewrite get_isotropically_resampled_stack_lift.
  unfold FE.isotropically_resampled_stack.
  unfold bind at 1, deref_stack at 1. rewrite Hl.
  unfold bind, getitem_nat.
  destruct (GetSpacing (sitk target)) as [|s0 [|s1 [|s2 sp]]] eqn:Hsp;
    simpl; try reflexivity.
  destruct (GetSize (sitk target)) as [|z0 [|z1 [|z2 sz]]] eqn:Hsz;
    simpl; try reflexivity.
  simpl in Hdim. lia.
Qed.

(** The builder on an image of 2 x 2 pixels. *)
Lemma isotropic_resampling_planar_witness :
  FE._get_isotropically_resampled_stack demo_env 0 (demo_FE, planar_world)
  = (Raise IndexError, (demo_FE, planar_world)).
Proof.
  eapply isotropic_resampling_needs_three_dimensions; [reflexivity|].
  left. vm_compute. lia.
Defined.

(** X7. Whatever the stack, the builder writes into no object: either it
    raises and the store and the orchestrator are as they were, or it
    returns the next free location, at which the store then holds a Volume
    with the name of the reconstructed volume and no slice, every object the
    store held being as it was, the stack it was given included. *)
Theorem isotropic_grid_builder_only_allocates E l o w r s' :
  FE._get_isotropically_resampled_stack E l (o, w) = (r, s') →
  s'.1 = o ∧ slice_heap s'.2 = slice_heap w ∧
  ((∃ e, r = Raise e) ∧ s'.2 = w ∨
   ∃ HR, r = Ok (length (stack_heap w)) ∧
         stack_heap s'.2 = stack_heap w ++ [HR] ∧
         filename HR = FE._filename_reconstructed_volume o ∧
         _slices HR = []).
Proof.
  rewrite get_isotropically_resampled_stack_lift.
  destruct (FE.isotropically_resampled_stack E _ l w) as [r1 w1] eqn:Hb.
  apply isotropically_resampled_stack_outcome in Hb
    as [[-> [e ->]]|(image & mask & -> & ->)]; intros [= <- <-]; simpl.
  - split; [done|]. split; [done|]. left. eauto.
  - split; [done|]. split; [done|]. right. eauto.
Qed.

(** The builder on the first stack of the scene: the volume is the third
    Stack object of the store and the two stacks are as they were. *)
Lemma isotropic_grid_builder_allocation_witness :
  ∃ r s' HR,
    FE._get_isotropically_resampled_stack demo_env 0 (demo_FE, demo_world)
    = (r, s') ∧
    r = Ok 2%nat ∧
    stack_heap s'.2 = [demo_stack0; demo_stack1; HR] ∧ _slices HR = [].
Proof.
  destruct (FE._get_isotropically_resampled_stack demo_env 0 (demo_FE, demo_world))
    as [r s'] eqn:Hrun.
  pose proof Hrun as Hr. vm_compute in Hr. injection Hr as Hr _.
  destruct (isotropic_grid_builder_only_allocates _ _ _ _ _ _ Hrun)
    as (_ & _ & [[[e He] _]|(HR & Hok & Hheap & _ & Hsl)]).
  - rewrite He in Hr. discriminate.
  - exists r, s', HR. split; [reflexivity|]. split; [exact Hok|].
    split; [exact Hheap|exact Hsl].
Defined.

Lemma FE_init_registrations E sm name t w o w' :
  FE.__init__ E sm name t w = (Ok o, w') →
  FE._rigid_registrations o = replicate (FE._N_stacks o) Euler3DTransform ∧
  FE._N_stacks o = length (FE._stacks o).
Proof.
  unfold FE.__init__. intros H.
  apply bind_inv_ok in H as (target & w1 & _ & H).
  apply bind_inv_ok in H as (HR & w2 & _ & H).
  injection H as <- <-. done.
Qed.

(** X8. The constructor gives every stack the identity as its rigid
    registration: on a newly constructed orchestrator the propagation to the
    slices, the stacks and their slices being in the store, returns and
    changes nothing at all, whether or not two stacks share a slice. *)
Theorem propagation_after_construction_is_noop E sm name t w o w' inputs :
  FE.__init__ E sm name t w = (Ok o, w') →
  propagation_inputs o w' = Some inputs →
  Forall (λ p, p.1 < length (slice_heap w'))%nat (visited_slices inputs) →
  FE._update_slice_transformations (o, w') = (Ok tt, (o, w')).
Proof.
  intros Hinit Hin Hv.
  apply FE_init_registrations in Hinit as [Hregs _].
  apply (propagation_of_identities_is_noop o w' inputs); [done|done|].
  apply list.Forall_forall. intros p Hp.
  destruct (propagation_inputs_elem _ _ _ _ Hin Hp) as (i & l & _ & _ & _ & HT).
  rewrite Hregs in HT. by apply lookup_replicate in HT as [-> _].
Qed.

(** The propagation on the scene as constructed. *)
Lemma propagation_after_construction_witness :
  FE._update_slice_transformations demo_state = (Ok tt, demo_state).
Proof.
  eapply (propagation_after_construction_is_noop demo_env demo_stack_manager
            "HR_volume" 0 demo_world).
  - reflexivity.
  - vm_compute. reflexivity.
  - apply (bool_decide_unpack _). vm_compute. exact I.
Defined.

Lemma FE_init_consistent E sm name t w o w' :
  FE.__init__ E sm name t w = (Ok o, w') → FE_consistent o.
Proof.
  unfold FE.__init__. intros H.
  apply bind_inv_ok in H as (target & w1 & _ & H).
  apply bind_inv_ok in H as (HR & w2 & _ & H).
  injection H as <- <-.
  split; try reflexivity; simpl; try (by apply (bool_decide_unpack _)).
  apply length_replicate.
Qed.

Lemma FE_apply_consistent c s r s' :
  FE_consistent s.1 → FE_apply c s = (r, s') → FE_consistent s'.1.
Proof.
  destruct s as [o w]. intros [] H. simpl in *.
  destruct c; simpl in H;
    unfold FE.set_reconstruction_approach, FE.set_SDA_sigma,
      FE.set_SDA_approach in H;
    try case_decide; injection H as <- <-; destruct o; simpl in *;
    split; simpl; try done; unfold FE_SDA_variant in *; simpl in *;
    try done; by apply dec_stable.
Qed.

(** X9. The first-estimate orchestrator stays well configured: right
    after construction, and after any call of a setter, accepted or refused,
    its SDA solver holds its sigma and the kernel variant it was last given,
    its names are ones the setters accept, and it has one rigid registration
    for each of its stacks. On such an orchestrator the dispatch on the
    approach always finds its method: the SDA strategy for SDA, the
    averaging otherwise. *)
Theorem first_estimate_configuration_stays_consistent :
  (∀ E sm name t w o w',
     FE.__init__ E sm name t w = (Ok o, w') → FE_consistent o) ∧
  (∀ c s r s', FE_consistent s.1 → FE_apply c s = (r, s') → FE_consistent s'.1) ∧
  (∀ E o,
     FE_consistent o →
     dict_call (FE._update_HR_volume_estimate E) (FE._recon_approach o)
     = if decide (FE._recon_approach o = "SDA") then FE._run_SDA E
       else FE._run_averaging E).
Proof.
  split; [exact FE_init_consistent|]. split; [exact FE_apply_consistent|].
  intros E o [_ _ Hname _ _ _].
  assert (FE._recon_approach o = "SDA" ∨ FE._recon_approach o = "Average")
    as [->| ->]; [|done..].
  revert Hname. rewrite !elem_of_cons, elem_of_nil. tauto.
Qed.

(** X10. Without the in-plane flag the alignment round works on the
    original stacks themselves: it registers each stack to the HR volume,
    stores the rigid registration found for stack i as the i-th rigid
    registration of the orchestrator, and composes it into the slices of
    stack i. It changes no Stack object, and of the orchestrator the rigid
    registrations only. *)
Theorem plain_round_registers_the_original_stacks E o w originals HR :
  FE._flag_use_in_plane_rigid_registration_for_initial_volume_estimate o = false →
  stacks_at (FE._stacks o) (FE._N_stacks o) w = Some originals →
  stack_heap w !! FE._HR_volume o = Some HR →
  (FE._N_stacks o ≤ length (FE._rigid_registrations o))%nat →
  let Ts := (λ c, rigid_registration_of E c HR) <$> originals in
  let plan := visited_slices (zip originals Ts) in
  Forall (λ p, p.1 < length (slice_heap w))%nat plan →
  NoDup plan.*1 →
  ∃ o' w',
    FE._rigidly_register_all_stacks_to_HR_volume E (o, w) = (Ok tt, (o', w')) ∧
    o' = FE.set__rigid_registrations (FE._rigid_registrations o') o ∧
    (∀ i original,
       originals !! i = Some original →
       FE._rigid_registrations o' !! i
       = Some (rigid_registration_of E original HR)) ∧
    stack_heap w' = stack_heap w ∧
    (∀ i original j slice_ref slice,
       originals !! i = Some original →
       _slices original !! j = Some slice_ref →
       slice_heap w !! slice_ref = Some slice →
       get_affine_transform <$> slice_heap w' !! slice_ref
       = Some (get_composited_sitk_affine_transform
                 (rigid_registration_of E original HR)
                 (get_affine_transform slice))).
Proof.
  intros Hflag Ho HHR Hlen Ts plan Hv Hnd.
  do 2 eexists. split.
  { apply (rigidly_register_all_stacks_ok E o w (FE._stacks o)
             originals originals HR); [|done..].
    unfold working_stack_refs. by rewrite Hflag. }
  split; [by destruct o|]. split; [|split; [done|]].
  - intros i original Hi.
    replace (FE._rigid_registrations (FE.set__rigid_registrations _ o))
      with (((λ c, rigid_registration_of E c HR) <$> originals)
            ++ drop (FE._N_stacks o) (FE._rigid_registrations o))
      by (by destruct o).
    rewrite lookup_app_l by (rewrite length_fmap; by eapply lookup_lt_Some).
    by rewrite list_lookup_fmap, Hi.
  - intros i original j sl s Hi Hj Hs. simpl.
    erewrite foldl_propagate_step_visited; [done|done| |done].
    eapply (elem_of_visited_slices _ i original); [|by eapply list_elem_of_lookup_2].
    apply lookup_zip_Some. split; [done|].
    unfold Ts. by rewrite list_lookup_fmap, Hi.
Qed.

(** An alignment round on the scene without the in-plane flag: the second
    stack gets the registration of the scene, a shift by (1, 2, 3), and its
    slice, shifted by 5 along x, is shifted by 6 afterwards. *)
Lemma plain_round_witness :
  ∃ o' w',
    FE._rigidly_register_all_stacks_to_HR_volume demo_env demo_registering_state
    = (Ok tt, (o', w')) ∧
    (this ∘ vx ∘ translation) <$> FE._rigid_registrations o' !! 1%nat
    = Some 1%Q ∧
    (this ∘ vx ∘ translation ∘ get_affine_transform) <$> slice_heap w' !! 2%nat
    = Some 6%Q.
Proof.
  rewrite (surjective_pairing demo_registering_state).
  edestruct (plain_round_registers_the_original_stacks demo_env
               demo_registering_state.1 demo_registering_state.2)
    as (o' & w' & Hrun & _ & Hregs & _ & Hsl).
  - vm_compute. reflexivity.
  - vm_compute. reflexivity.
  - vm_compute. reflexivity.
  - vm_compute. lia.
  - apply (bool_decide_unpack _). vm_compute. exact I.
  - apply (bool_decide_unpack _). vm_compute. exact I.
  - exists o', w'. split; [exact Hrun|].
    rewrite !option_fmap_compose.
    rewrite (Hregs 1%nat demo_stack1 eq_refl).
    rewrite (Hsl 1%nat demo_stack1 0%nat 2%nat
               {| affine_transform := demo_shift 5 0 0 |});
      [split; vm_compute; reflexivity| reflexivity..].
Defined.

(** ** The rounding of the builder *)

(** X11. [np_round], the rounding by which the builder computes the new
    size, gives the integer nearest to its argument, the even one of the two
    nearest when the argument lies halfway between them, and no other
    integer is that. *)
Theorem np_round_is_the_nearest_integer_ties_to_even :
  ∀ v n, np_round v = n ↔ is_round_half_to_even v n.
Proof.
  intros v n. split.
  - intros <-. apply np_round_is_round_half_to_even.
  - apply is_round_half_to_even_unique.
Qed.
